(** * QGIS scipy point clustering: the three processing algorithms

    A shallow embedding of [scipy_point_clustering_algorithm.py]:
    [HierarchicalClustering], [KMeansClustering] and
    [HierarchicalClusteringByIdentifier].  Each [processAlgorithm] is a
    computation in a small state-and-exception monad: the state holds what
    the algorithm has emitted so far (features handed to a vector writer,
    output values, progress messages), the exception is the Python
    exception that aborts the run.

    Numbers: Python floats are modelled by canonical rationals [Qc] (finite
    values, exact arithmetic) and distance entries by [xreal], which adds
    the [+inf] that the identifier mask writes.  The scipy routines that
    the algorithms call ([pdist], [linkage], [fcluster], [fclusterdata],
    [kmeans2]) are a [Library] record: the theorems about the plugin hold
    for every library; a reference instance is given for concrete runs. *)

From Stdlib Require Import ZArith QArith Qcanon Qround String Sorted.
From stdpp Require Import base numbers list gmap sets strings.

Local Open Scope string_scope.
Local Open Scope list_scope.
Local Open Scope Z_scope.

(** ** Numbers *)

(** A numpy float that is finite, or [+inf]. *)
Inductive xreal :=
  | Finite (x : Qc)
  | PosInf.

#[global] Instance xreal_eq_dec : EqDecision xreal.
Proof. solve_decision. Defined.

(** [a <= b] on floats with [+inf]. *)
Definition xreal_leb (a b : xreal) : bool :=
  match a, b with
  | Finite x, Finite y => bool_decide (x ≤ y)%Qc
  | Finite _, PosInf => true
  | PosInf, Finite _ => false
  | PosInf, PosInf => true
  end.

Definition xreal_ltb (a b : xreal) : bool := negb (xreal_leb b a).

Definition point := (Qc * Qc)%type.

(** Python's [int(x)] on a float: truncation towards zero. *)
Definition py_int (x : Qc) : Z :=
  if decide (0 ≤ x)%Qc then Qfloor x else Qceiling x.

Definition Z2Qc (z : Z) : Qc := Q2Qc (inject_Z z).

(** ** Exceptions and the processing monad *)

Inductive exn :=
  | ValueError (msg : string)
  | IndexError
  | KeyError
  | ZeroDivisionError
  | LibraryError (routine : string) (msg : string).

#[global] Instance exn_eq_dec : EqDecision exn.
Proof. solve_decision. Defined.

Inductive result (A : Type) :=
  | Ok (a : A)
  | Raise (e : exn).
Arguments Ok {A} a.
Arguments Raise {A} e.

(** Attribute values of a feature. *)
Inductive attr :=
  | AInt (z : Z)
  | AStr (s : string).

#[global] Instance attr_eq_dec : EqDecision attr.
Proof. solve_decision. Defined.

(** What [writer.addFeature(out_feature)] receives. *)
Record out_feature := OutFeature {
  out_geometry : point;
  out_attributes : list attr
}.

(** The text handed to [progress.setInfo]. *)
Inductive message :=
  | MsgToleranceZero
  | MsgPointLimit (feature_count point_limit : Z)
  | MsgKNotWhole
  | MsgExtracting
  | MsgBuildingHierarchical
  | MsgBuildingKMeans
  | MsgWriting
  | MsgWritingCentroids
  | MsgClustersFormed (num_clusters : Z).

Inductive progress_event :=
  | SetPercentage (p : Qc)
  | SetInfo (m : message) (error : bool).

(** Everything a run can emit. *)
Record outputs := Outputs {
  written : list out_feature;           (* OUTPUT_LAYER, in writing order *)
  centroid_written : list out_feature;  (* CENTROID_OUTPUT *)
  num_clusters_out : option Z;          (* NUM_CLUSTERS *)
  progress_log : list progress_event    (* newest first *)
}.

Definition no_outputs : outputs := Outputs [] [] None [].

Definition M (A : Type) : Type := outputs → outputs * result A.

Definition ret {A} (a : A) : M A := λ s, (s, Ok a).
Definition raise {A} (e : exn) : M A := λ s, (s, Raise e).
Definition bind {A B} (m : M A) (k : A → M B) : M B :=
  λ s, match m s with
       | (s', Ok a) => k a s'
       | (s', Raise e) => (s', Raise e)
       end.

Notation "'let*' x ':=' m 'in' k" := (bind m (λ x, k))
  (at level 10, x pattern, m at level 100, k at level 200).
Notation "m >>> k" := (bind m (λ _, k))
  (at level 190, right associativity).

(** [progress.setPercentage], [progress.setInfo]. *)
Definition setPercentage (p : Qc) : M unit :=
  λ s, (Outputs (written s) (centroid_written s) (num_clusters_out s)
                (SetPercentage p :: progress_log s), Ok tt).
Definition setInfo (m : message) (error : bool) : M unit :=
  λ s, (Outputs (written s) (centroid_written s) (num_clusters_out s)
                (SetInfo m error :: progress_log s), Ok tt).

(** [writer.addFeature] on the two vector outputs, [self.setOutputValue]. *)
Definition addFeature (f : out_feature) : M unit :=
  λ s, (Outputs (written s ++ [f]) (centroid_written s) (num_clusters_out s)
                (progress_log s), Ok tt).
Definition addCentroid (f : out_feature) : M unit :=
  λ s, (Outputs (written s) (centroid_written s ++ [f]) (num_clusters_out s)
                (progress_log s), Ok tt).
Definition setOutputValue (n : Z) : M unit :=
  λ s, (Outputs (written s) (centroid_written s) (Some n)
                (progress_log s), Ok tt).

(** Python float division [a / b]. *)
Definition py_div (a b : Qc) : M Qc :=
  if decide (b = 0%Qc) then raise ZeroDivisionError else ret (a / b)%Qc.

(** [for i, x in enumerate(xs, start): acc = body(i, x, acc)]: a Python
    loop that updates local variables [acc] and may raise. *)
Fixpoint for_enumerate {A S} (start : Z) (xs : list A) (acc : S)
    (body : Z → A → S → M S) : M S :=
  match xs with
  | [] => ret acc
  | x :: xs' =>
      let* acc' := body start x acc in
      for_enumerate (start + 1) xs' acc' body
  end.

(** [seq[i]] on a class-level list. *)
Definition py_index {A} (l : list A) (i : nat) : M A :=
  match l !! i with
  | Some a => ret a
  | None => raise IndexError
  end.

(** A library call: the routine either returns or raises inside the
    library; the exception reaches the caller unchanged. *)
Definition lib_result (A : Type) : Type := (A + string)%type.

Definition call {A} (routine : string) (r : lib_result A) : M A :=
  match r with
  | inl a => ret a
  | inr msg => raise (LibraryError routine msg)
  end.

(** ** The input layer and the host configuration *)

Record feature := Feature {
  f_id : Z;                      (* f.id() *)
  f_geometry : point;            (* f.geometry().asPoint() *)
  f_attributes : list attr       (* f.attributes() *)
}.

Record vector_layer := VectorLayer {
  selectedFeatureCount : Z;      (* vectorLayer.selectedFeatureCount() *)
  features : list feature;       (* vector.features(vectorLayer) *)
  field_names : list string      (* names of provider.fields() *)
}.

(** [ProcessingConfig]: the one setting the plugin reads. *)
Record ProcessingConfig := Config {
  POINT_LIMIT : Z
}.

(** [f[name]]: the attribute under the field called [name]. *)
Definition feature_getitem (layer : vector_layer) (f : feature) (name : string) : M attr :=
  match list_find (λ n, n = name) (field_names layer) with
  | Some (i, _) =>
      match f_attributes f !! i with
      | Some a => ret a
      | None => raise KeyError
      end
  | None => raise KeyError
  end.

(** ** Selections and the scipy interface *)

Inductive linkage_method := single | complete | average | weighted | centroid | median | ward.
Inductive linkage_metric := euclidean | cityblock.
Inductive criterion := distance | inconsistent | maxclust | monocrit | maxclust_monocrit.
Inductive minit := random | points.

#[global] Instance linkage_method_eq_dec : EqDecision linkage_method.
Proof. solve_decision. Defined.
#[global] Instance linkage_metric_eq_dec : EqDecision linkage_metric.
Proof. solve_decision. Defined.
#[global] Instance criterion_eq_dec : EqDecision criterion.
Proof. solve_decision. Defined.
#[global] Instance minit_eq_dec : EqDecision minit.
Proof. solve_decision. Defined.

Definition _linkage_methods : list linkage_method :=
  [single; complete; average; weighted; centroid; median; ward].
Definition _linkage_metrics : list linkage_metric := [euclidean; cityblock].
Definition _criterions : list criterion :=
  [distance; inconsistent; maxclust; monocrit; maxclust_monocrit].
Definition _minits : list minit := [random; points].

(** One row of a linkage matrix: the two merged cluster ids, the merge
    distance and the number of points in the new cluster. *)
Record linkage_row := LinkageRow {
  row_left : nat;
  row_right : nat;
  row_dist : xreal;
  row_count : nat
}.

(** The scipy routines the plugin calls.  Condensed distance vectors and
    square matrices are lists of [xreal]; labels are integers. *)
Record Library := {
  fclusterdata : list point → Qc → criterion → linkage_method → linkage_metric →
                 lib_result (list Z);
  pdist : list point → linkage_metric → lib_result (list xreal);
  linkage : list xreal → linkage_method → linkage_metric → lib_result (list linkage_row);
  fcluster : list linkage_row → Qc → criterion → lib_result (list Z);
  kmeans2 : list point → Z → minit → lib_result (list point * list Z)
}.

(** ** numpy and builtins *)

(** [dict(zip(keys, values))]: a later pair overrides an earlier one. *)
Definition dict_zip (keys values : list Z) : gmap Z Z :=
  foldl (λ m kv, <[kv.1 := kv.2]> m) ∅ (zip keys values).

(** [labels[key]] *)
Definition dict_getitem (d : gmap Z Z) (key : Z) : M Z :=
  match d !! key with
  | Some v => ret v
  | None => raise KeyError
  end.

(** [np.unique(y)]: the sorted distinct values of [y]. *)
Fixpoint insert_unique (x : Z) (l : list Z) : list Z :=
  match l with
  | [] => [x]
  | y :: l' =>
      if decide (x < y) then x :: l
      else if decide (x = y) then l
      else y :: insert_unique x l'
  end.

Definition np_unique (y : list Z) : list Z := foldr insert_unique [] y.

Definition py_len {A} (l : list A) : Z := Z.of_nat (length l).

(** ** Distance matrices: [squareform] and the identifier mask *)

Abbreviation matrix := (list (list xreal)).

Definition entry (D : matrix) (i j : nat) : option xreal :=
  D !! i ≫= (.!! j).

Definition is_square (D : matrix) : bool :=
  forallb (λ row, Nat.eqb (length row) (length D)) D.

Definition is_symmetric (D : matrix) : bool :=
  forallb (λ i, forallb (λ j, bool_decide (entry D i j = entry D j i))
                        (seq 0 (length D)))
          (seq 0 (length D)).

Definition has_zero_diagonal (D : matrix) : bool :=
  forallb (λ i, bool_decide (entry D i i = Some (Finite 0%Qc))) (seq 0 (length D)).

(** Modelled from the spec: scipy's [squareform], vector to matrix.  The
    condensed form lists the strict upper triangle row by row; the square
    form of [n] points has a zero diagonal, the vector's first [n-1]
    entries as the rest of row 0 and of column 0, and the square form of
    the remaining entries below and to the right of them. *)
Fixpoint decompress (n : nat) (v : list xreal) : matrix :=
  match n with
  | O => []
  | S m =>
      let r := take m v in
      (Finite 0%Qc :: r) :: zip_with cons r (decompress m (drop m v))
  end.

(** Modelled from the spec: scipy's [squareform], matrix to vector: the
    entries to the right of the diagonal, row by row. *)
Definition recompress (D : matrix) : list xreal :=
  concat (imap (λ i row, drop (S i) row) D).

(** Modelled from the spec: scipy's [squareform(X)] on a one-dimensional
    [X], with its default checks.  The vector must have a length
    [d*(d-1)/2], found as [d = ceil(sqrt(2*len))]; the empty vector is the
    1 x 1 zero matrix. *)
Definition squareform_vector (v : list xreal) : lib_result matrix :=
  if Nat.eqb (length v) 0 then inl [[Finite 0%Qc]]
  else
    let d := Nat.sqrt_up (2 * length v) in
    if Nat.eqb (d * (d - 1)) (2 * length v) then inl (decompress d v)
    else inr "Incompatible vector size. It must be a binomial coefficient n choose 2 for some integer n >= 2.".

(** Modelled from the spec: scipy's [squareform(X)] on a two-dimensional
    [X], with its default checks.  The matrix must be square, symmetric
    and zero on the diagonal; a matrix of at most one row is the empty
    vector. *)
Definition squareform_matrix (D : matrix) : lib_result (list xreal) :=
  if negb (is_square D) then inr "The matrix argument must be square."
  else if negb (is_symmetric D) then inr "Distance matrix must be symmetric."
  else if negb (has_zero_diagonal D) then inr "Distance matrix diagonal must be zero."
  else if Nat.leb (length D) 1 then inl []
  else inl (recompress D).

(** [np.array([identifiers != val for val in identifiers])] *)
Definition identifier_mask (identifiers : list attr) : list (list bool) :=
  map (λ val, map (λ x, bool_decide (x ≠ val)) identifiers) identifiers.

Definition same_shape (D : matrix) (mask : list (list bool)) : bool :=
  Nat.eqb (length D) (length mask) &&
  forallb (λ rm, Nat.eqb (length rm.1) (length rm.2)) (zip D mask).

(** [distances[mask] = value]: numpy assignment through a boolean index of
    the same shape. *)
Definition mask_assign (D : matrix) (mask : list (list bool)) (value : xreal) : M matrix :=
  if same_shape D mask
  then ret (zip_with (zip_with (λ d (b : bool), if b then value else d)) D mask)
  else raise IndexError.

(** Lines 561-566 of the source: the constrained condensed distances. *)
Definition constrained_distances (lib : Library) (pts : list point)
    (identifiers : list attr) (metric : linkage_metric) : M (list xreal) :=
  let* condensed := call "pdist" (pdist lib pts metric) in
  let* distances := call "squareform" (squareform_vector condensed) in
  let increase_offseets := identifier_mask identifiers in
  let* distances := mask_assign distances increase_offseets PosInf in
  call "squareform" (squareform_matrix distances).

(** ** The three algorithms *)

Record hierarchical_params := HierarchicalParams {
  TOLERANCE : Qc;
  LABEL_FIELD : string;
  LINKAGE_METHOD : nat;
  LINKAGE_METRIC : nat;
  CRITERION : nat
}.

Record kmeans_params := KMeansParams {
  K : Qc;
  MINIT : nat;
  KM_LABEL_FIELD : string
}.

Record by_identifier_params := ByIdentifierParams {
  BASE : hierarchical_params;
  IDENTIFIER_FIELD : string
}.

(** The check at lines 144-147 and 505-508. *)
Definition check_tolerance (tolerance : Qc) : M unit :=
  if decide (tolerance ≤ 0)%Qc then
    setInfo MsgToleranceZero true >>>
    raise (ValueError "Tolerance <= zero")
  else ret tt.

(** The check at lines 159-172 and 518-531. *)
Definition check_point_limit (cfg : ProcessingConfig) (layer : vector_layer) : M Z :=
  let feature_count := selectedFeatureCount layer in
  let point_limit := POINT_LIMIT cfg in
  if decide (feature_count > point_limit) then
    setInfo (MsgPointLimit feature_count point_limit) true >>>
    raise (ValueError "Feature Count > point limit")
  else ret feature_count.

(** [progress.setPercentage(base + i * span / count)] *)
Definition report (base : Z) (i : Z) (span : Z) (count : Z) : M unit :=
  let* q := py_div (Z2Qc i * Z2Qc span)%Qc (Z2Qc count) in
  setPercentage (Z2Qc base + q)%Qc.

(** The loop that reads the geometries and the feature ids. *)
Definition extract_points (span : Z) (feature_count : Z) (layer : vector_layer)
    : M (list point * list Z) :=
  for_enumerate 1 (features layer) ([], [])
    (λ i f '(pts, feature_ids),
       report 0 i span feature_count >>>
       ret (pts ++ [f_geometry f], feature_ids ++ [f_id f])).

(** The loop that writes every feature with its label appended. *)
Definition write_labelled (base span : Z) (feature_count : Z) (layer : vector_layer)
    (labels : gmap Z Z) : M unit :=
  for_enumerate 1 (features layer) tt
    (λ i f _,
       report base i span feature_count >>>
       let* label := dict_getitem labels (f_id f) in
       addFeature (OutFeature (f_geometry f) (f_attributes f ++ [AInt label]))).

(** Lines 237-241, 437-441 and 614-618. *)
Definition report_num_clusters (y : list Z) : M unit :=
  let num_clusters := py_len (np_unique y) in
  setOutputValue num_clusters >>>
  setInfo (MsgClustersFormed num_clusters) false >>>
  setPercentage (Z2Qc 100).

(** [HierarchicalClustering.processAlgorithm] *)
Definition HierarchicalClustering_processAlgorithm (lib : Library)
    (cfg : ProcessingConfig) (params : hierarchical_params) (layer : vector_layer) : M unit :=
  let tolerance := TOLERANCE params in
  let* method := py_index _linkage_methods (LINKAGE_METHOD params) in
  let* metric := py_index _linkage_metrics (LINKAGE_METRIC params) in
  let* criterion := py_index _criterions (CRITERION params) in
  setPercentage (Z2Qc 0) >>>
  check_tolerance tolerance >>>
  let* feature_count := check_point_limit cfg layer in
  setInfo MsgExtracting false >>>
  let* (pts, feature_ids) := extract_points 30 feature_count layer in
  setInfo MsgBuildingHierarchical false >>>
  let* y := call "fclusterdata" (fclusterdata lib pts tolerance criterion method metric) in
  setPercentage (Z2Qc 60) >>>
  let labels := dict_zip feature_ids y in
  setInfo MsgWriting false >>>
  write_labelled 60 30 feature_count layer labels >>>
  report_num_clusters y.

(** [KMeansClustering.processAlgorithm] *)
Definition KMeansClustering_processAlgorithm (lib : Library)
    (cfg : ProcessingConfig) (params : kmeans_params) (layer : vector_layer) : M unit :=
  let k := py_int (K params) in
  let* minit := py_index _minits (MINIT params) in
  setPercentage (Z2Qc 0) >>>
  (if decide (Z2Qc k ≠ K params) then
     setInfo MsgKNotWhole true >>>
     raise (ValueError "K is not an integer")
   else ret tt) >>>
  setInfo MsgExtracting false >>>
  let feature_count := selectedFeatureCount layer in
  let* (pts, feature_ids) := extract_points 25 feature_count layer in
  setInfo MsgBuildingKMeans false >>>
  let* (centroids, y) := call "kmeans2" (kmeans2 lib pts k minit) in
  setPercentage (Z2Qc 50) >>>
  let labels := dict_zip feature_ids y in
  setInfo MsgWriting false >>>
  write_labelled 50 25 feature_count layer labels >>>
  setInfo MsgWritingCentroids false >>>
  for_enumerate 0 centroids tt
    (λ i centroid _,
       report 90 i 10 k >>>
       addCentroid (OutFeature centroid [AInt i])) >>>
  report_num_clusters y.

(** [HierarchicalClusteringByIdentifier.processAlgorithm].  The values
    read under the identifier field are compared as they are:
    [np.array(identifiers)] (line 555) keeps them apart or equal as
    Python does when they are of one type, as the values of one field of
    a layer are. *)
Definition HierarchicalClusteringByIdentifier_processAlgorithm (lib : Library)
    (cfg : ProcessingConfig) (params : by_identifier_params) (layer : vector_layer) : M unit :=
  let tolerance := TOLERANCE (BASE params) in
  let* method := py_index _linkage_methods (LINKAGE_METHOD (BASE params)) in
  let* metric := py_index _linkage_metrics (LINKAGE_METRIC (BASE params)) in
  let* criterion := py_index _criterions (CRITERION (BASE params)) in
  let identifier_field := IDENTIFIER_FIELD params in
  setPercentage (Z2Qc 0) >>>
  check_tolerance tolerance >>>
  let* feature_count := check_point_limit cfg layer in
  setInfo MsgExtracting false >>>
  let* (pts, feature_ids, identifiers) :=
    for_enumerate 1 (features layer) ([], [], [])
      (λ i f '(pts, feature_ids, identifiers),
         report 0 i 20 feature_count >>>
         let* ident := feature_getitem layer f identifier_field in
         ret (pts ++ [f_geometry f], feature_ids ++ [f_id f], identifiers ++ [ident])) in
  setInfo MsgBuildingHierarchical false >>>
  let* distances := constrained_distances lib pts identifiers metric in
  setPercentage (Z2Qc 40) >>>
  let* links := call "linkage" (linkage lib distances method metric) in
  let* y := call "fcluster" (fcluster lib links tolerance criterion) in
  setPercentage (Z2Qc 60) >>>
  let labels := dict_zip feature_ids y in
  setInfo MsgWriting false >>>
  write_labelled 60 30 feature_count layer labels >>>
  report_num_clusters y.

Inductive operation :=
  | Hierarchical (params : hierarchical_params)
  | KMeans (params : kmeans_params)
  | ByIdentifier (params : by_identifier_params).

Definition processAlgorithm (lib : Library) (cfg : ProcessingConfig)
    (op : operation) (layer : vector_layer) : M unit :=
  match op with
  | Hierarchical params => HierarchicalClustering_processAlgorithm lib cfg params layer
  | KMeans params => KMeansClustering_processAlgorithm lib cfg params layer
  | ByIdentifier params => HierarchicalClusteringByIdentifier_processAlgorithm lib cfg params layer
  end.

(** A run starts with nothing emitted. *)
Definition run (lib : Library) (cfg : ProcessingConfig) (op : operation)
    (layer : vector_layer) : outputs * result unit :=
  processAlgorithm lib cfg op layer no_outputs.

(** The label attribute of the written features, in writing order. *)
Definition label_of (f : out_feature) : option attr := last (out_attributes f).
Definition written_labels (s : outputs) : list (option attr) := label_of <$> written s.

(** ** A reference library

    An exact-arithmetic instance of [Library] for concrete runs, after the
    scipy routines that the plugin calls with their default arguments:
    [scipy.spatial.distance.pdist], [scipy.cluster.hierarchy.linkage],
    [fcluster] and [fclusterdata], and [scipy.cluster.vq.kmeans2]
    ([iter=10], [missing='warn']).  It covers what rational arithmetic
    can express: the cityblock metric, single linkage, the [distance]
    criterion, and the passes of [kmeans2] from a given first code book.
    A call outside this fragment is answered with an error, so the
    instance says nothing about such a call.  The random draws of
    [kmeans2] are an explicit [rng].  The linkage takes [+inf] as a
    distance like any other, as the plugin expects of it. *)
Module Reference.

Definition xreal_min (a b : xreal) : xreal := if xreal_leb a b then a else b.
Definition xreal_max (a b : xreal) : xreal := if xreal_leb a b then b else a.

Definition Qc_abs (x : Qc) : Qc := if decide (0 ≤ x)%Qc then x else (- x)%Qc.

Definition cityblock_dist (p q : point) : Qc :=
  (Qc_abs (p.1 - q.1) + Qc_abs (p.2 - q.2))%Qc.

(** [pdist(X, 'cityblock')]: the distances of the pairs [i < j], row by row. *)
Fixpoint condensed (pts : list point) : list xreal :=
  match pts with
  | [] => []
  | p :: rest => map (λ q, Finite (cityblock_dist p q)) rest ++ condensed rest
  end.

Definition pdist (pts : list point) (metric : linkage_metric) : lib_result (list xreal) :=
  match pts, metric with
  | [], _ => inr "A 2-dimensional array must be passed."
  | _, cityblock => inl (condensed pts)
  | _, euclidean => inr "outside the exact reference instance: euclidean"
  end.

(** *** Single linkage

    The agglomeration as the specification describes it: start from
    singletons, merge the closest pair of live clusters ([n - 1] times,
    the first pair in index order on ties), record the two ids, the
    distance and the size, and number the new cluster [n], [n + 1], ... *)

(** A live cluster: its id and its points. *)
Abbreviation cluster := (nat * list nat)%type.

Definition point_dist (D : matrix) (i j : nat) : xreal :=
  default PosInf (entry D i j).

(** Single linkage: the least distance between a point of [a] and a
    point of [b]. *)
Definition single_dist (D : matrix) (a b : cluster) : xreal :=
  foldr xreal_min PosInf
    (i ← a.2; j ← b.2; [point_dist D i j]).

(** The positions [(i, j)], [i < j < n], in lexicographic order. *)
Definition index_pairs (n : nat) : list (nat * nat) :=
  i ← seq 0 n; j ← seq (S i) (n - S i); [(i, j)].

Definition pair_dist (D : matrix) (live : list cluster) (ij : nat * nat) : xreal :=
  match live !! ij.1, live !! ij.2 with
  | Some a, Some b => single_dist D a b
  | _, _ => PosInf
  end.

(** The closest pair of live clusters; the first one on ties. *)
Definition best_pair (D : matrix) (live : list cluster) : option (nat * nat) :=
  foldl (λ best ij,
           match best with
           | None => Some ij
           | Some b => if xreal_ltb (pair_dist D live ij) (pair_dist D live b)
                       then Some ij else best
           end)
        None (index_pairs (length live)).

Definition merge_step (D : matrix) (next_id : nat) (live : list cluster)
    : option (linkage_row * list cluster) :=
  match best_pair D live with
  | Some (i, j) =>
      match live !! i, live !! j with
      | Some a, Some b =>
          let c := (next_id, a.2 ++ b.2) in
          Some (LinkageRow (a.1 `min` b.1) (a.1 `max` b.1) (single_dist D a b)
                           (length c.2),
                delete i (delete j live) ++ [c])
      | _, _ => None
      end
  | None => None
  end.

Fixpoint agglomerate (D : matrix) (merges : nat) (next_id : nat) (live : list cluster)
    : list linkage_row :=
  match merges with
  | O => []
  | S merges' =>
      match merge_step D next_id live with
      | Some (row, live') => row :: agglomerate D merges' (S next_id) live'
      | None => []
      end
  end.

Definition linkage (y : list xreal) (method : linkage_method) (metric : linkage_metric)
    : lib_result (list linkage_row) :=
  match method with
  | single =>
      if Nat.eqb (length y) 0 then inr "The number of observations cannot be determined on an empty distance matrix."
      else
        match squareform_vector y with
        | inl D =>
            let n := length D in
            inl (agglomerate D (n - 1) n (map (λ i, (i, [i])) (seq 0 n)))
        | inr msg => inr msg
        end
  | _ => inr "outside the exact reference instance: linkage method"
  end.

(** *** Flat clusters under the [distance] criterion *)

(** The largest merge distance at or below every node of the tree. *)
Definition max_dists (n : nat) (links : list linkage_row) : list xreal :=
  foldl (λ md row,
           let below c := if decide (c < n)%nat then Finite 0%Qc
                          else default (Finite 0%Qc) (md !! (c - n)%nat) in
           md ++ [xreal_max (row_dist row)
                    (xreal_max (below (row_left row)) (below (row_right row)))])
        [] links.

(** The labelling walk of scipy's [fcluster], from the root: a node whose
    criterion is within the cutoff starts a cluster (the next number)
    unless it lies inside one; the subtrees of a node are walked, left
    then right, before its own leaves are numbered; a leaf outside every
    cluster is a cluster of its own.  The numbers follow this walk, not
    the order of the points. *)
Fixpoint label_walk (depth n : nat) (links : list linkage_row) (MC : list xreal)
    (cutoff : xreal) (node : nat) (inside : bool) (st : Z * list Z) : Z * list Z :=
  match depth with
  | O => st
  | S depth' =>
      match links !! (node - n)%nat, MC !! (node - n)%nat with
      | Some row, Some mc =>
          let found := negb inside && xreal_leb mc cutoff in
          let inside' := inside || found in
          let st := if found then (st.1 + 1, st.2) else st in
          let walk child st :=
            if decide (n ≤ child)%nat
            then label_walk depth' n links MC cutoff child inside' st else st in
          let leaf child (st : Z * list Z) :=
            if decide (child < n)%nat
            then let c := if inside' then st.1 else st.1 + 1 in
                 (c, <[child := c]> st.2)
            else st in
          leaf (row_right row) (leaf (row_left row)
            (walk (row_right row) (walk (row_left row) st)))
      | _, _ => st
      end
  end.

Definition fcluster (links : list linkage_row) (t : Qc) (crit : criterion)
    : lib_result (list Z) :=
  match crit with
  | distance =>
      match links with
      | [] => inr "Linkage must be computed on at least two observations."
      | _ =>
          let n := S (length links) in
          let MD := max_dists n links in
          inl (label_walk n n links MD (Finite t) (2 * n - 2)%nat false
                 (0, replicate n 0)).2
      end
  | _ => inr "outside the exact reference instance: criterion"
  end.

Definition fclusterdata (pts : list point) (t : Qc) (crit : criterion)
    (method : linkage_method) (metric : linkage_metric) : lib_result (list Z) :=
  match pdist pts metric with
  | inl y =>
      match linkage y method metric with
      | inl links => fcluster links t crit
      | inr msg => inr msg
      end
  | inr msg => inr msg
  end.

(** *** [kmeans2] *)

(** The random draws of [kmeans2]: [np.random.permutation(n)] for
    [minit='points'], and the [k] Gaussian samples around the data that
    [minit='random'] takes as the first code book (the draw fails when
    the covariance of the data has no Cholesky factor). *)
Record rng := Rng {
  permutation : nat → list nat;
  krandinit : list point → nat → lib_result (list point)
}.

Definition sqdist (p q : point) : Qc :=
  ((p.1 - q.1) * (p.1 - q.1) + (p.2 - q.2) * (p.2 - q.2))%Qc.

(** [vq]: the index of the nearest code, the first one on ties. *)
Fixpoint nearest_from (p : point) (code : list point) (i : nat) (best : nat * Qc)
    : nat * Qc :=
  match code with
  | [] => best
  | c :: code' =>
      let d := sqdist p c in
      nearest_from p code' (S i)
        (if decide (d < best.2)%Qc then (i, d) else best)
  end.

Definition nearest (code : list point) (p : point) : nat :=
  match code with
  | [] => 0%nat
  | c :: code' => (nearest_from p code' 1 (0%nat, sqdist p c)).1
  end.

Definition vq (data code : list point) : list nat := map (nearest code) data.

Definition Qc_sum (l : list Qc) : Qc := foldr Qcplus 0%Qc l.

(** [update_cluster_means]: the mean of the observations carrying label
    [c], or [None] when the cluster has no member. *)
Definition cluster_mean (data : list point) (label : list nat) (c : nat) : option point :=
  let members := (filter (λ pl, pl.2 = c) (zip data label)).*1 in
  match members with
  | [] => None
  | _ =>
      let m := Z2Qc (Z.of_nat (length members)) in
      Some ((Qc_sum members.*1 / m)%Qc, (Qc_sum members.*2 / m)%Qc)
  end.

(** One pass of the loop of [_kmeans2] over a code book of [nc] rows; a
    cluster without members keeps its previous code (the default
    [missing='warn']). *)
Definition kmeans_pass (data code : list point) : list point * list nat :=
  let label := vq data code in
  let new_code :=
    imap (λ c old, default old (cluster_mean data label c)) code in
  (new_code, label).

Fixpoint kmeans_loop (niter : nat) (data code : list point)
    (label : list nat) : list point * list nat :=
  match niter with
  | O => (code, label)
  | S niter' =>
      let '(code', label') := kmeans_pass data code in
      kmeans_loop niter' data code' label'
  end.

(** [kmeans2(data, k, minit=minit)] with the defaults [iter=10],
    [missing='warn']. *)
Definition kmeans2 (r : rng) (data : list point) (k : Z) (mi : minit)
    : lib_result (list point * list Z) :=
  if decide (data = []) then inr "Input has 0 items."
  else if decide (k < 1) then inr "kmeans2 for 0 clusters ?"
  else
    let nc := Z.to_nat k in
    let init :=
      match mi with
      | random => krandinit r data nc
      | points => inl (omap (λ i, data !! i) (take nc (permutation r (length data))))
      end in
    match init with
    | inl code =>
        if decide (length code = nc) then
          let '(code', label) := kmeans_loop 10 data code [] in
          inl (code', Z.of_nat <$> label)
        else inr "code book and number of clusters differ"
    | inr msg => inr msg
    end.

Definition scipy (r : rng) : Library :=
  Build_Library fclusterdata pdist linkage fcluster (kmeans2 r).

End Reference.

(** ** Notions used in the statements *)

(** The number of pairs [i < j < n]: the length of a condensed matrix. *)
Fixpoint triangle (n : nat) : nat :=
  match n with
  | O => O
  | S m => (m + triangle m)%nat
  end.

Definition is_nxn (n : nat) (D : matrix) : Prop :=
  length D = n ∧ Forall (λ row, length row = n) D.

Definition symmetric (n : nat) (D : matrix) : Prop :=
  ∀ i j, (i < n)%nat → (j < n)%nat → entry D i j = entry D j i.

Definition zero_diagonal (n : nat) (D : matrix) : Prop :=
  ∀ i, (i < n)%nat → entry D i i = Some (Finite 0%Qc).

(** What a run has emitted, the progress messages apart. *)
Definition emitted (s : outputs) : list out_feature * list out_feature * option Z :=
  (written s, centroid_written s, num_clusters_out s).

(** The shape of what the library returns: one distance per pair of
    points, one linkage row per merge, one label per point, and for
    [kmeans2] at least one cluster and labels that index the [k]
    centroids. *)
Record LibraryContract (lib : Library) : Prop := {
  fclusterdata_labels : ∀ pts t crit method metric y,
    fclusterdata lib pts t crit method metric = inl y → length y = length pts;
  pdist_length : ∀ pts metric v,
    pdist lib pts metric = inl v → length v = triangle (length pts);
  linkage_rows : ∀ v method metric links,
    linkage lib v method metric = inl links → length v = triangle (S (length links));
  fcluster_labels : ∀ links t crit y,
    fcluster lib links t crit = inl y → length y = S (length links);
  kmeans2_labels : ∀ pts k mi centroids y,
    kmeans2 lib pts k mi = inl (centroids, y) →
    length y = length pts ∧ 0 < k ∧ Forall (λ l, 0 ≤ l < k) y
}.

(** The selections of an operation index the class-level lists. *)
Definition valid_selections (op : operation) : Prop :=
  match op with
  | Hierarchical p =>
      (LINKAGE_METHOD p < 7)%nat ∧ (LINKAGE_METRIC p < 2)%nat ∧ (CRITERION p < 5)%nat
  | KMeans p => (MINIT p < 2)%nat
  | ByIdentifier p =>
      (LINKAGE_METHOD (BASE p) < 7)%nat ∧ (LINKAGE_METRIC (BASE p) < 2)%nat ∧
      (CRITERION (BASE p) < 5)%nat
  end.

(** The feature ids of a layer are pairwise distinct. *)
Definition distinct_ids (layer : vector_layer) : Prop :=
  NoDup (f_id <$> features layer).

(** The number of distinct labels among the written features. *)
Definition distinct_labels (s : outputs) : nat :=
  length (remove_dups (written_labels s)).



(** The integer labels carried by the written features. *)
Definition int_labels (s : outputs) : list Z :=
  omap (λ a, match a with Some (AInt z) => Some z | _ => None end) (written_labels s).

(** The threshold condition of the flat-cluster extractor as the
    specification words it: a non-positive threshold under [distance] or
    [inconsistent], or a [maxclust] target above [n] or below 1. *)
Definition spec_threshold_error (crit : criterion) (t : Qc) (n : nat) : Prop :=
  match crit with
  | distance | inconsistent => (t ≤ 0)%Qc
  | maxclust => (Z2Qc (Z.of_nat n) < t)%Qc ∨ (t < 1)%Qc
  | monocrit | maxclust_monocrit => False
  end.

(** The k-means precondition as the specification words it. *)
Definition spec_kmeans_invalid (k : Z) (n : nat) : Prop :=
  k < 2 ∨ Z.of_nat n < k ∨ (n < 2)%nat.

(** A feature as [write_labelled] writes it under the labels [labels]. *)
Definition labelled (labels : gmap Z Z) (f : feature) : out_feature :=
  OutFeature (f_geometry f) (f_attributes f ++ [AInt (default 0 (labels !! f_id f))]).

(** A feature written with the label [l]. *)
Definition with_label (f : feature) (l : Z) : out_feature :=
  OutFeature (f_geometry f) (f_attributes f ++ [AInt l]).

(** How the writing phase of a run over the labels [y] ends: every
    feature is written with its label and the number of clusters is set,
    or the phase stops at a feature whose id has no label. *)
Definition write_outcome (layer : vector_layer) (y : list Z)
    (s : outputs) (r : result unit) : Prop :=
  let labels := dict_zip (f_id <$> features layer) y in
  (r = Ok tt ∧
   written s = labelled labels <$> features layer ∧
   Forall (λ f, is_Some (labels !! f_id f)) (features layer) ∧
   num_clusters_out s = Some (py_len (np_unique y))) ∨
  (r = Raise KeyError ∧
   Exists (λ f, labels !! f_id f = None) (features layer)).

(** The tolerance of a hierarchical operation. *)
Definition hierarchical_tolerance (op : operation) : option Qc :=
  match op with
  | Hierarchical p => Some (TOLERANCE p)
  | ByIdentifier p => Some (TOLERANCE (BASE p))
  | KMeans _ => None
  end.

(** [y] is what the library returned to the operation as the labels of
    the points of the layer. *)
Definition library_returned (lib : Library) (op : operation) (layer : vector_layer)
    (y : list Z) : Prop :=
  match op with
  | Hierarchical p =>
      ∃ method metric crit,
        _linkage_methods !! LINKAGE_METHOD p = Some method ∧
        _linkage_metrics !! LINKAGE_METRIC p = Some metric ∧
        _criterions !! CRITERION p = Some crit ∧
        fclusterdata lib (f_geometry <$> features layer) (TOLERANCE p) crit method metric
          = inl y
  | KMeans p =>
      ∃ mi centroids,
        _minits !! MINIT p = Some mi ∧
        kmeans2 lib (f_geometry <$> features layer) (py_int (K p)) mi = inl (centroids, y)
  | ByIdentifier p =>
      ∃ method metric crit distances links,
        _linkage_methods !! LINKAGE_METHOD (BASE p) = Some method ∧
        _linkage_metrics !! LINKAGE_METRIC (BASE p) = Some metric ∧
        _criterions !! CRITERION (BASE p) = Some crit ∧
        linkage lib distances method metric = inl links ∧
        fcluster lib links (TOLERANCE (BASE p)) crit = inl y
  end.

(** *** Concrete layers and draws *)

Definition P (x y : Z) : point := (Z2Qc x, Z2Qc y).

(** Three selected points, the first one apart from the other two. *)
Definition layer_apart : vector_layer :=
  VectorLayer 3
    [Feature 10 (P 0 0) [AStr "A"]; Feature 11 (P 5 0) [AStr "A"];
     Feature 12 (P 5 1) [AStr "B"]]
    ["ident"].

(** Three selected points at the same place. *)
Definition layer_coincident : vector_layer :=
  VectorLayer 3
    [Feature 1 (P 0 0) [AStr "A"]; Feature 2 (P 0 0) [AStr "A"];
     Feature 3 (P 0 0) [AStr "B"]]
    ["ident"].

(** Four selected points in two close pairs (scenario A of the
    specification). *)
Definition layer_pairs : vector_layer :=
  VectorLayer 4
    [Feature 1 (P 0 0) [AInt 7]; Feature 2 (P 0 1) [AInt 7];
     Feature 3 (P 10 0) [AInt 8]; Feature 4 (P 10 1) [AInt 8]]
    ["ident"].

(** Three selected points on a line, the last one of another group
    (scenario C of the specification). *)
Definition layer_line : vector_layer :=
  VectorLayer 3
    [Feature 1 (P 0 0) [AStr "A"]; Feature 2 (P 0 1) [AStr "A"];
     Feature 3 (P 0 2) [AStr "B"]]
    ["ident"].

(** A draw: the identity permutation, and a first code book of [k] points
    on the diagonal. *)
Definition draw : Reference.rng :=
  Reference.Rng (λ n, seq 0 n)
                (λ _ k, inl ((λ i, P (Z.of_nat i) (Z.of_nat i)) <$> seq 0 k)).

Definition scipy_draw : Library := Reference.scipy draw.

(** ** Notions for the further properties *)

(** A progress event that tells the user of an error. *)
Definition is_error_event (ev : progress_event) : bool :=
  match ev with
  | SetInfo _ true => true
  | _ => false
  end.

Definition quiet_events (evs : list progress_event) : Prop :=
  Forall (λ ev, is_error_event ev = false) evs.

(** The message that goes with an exception of the plugin's own checks. *)
Definition announces (m : message) (e : exn) : Prop :=
  match m, e with
  | MsgToleranceZero, ValueError msg => msg = "Tolerance <= zero"
  | MsgPointLimit _ _, ValueError msg => msg = "Feature Count > point limit"
  | MsgKNotWhole, ValueError msg => msg = "K is not an integer"
  | _, _ => False
  end.

(** The events [evs] (newest first) fit the result [r]: a [ValueError]
    comes right after its error message, the only one; any other result
    comes without an error message. *)
Definition reported {A} (evs : list progress_event) (r : result A) : Prop :=
  match r with
  | Raise (ValueError msg) =>
      ∃ m rest, evs = SetInfo m true :: rest ∧ announces m (ValueError msg) ∧
                quiet_events rest
  | _ => quiet_events evs
  end.

Definition reports_errors {A} (m : M A) : Prop :=
  ∀ s s' r, m s = (s', r) →
    ∃ evs, progress_log s' = evs ++ progress_log s ∧ reported evs r.

(** [m] leaves the NUM_CLUSTERS output as it is. *)
Definition keeps_count {A} (m : M A) : Prop :=
  ∀ s s' r, m s = (s', r) → num_clusters_out s' = num_clusters_out s.

(** [m] sets the NUM_CLUSTERS output if and only if it returns, and its
    last two progress events are then the message with that count and
    100 percent. *)
Definition closes_with_count (m : M unit) : Prop :=
  ∀ s s' r, m s = (s', r) → num_clusters_out s = None →
    match r with
    | Ok _ =>
        ∃ n rest,
          num_clusters_out s' = Some n ∧
          progress_log s' =
            SetPercentage (Z2Qc 100) :: SetInfo (MsgClustersFormed n) false :: rest
    | Raise _ => num_clusters_out s' = None
    end.

(** [m] always raises [e], having emitted nothing. *)
Definition fails_with {A} (m : M A) (e : exn) : Prop :=
  ∀ s s' r, m s = (s', r) → r = Raise e ∧ emitted s' = emitted s.

(** [m] always returns a value that satisfies [P], having emitted
    nothing. *)
Definition returns_quietly {A} (m : M A) (P : A → Prop) : Prop :=
  ∀ s s' r, m s = (s', r) → emitted s' = emitted s ∧ ∃ a, r = Ok a ∧ P a.

(** The checks of an operation on its own parameters pass. *)
Definition passes_checks (cfg : ProcessingConfig) (op : operation)
    (layer : vector_layer) : Prop :=
  match op with
  | Hierarchical p =>
      (0 < TOLERANCE p)%Qc ∧ selectedFeatureCount layer ≤ POINT_LIMIT cfg
  | KMeans p => Z2Qc (py_int (K p)) = K p
  | ByIdentifier p =>
      (0 < TOLERANCE (BASE p))%Qc ∧ selectedFeatureCount layer ≤ POINT_LIMIT cfg
  end.

(** The value of [f[name]], when the layer has the field and the
    feature the attribute. *)
Definition identifier_of (layer : vector_layer) (name : string) (f : feature)
    : option attr :=
  match list_find (λ n, n = name) (field_names layer) with
  | Some (i, _) => f_attributes f !! i
  | None => None
  end.

(** The pairs [(l[i], l[j])], [i < j], in the order of a condensed
    distance matrix. *)
Fixpoint pairs_of {A} (l : list A) : list (A * A) :=
  match l with
  | [] => []
  | a :: rest => map (pair a) rest ++ pairs_of rest
  end.

(** A condensed distance matrix in which the distances of the pairs with
    different identifiers are [+inf]. *)
Definition constrain (v : list xreal) (identifiers : list attr) : list xreal :=
  zip_with (λ d (ab : attr * attr), if decide (ab.1 = ab.2) then d else PosInf)
           v (pairs_of identifiers).


(** The loop that reads the features runs through: the selected count
    is not zero (or there is no feature to read), and for the algorithm
    by identifier every feature has a value under the identifier field. *)
Definition extractable (op : operation) (layer : vector_layer) : Prop :=
  (selectedFeatureCount layer ≠ 0 ∨ features layer = []) ∧
  match op with
  | ByIdentifier p =>
      Forall (λ f, is_Some (identifier_of layer (IDENTIFIER_FIELD p) f)) (features layer)
  | _ => True
  end.

(** The first library call of the operation on the layer raises [msg]
    inside [routine]. *)
Definition library_refuses (lib : Library) (op : operation) (layer : vector_layer)
    (routine msg : string) : Prop :=
  match op with
  | Hierarchical p =>
      ∃ method metric crit,
        _linkage_methods !! LINKAGE_METHOD p = Some method ∧
        _linkage_metrics !! LINKAGE_METRIC p = Some metric ∧
        _criterions !! CRITERION p = Some crit ∧
        routine = "fclusterdata" ∧
        fclusterdata lib (f_geometry <$> features layer) (TOLERANCE p) crit method metric
          = inr msg
  | KMeans p =>
      ∃ mi,
        _minits !! MINIT p = Some mi ∧
        routine = "kmeans2" ∧
        kmeans2 lib (f_geometry <$> features layer) (py_int (K p)) mi = inr msg
  | ByIdentifier p =>
      ∃ metric,
        _linkage_metrics !! LINKAGE_METRIC (BASE p) = Some metric ∧
        routine = "pdist" ∧
        pdist lib (f_geometry <$> features layer) metric = inr msg
  end.

(** The percentages handed to [progress.setPercentage], oldest first. *)
Definition percent_of (ev : progress_event) : option Qc :=
  match ev with
  | SetPercentage p => Some p
  | SetInfo _ _ => None
  end.

Definition percentages (s : outputs) : list Qc :=
  reverse (omap percent_of (progress_log s)).

(** [lo <= p1 <= p2 <= ... <= pn <= hi] *)
Fixpoint ascending (lo hi : Qc) (ps : list Qc) : Prop :=
  match ps with
  | [] => (lo ≤ hi)%Qc
  | p :: ps' => (lo ≤ p)%Qc ∧ ascending p hi ps'
  end.

(** The percentages that [m] reports ascend from [lo] to [hi]. *)
Definition climbs {A} (lo hi : Qc) (m : M A) : Prop :=
  ∀ s s' r, m s = (s', r) →
    ∃ ps, percentages s' = percentages s ++ ps ∧ ascending lo hi ps.

(** [m] reports no percentage. *)
Definition silent {A} (m : M A) : Prop :=
  ∀ s s' r, m s = (s', r) → percentages s' = percentages s.

(** The percentage that [report base i span count] hands over. *)
Definition percent_at (base span count i : Z) : Qc :=
  (Z2Qc base + Z2Qc i * Z2Qc span / Z2Qc count)%Qc.

(** [kmeans2] returns at most [k] centroids. *)
Definition centroids_bounded (lib : Library) : Prop :=
  ∀ pts k mi centroids y,
    kmeans2 lib pts k mi = inl (centroids, y) → Z.of_nat (length centroids) ≤ k.



(** Three features of which none is selected. *)
Definition layer_unselected : vector_layer :=
  VectorLayer 0
    [Feature 10 (P 0 0) [AStr "A"]; Feature 11 (P 5 0) [AStr "A"];
     Feature 12 (P 5 1) [AStr "B"]]
    ["ident"].

(** Three selected features, two of them under the same id. *)
Definition layer_shared_id : vector_layer :=
  VectorLayer 3
    [Feature 7 (P 0 0) [AStr "A"]; Feature 8 (P 5 0) [AStr "A"];
     Feature 7 (P 5 1) [AStr "B"]]
    ["ident"].

(** * Properties *)

(** ** Condensed and square distance matrices *)

Section squareform.

Implicit Types (v r : list xreal) (D : matrix) (n i j : nat).

Lemma triangle_double n : (2 * triangle n = n * (n - 1))%nat.
Proof.
  induction n as [|n IH]; simpl; [done|].
  destruct n; simpl in *; lia.
Qed.

Lemma triangle_lt n m : (1 ≤ n)%nat → (n < m)%nat → (triangle n < triangle m)%nat.
Proof.
  intros Hn Hm. induction Hm as [|m Hm IH]; simpl; lia.
Qed.

Lemma triangle_inj n m :
  (1 ≤ n)%nat → (1 ≤ m)%nat → triangle n = triangle m → n = m.
Proof.
  intros Hn Hm Heq.
  destruct (Nat.lt_trichotomy n m) as [Hlt|[->|Hlt]]; [|done|].
  - pose proof (triangle_lt n m Hn Hlt). lia.
  - pose proof (triangle_lt m n Hm Hlt). lia.
Qed.

Lemma sqrt_up_triangle n : (2 ≤ n)%nat → Nat.sqrt_up (2 * triangle n) = n.
Proof.
  intros Hn. rewrite triangle_double.
  apply Nat.sqrt_up_unique; [lia|].
  destruct n as [|[|n]]; simpl; lia.
Qed.

Lemma entry_tail rest i j : entry (tail <$> rest) i j = entry rest i (S j).
Proof.
  unfold entry. rewrite list_lookup_fmap.
  destruct (rest !! i) as [row|]; simpl; [|done].
  by destruct row.
Qed.

Lemma Forall_zip_with_cons (Q : list xreal → Prop) r D :
  Forall (λ row, ∀ x, Q (x :: row)) D → Forall Q (zip_with cons r D).
Proof.
  intros HD. revert r. induction HD as [|row D Hrow _ IH]; intros [|x r]; simpl; auto.
Qed.

Lemma decompress_nxn n v : (triangle n ≤ length v)%nat → is_nxn n (decompress n v).
Proof.
  revert v. induction n as [|n IH]; intros v Hv; [by split|].
  simpl in Hv. destruct (IH (drop n v)) as [Hlen Hrows].
  { rewrite length_drop. lia. }
  split; simpl.
  - rewrite length_zip_with, Hlen, length_take. lia.
  - constructor.
    + simpl. rewrite length_take. lia.
    + apply Forall_zip_with_cons.
      eapply Forall_impl; [exact Hrows|]. simpl. intros row Hrow x. by rewrite Hrow.
Qed.

Lemma recompress_cons row rest :
  recompress (row :: rest) = tail row ++ recompress (tail <$> rest).
Proof.
  unfold recompress. rewrite imap_cons. simpl. f_equal.
  f_equal. rewrite imap_fmap. apply imap_ext.
  intros i x _. simpl. by destruct x.
Qed.

Lemma tail_zip_with_cons r D :
  (length D ≤ length r)%nat → tail <$> zip_with cons r D = D.
Proof.
  revert r. induction D as [|row D IH]; intros [|x r] Hlen; simpl in *; try done; try lia.
  f_equal. apply IH. lia.
Qed.

Lemma recompress_decompress n v :
  length v = triangle n → recompress (decompress n v) = v.
Proof.
  revert v. induction n as [|n IH]; intros v Hv; simpl in *.
  { by destruct v. }
  rewrite recompress_cons. simpl.
  destruct (decompress_nxn n (drop n v)) as [Hlen _].
  { rewrite length_drop. lia. }
  rewrite tail_zip_with_cons by (rewrite Hlen, length_take; lia).
  rewrite IH by (rewrite length_drop; lia).
  apply take_drop.
Qed.

Lemma recompress_length n D : is_nxn n D → length (recompress D) = triangle n.
Proof.
  revert D. induction n as [|n IH]; intros D [Hlen Hrows].
  { by destruct D. }
  destruct D as [|row rest]; [done|].
  rewrite recompress_cons, length_app. simpl.
  apply Forall_cons in Hrows as [Hrow Hrest].
  destruct row as [|x row]; [done|]. simpl in *.
  rewrite (IH (tail <$> rest)); [lia|].
  split; [rewrite length_fmap; lia|].
  apply Forall_fmap. eapply Forall_impl; [exact Hrest|].
  simpl. intros [|y r] Hr; simpl in *; lia.
Qed.

Lemma decompress_recompress n D :
  is_nxn n D → symmetric n D → zero_diagonal n D →
  decompress n (recompress D) = D.
Proof.
  revert D. induction n as [|n IH]; intros D [Hlen Hrows] Hsym Hzero.
  { by destruct D. }
  destruct D as [|row rest]; [done|].
  apply Forall_cons in Hrows as [Hrow Hrest].
  destruct row as [|x r]; [done|]. simpl in Hlen, Hrow.
  assert (x = Finite 0%Qc) as ->.
  { specialize (Hzero O ltac:(lia)). by injection Hzero. }
  assert (is_nxn n (tail <$> rest)) as Hnxn.
  { split; [rewrite length_fmap; lia|].
    apply Forall_fmap. eapply Forall_impl; [exact Hrest|].
    simpl. intros [|y r'] Hr; simpl in *; lia. }
  rewrite recompress_cons. simpl.
  rewrite take_app_length' by lia. rewrite drop_app_length' by lia.
  rewrite IH; [| done | |].
  - f_equal. apply list_eq. intros i.
    rewrite lookup_zip_with, list_lookup_fmap.
    destruct (rest !! i) as [rowi|] eqn:Hi; simpl.
    + assert (i < n)%nat as Hin by (apply lookup_lt_Some in Hi; lia).
      pose proof (Hsym (S i) O ltac:(lia) ltac:(lia)) as Hs.
      unfold entry in Hs. simpl in Hs. rewrite Hi in Hs. simpl in Hs.
      rewrite <- Hs. destruct rowi as [|y rowi]; simpl; [|done].
      rewrite Forall_lookup in Hrest. specialize (Hrest _ _ Hi). done.
    + by destruct (r !! i).
  - intros i j Hi Hj. rewrite !entry_tail.
    apply (Hsym (S i) (S j)); lia.
  - intros i Hi. rewrite entry_tail. apply (Hzero (S i)). lia.
Qed.

Lemma decompress_entries n v :
  length v = triangle n →
  symmetric n (decompress n v) ∧ zero_diagonal n (decompress n v).
Proof.
  revert v. induction n as [|n IH]; intros v Hv.
  { split; intros i; lia. }
  simpl in Hv.
  destruct (IH (drop n v)) as [Hsym Hzero]; [rewrite length_drop; lia|].
  destruct (decompress_nxn n (drop n v)) as [Hlen Hrows]; [rewrite length_drop; lia|].
  assert (∀ i j, entry (zip_with cons (take n v) (decompress n (drop n v))) i (S j)
                 = entry (decompress n (drop n v)) i j) as Hin.
  { intros i j. unfold entry. rewrite lookup_zip_with.
    destruct (decompress n (drop n v) !! i) as [row|] eqn:Hi; simpl.
    - apply lookup_lt_Some in Hi.
      destruct (lookup_lt_is_Some_2 (take n v) i) as [x ->]; [rewrite length_take; lia|].
      done.
    - by destruct (take n v !! i). }
  assert (∀ i, (i < n)%nat →
               entry (zip_with cons (take n v) (decompress n (drop n v))) i 0
               = take n v !! i) as Hcol.
  { intros i Hi. unfold entry. rewrite lookup_zip_with.
    destruct (lookup_lt_is_Some_2 (take n v) i) as [x ->]; [rewrite length_take; lia|].
    destruct (lookup_lt_is_Some_2 (decompress n (drop n v)) i) as [row ->]; [lia|].
    done. }
  split.
  - intros [|i] [|j] Hi Hj; simpl; try done.
    + change (take n v !! j = entry (zip_with cons (take n v) (decompress n (drop n v))) j 0).
      rewrite Hcol by lia. done.
    + change (entry (zip_with cons (take n v) (decompress n (drop n v))) i 0 = take n v !! i).
      apply Hcol. lia.
    + change (entry (zip_with cons (take n v) (decompress n (drop n v))) i (S j)
              = entry (zip_with cons (take n v) (decompress n (drop n v))) j (S i)).
      rewrite !Hin. apply Hsym; lia.
  - intros [|i] Hi; simpl; [done|].
    change (entry (zip_with cons (take n v) (decompress n (drop n v))) i (S i)
            = Some (Finite 0%Qc)).
    rewrite Hin. apply Hzero. lia.
Qed.

Lemma is_square_true n D : is_nxn n D → is_square D = true.
Proof.
  intros [Hlen Hrows]. unfold is_square. apply forallb_forall.
  intros row Hin. rewrite Forall_forall in Hrows.
  apply Nat.eqb_eq. rewrite Hlen. apply Hrows. by apply list_elem_of_In.
Qed.

Lemma is_symmetric_true n D : length D = n → symmetric n D → is_symmetric D = true.
Proof.
  intros Hlen Hsym. unfold is_symmetric. rewrite Hlen.
  apply forallb_forall. intros i Hi. apply forallb_forall. intros j Hj.
  apply in_seq in Hi, Hj. apply bool_decide_eq_true. apply Hsym; lia.
Qed.

Lemma has_zero_diagonal_true n D :
  length D = n → zero_diagonal n D → has_zero_diagonal D = true.
Proof.
  intros Hlen Hzero. unfold has_zero_diagonal. rewrite Hlen.
  apply forallb_forall. intros i Hi. apply in_seq in Hi.
  apply bool_decide_eq_true. apply Hzero. lia.
Qed.

Lemma squareform_vector_triangle n v :
  (1 ≤ n)%nat → length v = triangle n → squareform_vector v = inl (decompress n v).
Proof.
  intros Hn Hv. unfold squareform_vector.
  destruct (Nat.eqb_spec (length v) 0) as [H0|H0].
  - destruct n as [|[|n]]; simpl in *; try lia. by destruct v.
  - assert (2 ≤ n)%nat as Hn2 by (destruct n as [|[|n]]; simpl in *; lia).
    rewrite Hv, sqrt_up_triangle by done.
    rewrite <- triangle_double, Nat.eqb_refl. done.
Qed.

Lemma squareform_matrix_valid n D :
  (1 ≤ n)%nat → is_nxn n D → symmetric n D → zero_diagonal n D →
  squareform_matrix D = inl (recompress D).
Proof.
  intros Hn Hnxn Hsym Hzero. unfold squareform_matrix.
  rewrite (is_square_true n), (is_symmetric_true n), (has_zero_diagonal_true n);
    try done; try apply Hnxn. simpl.
  destruct (Nat.leb_spec (length D) 1) as [Hle|Hgt]; [|done].
  destruct Hnxn as [Hlen Hrows].
  destruct D as [|row [|row' D]]; simpl in *; try lia.
  apply Forall_cons in Hrows as [Hrow _]. subst n.
  destruct row as [|x [|y row]]; simpl in *; try lia. done.
Qed.

Lemma squareform_matrix_length n D v :
  is_nxn n D → squareform_matrix D = inl v → length v = triangle n.
Proof.
  intros Hnxn. unfold squareform_matrix.
  repeat (case_match; try done).
  - intros [= <-]. destruct Hnxn as [Hlen _].
    rename select ((_ <=? _)%nat = true) into Hle. apply Nat.leb_le in Hle.
    destruct n as [|[|n]]; simpl; try done. lia.
  - intros [= <-]. by apply recompress_length.
Qed.

(** The identifier mask has the shape of the distances. *)
Lemma same_shape_mask n D (identifiers : list attr) :
  is_nxn n D → length identifiers = n →
  same_shape D (identifier_mask identifiers) = true.
Proof.
  intros [Hlen Hrows] Hids. unfold same_shape, identifier_mask.
  rewrite length_map, Hlen, Hids, Nat.eqb_refl. simpl.
  apply forallb_forall. intros [row m] Hin.
  apply list_elem_of_In, elem_of_zip_with in Hin as (row' & m' & [= <- <-] & Hrow & Hm).
  rewrite Forall_forall in Hrows. apply Hrows in Hrow.
  apply list_elem_of_fmap in Hm as (val & -> & _).
  simpl. rewrite length_map, Hrow, Hids. apply Nat.eqb_refl.
Qed.

Lemma masked_nxn n D (identifiers : list attr) (value : xreal) :
  is_nxn n D → length identifiers = n →
  is_nxn n (zip_with (zip_with (λ d (b : bool), if b then value else d))
                     D (identifier_mask identifiers)).
Proof.
  intros [Hlen Hrows] Hids. unfold identifier_mask. split.
  - rewrite length_zip_with, length_map. lia.
  - apply Forall_forall. intros row' Hin.
    apply elem_of_zip_with in Hin as (row & m & -> & Hrow & Hm).
    rewrite Forall_forall in Hrows. apply Hrows in Hrow.
    apply list_elem_of_fmap in Hm as (val & -> & _).
    rewrite length_zip_with, length_map. lia.
Qed.

Lemma masked_entry D (identifiers : list attr) (value : xreal) i j a b d :
  identifiers !! i = Some a → identifiers !! j = Some b → entry D i j = Some d →
  entry (zip_with (zip_with (λ d (b : bool), if b then value else d))
                  D (identifier_mask identifiers)) i j
  = Some (if decide (a = b) then d else value).
Proof.
  intros Ha Hb Hd. unfold entry, identifier_mask in *.
  rewrite lookup_zip_with, list_lookup_fmap, Ha.
  destruct (D !! i) as [row|]; simpl in *; [|done].
  rewrite lookup_zip_with, list_lookup_fmap, Hb, Hd. simpl.
  f_equal. destruct (decide (a = b)) as [->|Hne].
  - by rewrite bool_decide_eq_false_2 by (intros H; by apply H).
  - by rewrite bool_decide_eq_true_2 by (intros ->; by apply Hne).
Qed.

End squareform.

(** C5.  Decompressing a condensed distance vector and recompressing the
    square matrix are mutual inverses: for [n >= 1] points,
    [squareform] maps a condensed vector of [n] points to a square matrix
    that it maps back to the same vector, and maps a symmetric
    zero-diagonal [n] x [n] matrix to a vector that it maps back to the
    same matrix.  The entries may be any floats, [+inf] included. *)
Theorem squareform_round_trip (n : nat) (v : list xreal) (D : matrix) :
  (1 ≤ n)%nat →
  length v = triangle n →
  is_nxn n D → symmetric n D → zero_diagonal n D →
  (∃ D', squareform_vector v = inl D' ∧ is_nxn n D' ∧ squareform_matrix D' = inl v) ∧
  (∃ v', squareform_matrix D = inl v' ∧ length v' = triangle n ∧
         squareform_vector v' = inl D).
Proof.
  intros Hn Hv Hnxn Hsym Hzero. split.
  - exists (decompress n v).
    pose proof (decompress_nxn n v ltac:(lia)) as Hd.
    destruct (decompress_entries n v Hv) as [Hs Hz].
    split; [by apply squareform_vector_triangle|]. split; [done|].
    rewrite (squareform_matrix_valid n) by done.
    by rewrite recompress_decompress.
  - exists (recompress D).
    split; [by apply (squareform_matrix_valid n)|].
    split; [by apply recompress_length|].
    rewrite (squareform_vector_triangle n) by (by try apply recompress_length).
    by rewrite decompress_recompress.
Qed.

Lemma squareform_round_trip_witness :
  let a := Finite (Z2Qc 1) in
  let b := PosInf in
  let c := Finite (Z2Qc 3) in
  let z := Finite 0%Qc in
  (∃ D', squareform_vector [a; b; c] = inl D' ∧ is_nxn 3 D' ∧
         squareform_matrix D' = inl [a; b; c]) ∧
  (∃ v', squareform_matrix [[z; a; b]; [a; z; c]; [b; c; z]] = inl v' ∧
         length v' = triangle 3 ∧
         squareform_vector v' = inl [[z; a; b]; [a; z; c]; [b; c; z]]).
Proof.
  intros a b c z.
  apply (squareform_round_trip 3 [a; b; c] [[z; a; b]; [a; z; c]; [b; c; z]]).
  - lia.
  - reflexivity.
  - split; [reflexivity|]. repeat constructor.
  - intros [|[|[|i]]] [|[|[|j]]] Hi Hj; try reflexivity; lia.
  - intros [|[|[|i]]] Hi; try reflexivity; lia.
Defined.

(** C2.  On an [n] x [n] distance matrix with a zero diagonal and [n]
    identifiers, the mask assignment of lines 562-565 succeeds and yields
    an [n] x [n] matrix whose entry [(i,j)] is [+inf] when the
    identifiers of [i] and [j] differ and the original entry otherwise;
    its diagonal is still zero. *)
Theorem identifier_constraint_transform (n : nat) (D : matrix)
    (identifiers : list attr) (s : outputs) :
  is_nxn n D → zero_diagonal n D → length identifiers = n →
  ∃ D',
    mask_assign D (identifier_mask identifiers) PosInf s = (s, Ok D') ∧
    is_nxn n D' ∧
    (∀ i j a b d,
        identifiers !! i = Some a → identifiers !! j = Some b →
        entry D i j = Some d →
        entry D' i j = Some (if decide (a = b) then d else PosInf)) ∧
    zero_diagonal n D'.
Proof.
  intros Hnxn Hzero Hids.
  eexists. unfold mask_assign. rewrite (same_shape_mask n) by done.
  split; [reflexivity|].
  split; [by apply masked_nxn|].
  split; [intros; by apply masked_entry|].
  intros i Hi.
  destruct (lookup_lt_is_Some_2 identifiers i) as [a Ha]; [lia|].
  rewrite (masked_entry D identifiers PosInf i i a a (Finite 0%Qc)); auto.
  by rewrite decide_True.
Qed.

Lemma identifier_constraint_transform_witness :
  let a := Finite (Z2Qc 1) in
  let b := Finite (Z2Qc 2) in
  let z := Finite 0%Qc in
  ∃ D',
    mask_assign [[z; a; b]; [a; z; a]; [b; a; z]]
                (identifier_mask [AStr "A"; AStr "A"; AStr "B"]) PosInf no_outputs
      = (no_outputs, Ok D') ∧
    is_nxn 3 D' ∧
    (∀ i j x y d,
        [AStr "A"; AStr "A"; AStr "B"] !! i = Some x →
        [AStr "A"; AStr "A"; AStr "B"] !! j = Some y →
        entry [[z; a; b]; [a; z; a]; [b; a; z]] i j = Some d →
        entry D' i j = Some (if decide (x = y) then d else PosInf)) ∧
    zero_diagonal 3 D'.
Proof.
  intros a b z.
  apply (identifier_constraint_transform 3 [[z; a; b]; [a; z; a]; [b; a; z]]
           [AStr "A"; AStr "A"; AStr "B"] no_outputs).
  - split; [reflexivity|]. repeat constructor.
  - intros [|[|[|i]]] Hi; try reflexivity; lia.
  - reflexivity.
Defined.

(** ** Running the monad *)

Section monad.

Context {A B : Type}.

Lemma bind_inv (m : M A) (k : A → M B) s s' r :
  bind m k s = (s', r) →
  (∃ s1 a, m s = (s1, Ok a) ∧ k a s1 = (s', r)) ∨
  (∃ e, m s = (s', Raise e) ∧ r = Raise e).
Proof.
  unfold bind. destruct (m s) as [s1 [a|e]]; intros H.
  - left. eauto.
  - right. injection H as <- <-. eauto.
Qed.

Lemma bind_ok (m : M A) (k : A → M B) s s1 a :
  m s = (s1, Ok a) → bind m k s = k a s1.
Proof. unfold bind. by intros ->. Qed.

Lemma bind_raise (m : M A) (k : A → M B) s s1 e :
  m s = (s1, Raise e) → bind m k s = (s1, Raise e).
Proof. unfold bind. by intros ->. Qed.

Lemma call_inv routine (x : lib_result A) s s' r :
  call routine x s = (s', r) →
  s' = s ∧ ((∃ a, x = inl a ∧ r = Ok a) ∨
            (∃ msg, x = inr msg ∧ r = Raise (LibraryError routine msg))).
Proof. destruct x; intros [= <- <-]; eauto. Qed.

Lemma py_index_inv (l : list A) i s s' r :
  py_index l i s = (s', r) →
  s' = s ∧ ((∃ a, l !! i = Some a ∧ r = Ok a) ∨
            (l !! i = None ∧ r = Raise IndexError)).
Proof. unfold py_index. destruct (l !! i); intros [= <- <-]; eauto. Qed.

End monad.

Lemma Z2Qc_zero z : Z2Qc z = 0%Qc ↔ z = 0.
Proof.
  unfold Z2Qc. split; [|by intros ->].
  intros H. change 0%Qc with (Q2Qc (inject_Z 0)) in H.
  apply Q2Qc_eq_iff in H. by apply inject_Z_injective.
Qed.

Lemma setPercentage_inv p s s' r :
  setPercentage p s = (s', r) → r = Ok tt ∧ emitted s' = emitted s.
Proof. by intros [= <- <-]. Qed.

Lemma setInfo_inv m b s s' r :
  setInfo m b s = (s', r) → r = Ok tt ∧ emitted s' = emitted s.
Proof. by intros [= <- <-]. Qed.

Lemma report_inv base i span count s s' r :
  report base i span count s = (s', r) →
  emitted s' = emitted s ∧
  ((count ≠ 0 ∧ r = Ok tt) ∨ (count = 0 ∧ r = Raise ZeroDivisionError)).
Proof.
  unfold report, py_div. intros H.
  destruct (decide (Z2Qc count = 0%Qc)) as [H0|H0].
  - rewrite (bind_raise _ _ s s ZeroDivisionError) in H by done.
    injection H as <- <-. apply Z2Qc_zero in H0. auto.
  - erewrite bind_ok in H by done.
    apply setPercentage_inv in H as [-> ?]. rewrite Z2Qc_zero in H0. auto.
Qed.

(** Steps through one [bind] of a run held in hypothesis [H]: the first
    computation returned (its run is [H1], and [H] is the run of the
    rest) or raised (its run is [H1]). *)
Tactic Notation "bind_step" hyp(H) "as" ident(H1) :=
  let s1 := fresh "s" in
  let a := fresh "a" in
  let e := fresh "e" in
  let Heq := fresh "Heq" in
  apply bind_inv in H as [(s1 & a & H1 & H)|(e & H1 & Heq)];
  [ repeat match goal with u : unit |- _ => destruct u end;
    try (cbv [ret raise] in H; discriminate H)
  | try discriminate Heq; simplify_eq ].

Lemma check_tolerance_inv tolerance s s' r :
  check_tolerance tolerance s = (s', r) →
  emitted s' = emitted s ∧
  (((tolerance ≤ 0)%Qc ∧ r = Raise (ValueError "Tolerance <= zero")) ∨
   ((0 < tolerance)%Qc ∧ r = Ok tt)).
Proof.
  unfold check_tolerance. destruct (decide (tolerance ≤ 0)%Qc) as [Hle|Hgt]; intros H.
  - bind_step H as Hinfo.
    apply setInfo_inv in Hinfo as [_ Hem]. injection H as <- <-. auto.
  - injection H as <- <-. split; [done|]. right. split; [|done].
    by apply Qcnot_le_lt.
Qed.

Lemma check_point_limit_inv cfg layer s s' r :
  check_point_limit cfg layer s = (s', r) →
  emitted s' = emitted s ∧
  ((selectedFeatureCount layer > POINT_LIMIT cfg ∧
    r = Raise (ValueError "Feature Count > point limit")) ∨
   (selectedFeatureCount layer ≤ POINT_LIMIT cfg ∧
    r = Ok (selectedFeatureCount layer))).
Proof.
  unfold check_point_limit.
  destruct (decide (selectedFeatureCount layer > POINT_LIMIT cfg)) as [Hgt|Hle]; intros H.
  - bind_step H as Hinfo.
    apply setInfo_inv in Hinfo as [_ Hem]. injection H as <- <-. auto.
  - injection H as <- <-. split; [done|]. right. split; [lia|done].
Qed.

(** ** The loops *)

Lemma extract_loop_inv span fc fs : ∀ i pts ids s s' r,
  for_enumerate i fs (pts, ids)
    (λ i f '(pts, feature_ids),
       report 0 i span fc >>>
       ret (pts ++ [f_geometry f], feature_ids ++ [f_id f])) s = (s', r) →
  emitted s' = emitted s ∧
  ((r = Ok (pts ++ (f_geometry <$> fs), ids ++ (f_id <$> fs)) ∧ (fs = [] ∨ fc ≠ 0)) ∨
   (r = Raise ZeroDivisionError ∧ fc = 0 ∧ fs ≠ [])).
Proof.
  induction fs as [|f fs IH]; intros i pts ids s s' r H; simpl in H.
  - injection H as <- <-. rewrite !app_nil_r. auto.
  - bind_step H as Hbody.
    + bind_step Hbody as Hrep. injection Hbody as <- <-.
      apply report_inv in Hrep as [Hem [[Hfc _]|[_ [=]]]].
      apply IH in H as [Hem' Hr]. split; [congruence|].
      destruct Hr as [[-> _]|(-> & ? & _)]; [left|done].
      rewrite !fmap_cons, <- !app_assoc. simpl. auto.
    + bind_step Hbody as Hrep.
      apply report_inv in Hrep as [Hem [[_ [=]]|[Hfc [= ->]]]]. auto.
Qed.

Lemma extract_points_inv span fc layer s s' r :
  extract_points span fc layer s = (s', r) →
  emitted s' = emitted s ∧
  ((r = Ok (f_geometry <$> features layer, f_id <$> features layer) ∧
    (features layer = [] ∨ fc ≠ 0)) ∨
   (r = Raise ZeroDivisionError ∧ fc = 0 ∧ features layer ≠ [])).
Proof. apply extract_loop_inv. Qed.

Lemma dict_getitem_inv labels key s s' r :
  dict_getitem labels key s = (s', r) →
  s' = s ∧ ((∃ l, labels !! key = Some l ∧ r = Ok l) ∨
            (labels !! key = None ∧ r = Raise KeyError)).
Proof. unfold dict_getitem. destruct (labels !! key); intros [= <- <-]; eauto. Qed.

(** The writing loop either writes every feature, or stops at the first
    feature whose id has no label, with the features before it written. *)
Lemma write_loop_inv base span fc labels fs : ∀ i s s' r,
  for_enumerate i fs tt
    (λ i f _,
       report base i span fc >>>
       let* label := dict_getitem labels (f_id f) in
       addFeature (OutFeature (f_geometry f) (f_attributes f ++ [AInt label]))) s
    = (s', r) →
  centroid_written s' = centroid_written s ∧
  num_clusters_out s' = num_clusters_out s ∧
  ((r = Ok tt ∧ written s' = written s ++ (labelled labels <$> fs) ∧
    Forall (λ f, is_Some (labels !! f_id f)) fs ∧ (fs = [] ∨ fc ≠ 0)) ∨
   (r = Raise ZeroDivisionError ∧ fc = 0 ∧ fs ≠ [] ∧ written s' = written s) ∨
   (r = Raise KeyError ∧ Exists (λ f, labels !! f_id f = None) fs)).
Proof.
  induction fs as [|f fs IH]; intros i s s' r H; simpl in H.
  - injection H as <- <-. rewrite app_nil_r. split; [done|]. split; [done|]. left. auto.
  - bind_step H as Hbody.
    + bind_step Hbody as Hrep.
      apply report_inv in Hrep as [Hem [[Hfc _]|[_ [=]]]].
      bind_step Hbody as Hget.
      apply dict_getitem_inv in Hget as [-> [(l & Hl & [= ->])|[_ [=]]]].
      injection Hbody as <-.
      apply IH in H as (Hc & Hn & Hr). simpl in *.
      injection Hem as Hw Hc' Hn'.
      split; [congruence|]. split; [congruence|].
      destruct Hr as [(-> & Hw' & Hall & _)|[(-> & ? & _)|(-> & Hex)]].
      * left. split; [done|]. split; [|split; [|by right]].
        -- rewrite Hw', Hw, <- app_assoc. simpl. unfold labelled at 2. by rewrite Hl.
        -- constructor; [by rewrite Hl|done].
      * done.
      * right. right. split; [done|]. by apply Exists_cons_tl.
    + bind_step Hbody as Hrep.
      * apply report_inv in Hrep as [Hem [[Hfc _]|[_ [=]]]].
        injection Hem as Hw Hc Hn.
        bind_step Hbody as Hget.
        apply dict_getitem_inv in Hget as [-> [(l & _ & [=])|[Hnone [= ->]]]].
        split; [done|]. split; [done|]. right. right. split; [done|].
        by apply Exists_cons_hd.
      * apply report_inv in Hrep as [Hem [[_ [=]]|[Hfc [= ->]]]].
        injection Hem as Hw Hc Hn.
        split; [done|]. split; [done|]. right. left. auto.
Qed.

Lemma write_labelled_inv base span fc layer labels s s' r :
  write_labelled base span fc layer labels s = (s', r) →
  centroid_written s' = centroid_written s ∧
  num_clusters_out s' = num_clusters_out s ∧
  ((r = Ok tt ∧ written s' = written s ++ (labelled labels <$> features layer) ∧
    Forall (λ f, is_Some (labels !! f_id f)) (features layer) ∧
    (features layer = [] ∨ fc ≠ 0)) ∨
   (r = Raise ZeroDivisionError ∧ fc = 0 ∧ features layer ≠ [] ∧ written s' = written s) ∨
   (r = Raise KeyError ∧ Exists (λ f, labels !! f_id f = None) (features layer))).
Proof. apply write_loop_inv. Qed.

Lemma report_num_clusters_inv y s s' r :
  report_num_clusters y s = (s', r) →
  r = Ok tt ∧ written s' = written s ∧ centroid_written s' = centroid_written s ∧
  num_clusters_out s' = Some (py_len (np_unique y)).
Proof. by intros [= <- <-]. Qed.

(** The centroid loop writes every centroid unless [k] is zero. *)
Lemma centroid_loop_inv k cs : ∀ i s s' r,
  for_enumerate i cs tt
    (λ i centroid _, report 90 i 10 k >>> addCentroid (OutFeature centroid [AInt i])) s
    = (s', r) →
  written s' = written s ∧ num_clusters_out s' = num_clusters_out s ∧
  ((r = Ok tt ∧ length (centroid_written s') = (length (centroid_written s) + length cs)%nat) ∨
   (r = Raise ZeroDivisionError ∧ k = 0)).
Proof.
  induction cs as [|c cs IH]; intros i s s' r H; simpl in H.
  - injection H as <- <-. split; [done|]. split; [done|]. left. split; [done|].
    simpl. lia.
  - bind_step H as Hbody.
    + bind_step Hbody as Hrep.
      apply report_inv in Hrep as [Hem [[Hk _]|[_ [=]]]].
      injection Hbody as <-. injection Hem as Hw Hc Hn.
      apply IH in H as (Hw' & Hn' & Hr). simpl in *.
      split; [congruence|]. split; [congruence|].
      destruct Hr as [[-> Hlen]|[-> ->]]; [left|by right].
      split; [done|]. rewrite Hlen, length_app, Hc. simpl. lia.
    + bind_step Hbody as Hrep.
      apply report_inv in Hrep as [Hem [[_ [=]]|[Hk [= ->]]]].
      injection Hem as Hw Hc Hn. auto.
Qed.

(** ** [dict(zip(...))] and [np.unique] *)

Lemma dict_zip_other ids : ∀ (y : list Z) (m : gmap Z Z) id,
  id ∉ ids →
  foldl (λ m kv, <[kv.1 := kv.2]> m) m (zip ids y) !! id = m !! id.
Proof.
  induction ids as [|k ids IH]; intros [|v y] m id Hid; simpl; try done.
  apply not_elem_of_cons in Hid as [Hne Hid].
  rewrite IH by done. by rewrite lookup_insert_ne.
Qed.

Lemma dict_zip_is_Some_gen ids : ∀ (y : list Z) (m : gmap Z Z) id,
  (length ids ≤ length y)%nat → id ∈ ids →
  is_Some (foldl (λ m kv, <[kv.1 := kv.2]> m) m (zip ids y) !! id).
Proof.
  induction ids as [|k ids IH]; intros [|v y] m id Hlen Hid; simpl in *;
    try (by apply elem_of_nil in Hid); try lia.
  destruct (decide (id ∈ ids)) as [Hin|Hnin].
  - apply IH; [lia|done].
  - apply elem_of_cons in Hid as [->|?]; [|done].
    rewrite dict_zip_other by done. simpl. rewrite lookup_insert_eq. eauto.
Qed.

Lemma dict_zip_is_Some ids y id :
  (length ids ≤ length y)%nat → id ∈ ids → is_Some (dict_zip ids y !! id).
Proof. apply dict_zip_is_Some_gen. Qed.

Lemma dict_zip_lookup_gen ids : ∀ (y : list Z) (m : gmap Z Z) i id l,
  NoDup ids → ids !! i = Some id → y !! i = Some l →
  foldl (λ m kv, <[kv.1 := kv.2]> m) m (zip ids y) !! id = Some l.
Proof.
  induction ids as [|k ids IH]; intros [|v y] m i id l Hnd Hi Hl; try done.
  apply NoDup_cons in Hnd as [Hk Hnd]. destruct i as [|i]; simpl in *.
  - injection Hi as ->. injection Hl as ->.
    rewrite dict_zip_other by done. simpl. by rewrite lookup_insert_eq.
  - by eapply IH.
Qed.

Lemma dict_zip_lookup ids y i id l :
  NoDup ids → ids !! i = Some id → y !! i = Some l →
  dict_zip ids y !! id = Some l.
Proof. apply dict_zip_lookup_gen. Qed.

(** With distinct ids and one label per feature, every feature is
    written with the label at its own position. *)
Lemma labelled_dict_zip (fs : list feature) (y : list Z) :
  NoDup (f_id <$> fs) → length y = length fs →
  labelled (dict_zip (f_id <$> fs) y) <$> fs = zip_with with_label fs y.
Proof.
  intros Hnd Hlen. apply list_eq. intros i.
  rewrite list_lookup_fmap, lookup_zip_with.
  destruct (fs !! i) as [f|] eqn:Hf; simpl; [|done].
  destruct (lookup_lt_is_Some_2 y i) as [l Hl].
  { apply lookup_lt_Some in Hf. lia. }
  rewrite Hl. simpl. unfold labelled, with_label.
  rewrite (dict_zip_lookup _ _ i (f_id f) l); try done.
  by rewrite list_lookup_fmap, Hf.
Qed.

Lemma int_labels_with_label (fs : list feature) (y : list Z) s :
  written s = zip_with with_label fs y → length y = length fs →
  written_labels s = (λ l, Some (AInt l)) <$> y ∧ int_labels s = y.
Proof.
  intros Hw Hlen. unfold int_labels, written_labels. rewrite Hw. clear Hw.
  revert y Hlen. induction fs as [|f fs IH]; intros [|l y] Hlen; simpl in *; try done.
  destruct (IH y ltac:(lia)) as [IH1 IH2].
  unfold label_of at 1 3. simpl. rewrite last_snoc. simpl.
  split; by f_equal.
Qed.

Lemma elem_of_insert_unique x l z :
  z ∈ insert_unique x l ↔ z = x ∨ z ∈ l.
Proof.
  induction l as [|y l IH]; simpl.
  - rewrite list_elem_of_singleton, elem_of_nil. tauto.
  - repeat case_decide; subst; rewrite ?elem_of_cons, ?IH; tauto.
Qed.

Lemma insert_unique_sorted x l :
  StronglySorted Z.lt l → StronglySorted Z.lt (insert_unique x l).
Proof.
  induction 1 as [|y l Hs IH Hall]; simpl.
  - repeat constructor.
  - repeat case_decide; subst.
    + constructor; [by constructor|]. constructor; [done|].
      eapply Forall_impl; [exact Hall|]. simpl. lia.
    + by constructor.
    + constructor; [done|]. apply Forall_forall. intros z Hz.
      apply elem_of_insert_unique in Hz as [->|Hz]; [lia|].
      rewrite Forall_forall in Hall. by apply Hall.
Qed.

Lemma np_unique_sorted y : StronglySorted Z.lt (np_unique y).
Proof.
  induction y as [|x y IH]; simpl; [constructor|]. by apply insert_unique_sorted.
Qed.

Lemma elem_of_np_unique y z : z ∈ np_unique y ↔ z ∈ y.
Proof.
  induction y as [|x y IH]; simpl; [done|].
  rewrite elem_of_insert_unique, elem_of_cons, IH. tauto.
Qed.

Lemma StronglySorted_lt_NoDup (l : list Z) : StronglySorted Z.lt l → NoDup l.
Proof.
  induction 1 as [|x l Hs IH Hall]; constructor; [|done].
  intros Hx. rewrite Forall_forall in Hall. specialize (Hall x Hx). lia.
Qed.

(** [len(np.unique(y))] is the number of distinct values of [y]. *)
Lemma np_unique_distinct (y : list Z) :
  length (np_unique y) = length (remove_dups y).
Proof.
  apply Permutation_length, NoDup_Permutation.
  - apply StronglySorted_lt_NoDup, np_unique_sorted.
  - apply NoDup_remove_dups.
  - intros z. by rewrite elem_of_np_unique, elem_of_remove_dups.
Qed.

(** ** The runs, phase by phase *)

(** Closes a goal on what has been emitted from the equations gathered
    along a run. *)
Ltac em := unfold emitted in *; simpl in *; congruence.

(** In [Hw : written s' = written s ++ l], nothing was written up to [s]. *)
Ltac nothing_written Hw :=
  match type of Hw with
  | written _ = written ?s ++ _ =>
      let Hnil := fresh "Hnil" in
      assert (written s = []) as Hnil by em;
      rewrite Hnil in Hw; simpl in Hw
  end.

(** A run of the hierarchical algorithm fails before it writes anything
    (bad selection, tolerance, point limit, no selected feature, library),
    or reaches the writing phase with the labels of [fclusterdata]. *)
Lemma Hierarchical_inv lib cfg p layer s r :
  run lib cfg (Hierarchical p) layer = (s, r) →
  (∃ e, r = Raise e ∧ emitted s = emitted no_outputs ∧
     ((e = IndexError ∧ ¬ valid_selections (Hierarchical p)) ∨
      (valid_selections (Hierarchical p) ∧
       ((e = ValueError "Tolerance <= zero" ∧ (TOLERANCE p ≤ 0)%Qc) ∨
        ((0 < TOLERANCE p)%Qc ∧
         ((e = ValueError "Feature Count > point limit" ∧
           selectedFeatureCount layer > POINT_LIMIT cfg) ∨
          (selectedFeatureCount layer ≤ POINT_LIMIT cfg ∧
           ((e = ZeroDivisionError ∧ selectedFeatureCount layer = 0 ∧
             features layer ≠ []) ∨
            (∃ msg, e = LibraryError "fclusterdata" msg))))))))) ∨
  (∃ method metric crit y,
     _linkage_methods !! LINKAGE_METHOD p = Some method ∧
     _linkage_metrics !! LINKAGE_METRIC p = Some metric ∧
     _criterions !! CRITERION p = Some crit ∧
     (0 < TOLERANCE p)%Qc ∧
     selectedFeatureCount layer ≤ POINT_LIMIT cfg ∧
     fclusterdata lib (f_geometry <$> features layer) (TOLERANCE p) crit method metric
       = inl y ∧
     centroid_written s = [] ∧
     write_outcome layer y s r).
Proof.
  unfold run, processAlgorithm, HierarchicalClustering_processAlgorithm. intros H.
  assert (∀ {X} (l : list X) i n, length l = n → l !! i = None → ¬ (i < n)%nat) as Hout.
  { intros X l i n <- Hnone Hlt. apply lookup_lt_is_Some_2 in Hlt as [? ?]. congruence. }
  assert (∀ {X} (l : list X) i n x, length l = n → l !! i = Some x → (i < n)%nat) as Hin.
  { intros X l i n x <- Hsome. by apply lookup_lt_Some in Hsome. }
  bind_step H as Hmethod.
  2: { apply py_index_inv in Hmethod as [-> [(? & _ & [=])|[Hmethod [= ->]]]].
       left. eexists. split; [done|]. split; [done|]. left. split; [done|].
       intros (Hv & _ & _). by apply (Hout _ _linkage_methods _ 7%nat eq_refl Hmethod). }
  apply py_index_inv in Hmethod as [-> [(method & Hmethod & [= ->])|[_ [=]]]].
  bind_step H as Hmetric.
  2: { apply py_index_inv in Hmetric as [-> [(? & _ & [=])|[Hmetric [= ->]]]].
       left. eexists. split; [done|]. split; [done|]. left. split; [done|].
       intros (_ & Hv & _). by apply (Hout _ _linkage_metrics _ 2%nat eq_refl Hmetric). }
  apply py_index_inv in Hmetric as [-> [(metric & Hmetric & [= ->])|[_ [=]]]].
  bind_step H as Hcrit.
  2: { apply py_index_inv in Hcrit as [-> [(? & _ & [=])|[Hcrit [= ->]]]].
       left. eexists. split; [done|]. split; [done|]. left. split; [done|].
       intros (_ & _ & Hv). by apply (Hout _ _criterions _ 5%nat eq_refl Hcrit). }
  apply py_index_inv in Hcrit as [-> [(crit & Hcrit & [= ->])|[_ [=]]]].
  assert (valid_selections (Hierarchical p)) as Hvalid.
  { repeat split; [by apply (Hin _ _linkage_methods _ _ method eq_refl)
                  |by apply (Hin _ _linkage_metrics _ _ metric eq_refl)
                  |by apply (Hin _ _criterions _ _ crit eq_refl)]. }
  clear Hout Hin.
  bind_step H as Hpct. apply setPercentage_inv in Hpct as [_ Hem0].
  bind_step H as Htol.
  2: { apply check_tolerance_inv in Htol as [Hem1 [[Htol [= ->]]|[_ [=]]]].
       left. eexists. split; [done|]. split; [em|]. right. split; [done|]. by left. }
  apply check_tolerance_inv in Htol as [Hem1 [[_ [=]]|[Htol _]]].
  bind_step H as Hlim.
  2: { apply check_point_limit_inv in Hlim as [Hem2 [[Hlim [= ->]]|[_ [=]]]].
       left. eexists. split; [done|]. split; [em|]. right. split; [done|].
       right. split; [done|]. by left. }
  apply check_point_limit_inv in Hlim as [Hem2 [[_ [=]]|[Hlim [= ->]]]].
  bind_step H as Hinfo. apply setInfo_inv in Hinfo as [_ Hem3].
  bind_step H as Hext.
  2: { apply extract_points_inv in Hext as [Hem4 [[[=] _]|([= ->] & Hfc & Hfs)]].
       left. eexists. split; [done|]. split; [em|]. right. split; [done|].
       right. split; [done|]. right. split; [done|]. left. auto. }
  apply extract_points_inv in Hext as [Hem4 [[[= ->] Hfc]|([=] & _)]].
  bind_step H as Hinfo2. apply setInfo_inv in Hinfo2 as [_ Hem5].
  bind_step H as Hcall.
  2: { apply call_inv in Hcall as [-> [(? & _ & [=])|(msg & Hy & [= ->])]].
       left. eexists. split; [done|]. split; [em|]. right. split; [done|].
       right. split; [done|]. right. split; [done|]. right. eauto. }
  apply call_inv in Hcall as [-> [(y & Hy & [= ->])|(? & _ & [=])]].
  bind_step H as Hpct2. apply setPercentage_inv in Hpct2 as [_ Hem6].
  bind_step H as Hinfo3. apply setInfo_inv in Hinfo3 as [_ Hem7].
  right. exists method, metric, crit, y. repeat (split; [done|]).
  bind_step H as Hwrite.
  - apply write_labelled_inv in Hwrite as (Hc' & Hn' & [(_ & Hw' & Hall & _)|[(? & _)|(? & _)]]);
      [|done|done].
    apply report_num_clusters_inv in H as (-> & Hw'' & Hc'' & Hn'').
    nothing_written Hw'.
    split; [em|]. left. repeat split; [congruence|done|done].
  - apply write_labelled_inv in Hwrite as (Hc' & Hn' & [(? & _)|[(_ & Hfc0 & Hfs0 & _)|([= ->] & Hex)]]);
      [done| |].
    + destruct Hfc as [Hfc|Hfc]; congruence.
    + split; [em|]. right. auto.
Qed.

(** A run of the k-means algorithm fails before it writes anything (bad
    selection, fractional K, no selected feature, library), or reaches the
    writing phase with the labels and centroids of [kmeans2]; the centroid
    loop can then still fail on [k = 0]. *)
Lemma KMeans_inv lib cfg p layer s r :
  run lib cfg (KMeans p) layer = (s, r) →
  (∃ e, r = Raise e ∧ emitted s = emitted no_outputs ∧
     ((e = IndexError ∧ ¬ valid_selections (KMeans p)) ∨
      (valid_selections (KMeans p) ∧
       ((e = ValueError "K is not an integer" ∧ Z2Qc (py_int (K p)) ≠ K p) ∨
        (Z2Qc (py_int (K p)) = K p ∧
         ((e = ZeroDivisionError ∧ selectedFeatureCount layer = 0 ∧
           features layer ≠ []) ∨
          (∃ msg, e = LibraryError "kmeans2" msg))))))) ∨
  (∃ mi centroids y,
     _minits !! MINIT p = Some mi ∧
     Z2Qc (py_int (K p)) = K p ∧
     kmeans2 lib (f_geometry <$> features layer) (py_int (K p)) mi = inl (centroids, y) ∧
     ((write_outcome layer y s r ∧
       (r = Ok tt → length (centroid_written s) = length centroids)) ∨
      (r = Raise ZeroDivisionError ∧ py_int (K p) = 0))).
Proof.
  unfold run, processAlgorithm, KMeansClustering_processAlgorithm. intros H.
  bind_step H as Hminit.
  2: { apply py_index_inv in Hminit as [-> [(? & _ & [=])|[Hminit [= ->]]]].
       left. eexists. split; [done|]. split; [done|]. left. split; [done|].
       simpl. intros Hv. apply (lookup_lt_is_Some_2 _minits) in Hv as [? ?]. congruence. }
  apply py_index_inv in Hminit as [-> [(mi & Hminit & [= ->])|[_ [=]]]].
  assert (valid_selections (KMeans p)) as Hvalid.
  { simpl. by apply (lookup_lt_Some _minits _ mi). }
  bind_step H as Hpct. apply setPercentage_inv in Hpct as [_ Hem0].
  destruct (decide (Z2Qc (py_int (K p)) ≠ K p)) as [Hk|Hk].
  { bind_step H as Hraise; [bind_step Hraise as Hinfo|bind_step Hraise as Hinfo].
    apply setInfo_inv in Hinfo as [_ Hem1]. injection Hraise as <- <-.
    left. eexists. split; [done|]. split; [em|]. right. split; [done|]. by left. }
  apply dec_stable in Hk.
  bind_step H as Hret. injection Hret as <-.
  bind_step H as Hinfo. apply setInfo_inv in Hinfo as [_ Hem1].
  bind_step H as Hext.
  2: { apply extract_points_inv in Hext as [Hem4 [[[=] _]|([= ->] & Hfc & Hfs)]].
       left. eexists. split; [done|]. split; [em|]. right. split; [done|].
       right. split; [done|]. left. auto. }
  apply extract_points_inv in Hext as [Hem4 [[[= ->] Hfc]|([=] & _)]].
  bind_step H as Hinfo2. apply setInfo_inv in Hinfo2 as [_ Hem5].
  bind_step H as Hcall.
  2: { apply call_inv in Hcall as [-> [(? & _ & [=])|(msg & Hy & [= ->])]].
       left. eexists. split; [done|]. split; [em|]. right. split; [done|].
       right. split; [done|]. right. eauto. }
  apply call_inv in Hcall as [-> [([centroids y] & Hy & [= ->])|(? & _ & [=])]].
  bind_step H as Hpct2. apply setPercentage_inv in Hpct2 as [_ Hem6].
  bind_step H as Hinfo3. apply setInfo_inv in Hinfo3 as [_ Hem7].
  right. exists mi, centroids, y. repeat (split; [done|]).
  bind_step H as Hwrite.
  2: { apply write_labelled_inv in Hwrite
         as (Hc' & Hn' & [(? & _)|[(_ & Hfc0 & Hfs0 & _)|([= ->] & Hex)]]); [done| |].
       - destruct Hfc as [Hfc|Hfc]; congruence.
       - left. split; [|done]. right. auto. }
  apply write_labelled_inv in Hwrite as (Hc' & Hn' & [(_ & Hw' & Hall & _)|[(? & _)|(? & _)]]);
    [|done|done].
  nothing_written Hw'.
  bind_step H as Hinfo4. apply setInfo_inv in Hinfo4 as [_ Hem8].
  bind_step H as Hcent.
  2: { apply centroid_loop_inv in Hcent as (_ & _ & [[[=] _]|[[= ->] Hk0]]).
       right. auto. }
  apply centroid_loop_inv in Hcent as (Hw2 & Hn2 & [[_ Hlen]|[[=] _]]).
  apply report_num_clusters_inv in H as (-> & Hw'' & Hc'' & Hn'').
  left. split.
  - left. repeat split; [em|done|done].
  - intros _. rewrite Hc'', Hlen.
    match goal with |- (length (centroid_written ?s') + _)%nat = _ =>
      assert (centroid_written s' = []) as -> by em end.
    done.
Qed.

Lemma feature_getitem_inv layer f name s s' r :
  feature_getitem layer f name s = (s', r) →
  s' = s ∧ ((∃ a, r = Ok a) ∨ r = Raise KeyError).
Proof.
  unfold feature_getitem. repeat case_match; intros [= <- <-]; eauto.
Qed.

Lemma extract_identified_inv layer name fc fs : ∀ i pts ids idents s s' r,
  for_enumerate i fs (pts, ids, idents)
    (λ i f '(pts, feature_ids, identifiers),
       report 0 i 20 fc >>>
       let* ident := feature_getitem layer f name in
       ret (pts ++ [f_geometry f], feature_ids ++ [f_id f], identifiers ++ [ident])) s
    = (s', r) →
  emitted s' = emitted s ∧
  ((∃ found, r = Ok (pts ++ (f_geometry <$> fs), ids ++ (f_id <$> fs), idents ++ found) ∧
             length found = length fs ∧ (fs = [] ∨ fc ≠ 0)) ∨
   (r = Raise ZeroDivisionError ∧ fc = 0 ∧ fs ≠ []) ∨
   r = Raise KeyError).
Proof.
  induction fs as [|f fs IH]; intros i pts ids idents s s' r H; simpl in H.
  - injection H as <- <-. split; [done|]. left. exists []. rewrite !app_nil_r. auto.
  - bind_step H as Hbody.
    + bind_step Hbody as Hrep.
      apply report_inv in Hrep as [Hem [[Hfc _]|[_ [=]]]].
      bind_step Hbody as Hget.
      apply feature_getitem_inv in Hget as [-> [[ident [= ->]]|[=]]].
      injection Hbody as <- <-.
      apply IH in H as [Hem' Hr]. split; [congruence|].
      destruct Hr as [(found & -> & Hlen & _)|[(-> & ? & _)| -> ]]; [left|done|by right; right].
      exists (ident :: found). rewrite !fmap_cons, <- !app_assoc. simpl. auto.
    + bind_step Hbody as Hrep.
      * apply report_inv in Hrep as [Hem [[Hfc _]|[_ [=]]]].
        bind_step Hbody as Hget.
        apply feature_getitem_inv in Hget as [-> [[ident [=]]|[= ->]]].
        split; [em|]. right. by right.
      * apply report_inv in Hrep as [Hem [[_ [=]]|[Hfc [= ->]]]].
        split; [done|]. right. left. auto.
Qed.

Lemma mask_assign_inv D mask value s s' r :
  mask_assign D mask value s = (s', r) →
  s' = s ∧
  ((same_shape D mask = true ∧
    r = Ok (zip_with (zip_with (λ d (b : bool), if b then value else d)) D mask)) ∨
   (same_shape D mask = false ∧ r = Raise IndexError)).
Proof. unfold mask_assign. destruct (same_shape D mask); intros [= <- <-]; auto. Qed.

(** The constrained distances: the condensed form of the masked square
    form of what [pdist] returns. *)
Lemma constrained_distances_inv lib pts identifiers metric s s' r :
  constrained_distances lib pts identifiers metric s = (s', r) →
  s' = s ∧
  ((∃ v D distances,
      r = Ok distances ∧
      pdist lib pts metric = inl v ∧
      squareform_vector v = inl D ∧
      same_shape D (identifier_mask identifiers) = true ∧
      squareform_matrix
        (zip_with (zip_with (λ d (b : bool), if b then PosInf else d))
                  D (identifier_mask identifiers)) = inl distances) ∨
   r = Raise IndexError ∨
   (∃ routine msg, r = Raise (LibraryError routine msg))).
Proof.
  unfold constrained_distances. intros H.
  bind_step H as Hpdist.
  2: { apply call_inv in Hpdist as [-> [(? & _ & [=])|(msg & _ & [= ->])]]. eauto 10. }
  apply call_inv in Hpdist as [-> [(v & Hv & [= ->])|(? & _ & [=])]].
  bind_step H as Hsq.
  2: { apply call_inv in Hsq as [-> [(? & _ & [=])|(msg & _ & [= ->])]]. eauto 10. }
  apply call_inv in Hsq as [-> [(D & HD & [= ->])|(? & _ & [=])]].
  bind_step H as Hmask.
  2: { apply mask_assign_inv in Hmask as [-> [[_ [=]]|[_ [= ->]]]]. eauto. }
  apply mask_assign_inv in Hmask as [-> [[Hshape [= ->]]|[_ [=]]]].
  apply call_inv in H as [-> [(distances & Hre & ->)|(msg & _ & ->)]]; [|eauto 10].
  split; [done|]. left. eauto 10.
Qed.

(** A run of the algorithm by identifier fails before it writes anything,
    or reaches the writing phase with the labels that [fcluster] gives for
    the linkage of the constrained distances. *)
Lemma ByIdentifier_inv lib cfg p layer s r :
  run lib cfg (ByIdentifier p) layer = (s, r) →
  (∃ e, r = Raise e ∧ emitted s = emitted no_outputs ∧
     ((e = IndexError ∧ ¬ valid_selections (ByIdentifier p)) ∨
      (valid_selections (ByIdentifier p) ∧
       ((e = ValueError "Tolerance <= zero" ∧ (TOLERANCE (BASE p) ≤ 0)%Qc) ∨
        ((0 < TOLERANCE (BASE p))%Qc ∧
         ((e = ValueError "Feature Count > point limit" ∧
           selectedFeatureCount layer > POINT_LIMIT cfg) ∨
          (selectedFeatureCount layer ≤ POINT_LIMIT cfg ∧
           (e = ZeroDivisionError ∨ e = KeyError ∨ e = IndexError ∨
            (∃ routine msg, e = LibraryError routine msg))))))))) ∨
  (∃ method metric crit identifiers v D distances links y,
     _linkage_methods !! LINKAGE_METHOD (BASE p) = Some method ∧
     _linkage_metrics !! LINKAGE_METRIC (BASE p) = Some metric ∧
     _criterions !! CRITERION (BASE p) = Some crit ∧
     (0 < TOLERANCE (BASE p))%Qc ∧
     selectedFeatureCount layer ≤ POINT_LIMIT cfg ∧
     length identifiers = length (features layer) ∧
     pdist lib (f_geometry <$> features layer) metric = inl v ∧
     squareform_vector v = inl D ∧
     same_shape D (identifier_mask identifiers) = true ∧
     squareform_matrix
       (zip_with (zip_with (λ d (b : bool), if b then PosInf else d))
                 D (identifier_mask identifiers)) = inl distances ∧
     linkage lib distances method metric = inl links ∧
     fcluster lib links (TOLERANCE (BASE p)) crit = inl y ∧
     centroid_written s = [] ∧
     write_outcome layer y s r).
Proof.
  unfold run, processAlgorithm, HierarchicalClusteringByIdentifier_processAlgorithm.
  intros H.
  assert (∀ {X} (l : list X) i n, length l = n → l !! i = None → ¬ (i < n)%nat) as Hout.
  { intros X l i n <- Hnone Hlt. apply lookup_lt_is_Some_2 in Hlt as [? ?]. congruence. }
  assert (∀ {X} (l : list X) i n x, length l = n → l !! i = Some x → (i < n)%nat) as Hin.
  { intros X l i n x <- Hsome. by apply lookup_lt_Some in Hsome. }
  bind_step H as Hmethod.
  2: { apply py_index_inv in Hmethod as [-> [(? & _ & [=])|[Hmethod [= ->]]]].
       left. eexists. split; [done|]. split; [done|]. left. split; [done|].
       intros (Hv & _ & _). by apply (Hout _ _linkage_methods _ 7%nat eq_refl Hmethod). }
  apply py_index_inv in Hmethod as [-> [(method & Hmethod & [= ->])|[_ [=]]]].
  bind_step H as Hmetric.
  2: { apply py_index_inv in Hmetric as [-> [(? & _ & [=])|[Hmetric [= ->]]]].
       left. eexists. split; [done|]. split; [done|]. left. split; [done|].
       intros (_ & Hv & _). by apply (Hout _ _linkage_metrics _ 2%nat eq_refl Hmetric). }
  apply py_index_inv in Hmetric as [-> [(metric & Hmetric & [= ->])|[_ [=]]]].
  bind_step H as Hcrit.
  2: { apply py_index_inv in Hcrit as [-> [(? & _ & [=])|[Hcrit [= ->]]]].
       left. eexists. split; [done|]. split; [done|]. left. split; [done|].
       intros (_ & _ & Hv). by apply (Hout _ _criterions _ 5%nat eq_refl Hcrit). }
  apply py_index_inv in Hcrit as [-> [(crit & Hcrit & [= ->])|[_ [=]]]].
  assert (valid_selections (ByIdentifier p)) as Hvalid.
  { repeat split; [by apply (Hin _ _linkage_methods _ _ method eq_refl)
                  |by apply (Hin _ _linkage_metrics _ _ metric eq_refl)
                  |by apply (Hin _ _criterions _ _ crit eq_refl)]. }
  clear Hout Hin.
  bind_step H as Hpct. apply setPercentage_inv in Hpct as [_ Hem0].
  bind_step H as Htol.
  2: { apply check_tolerance_inv in Htol as [Hem1 [[Htol [= ->]]|[_ [=]]]].
       left. eexists. split; [done|]. split; [em|]. right. split; [done|]. by left. }
  apply check_tolerance_inv in Htol as [Hem1 [[_ [=]]|[Htol _]]].
  bind_step H as Hlim.
  2: { apply check_point_limit_inv in Hlim as [Hem2 [[Hlim [= ->]]|[_ [=]]]].
       left. eexists. split; [done|]. split; [em|]. right. split; [done|].
       right. split; [done|]. by left. }
  apply check_point_limit_inv in Hlim as [Hem2 [[_ [=]]|[Hlim [= ->]]]].
  bind_step H as Hinfo. apply setInfo_inv in Hinfo as [_ Hem3].
  bind_step H as Hext.
  2: { apply extract_identified_inv in Hext
         as [Hem4 [(? & [=] & _)|[([= ->] & Hfc & Hfs)|[= ->]]]];
       (left; eexists; split; [done|]; split; [em|]; right; split; [done|];
        right; split; [done|]; right; split; [done|]; auto). }
  apply extract_identified_inv in Hext
    as [Hem4 [(identifiers & [= ->] & Hlen & Hfc)|[([=] & _)|[=]]]].
  simpl in H.
  bind_step H as Hinfo2. apply setInfo_inv in Hinfo2 as [_ Hem5].
  bind_step H as Hdist.
  2: { apply constrained_distances_inv in Hdist
         as [-> [(? & ? & ? & [=] & _)|[[= ->]|(routine & msg & [= ->])]]];
       (left; eexists; split; [done|]; split; [em|]; right; split; [done|];
        right; split; [done|]; right; split; [done|]; eauto 10). }
  apply constrained_distances_inv in Hdist
    as [-> [(v & D & distances & [= ->] & Hv & HD & Hshape & Hre)|[[=]|(? & ? & [=])]]].
  bind_step H as Hpct1. apply setPercentage_inv in Hpct1 as [_ Hem6].
  bind_step H as Hlink.
  2: { apply call_inv in Hlink as [-> [(? & _ & [=])|(msg & _ & [= ->])]].
       left. eexists. split; [done|]. split; [em|]. right. split; [done|].
       right. split; [done|]. right. split; [done|]. eauto 10. }
  apply call_inv in Hlink as [-> [(links & Hlinks & [= ->])|(? & _ & [=])]].
  bind_step H as Hcall.
  2: { apply call_inv in Hcall as [-> [(? & _ & [=])|(msg & _ & [= ->])]].
       left. eexists. split; [done|]. split; [em|]. right. split; [done|].
       right. split; [done|]. right. split; [done|]. eauto 10. }
  apply call_inv in Hcall as [-> [(y & Hy & [= ->])|(? & _ & [=])]].
  bind_step H as Hpct2. apply setPercentage_inv in Hpct2 as [_ Hem7].
  bind_step H as Hinfo3. apply setInfo_inv in Hinfo3 as [_ Hem8].
  right. exists method, metric, crit, identifiers, v, D, distances, links, y.
  repeat (split; [done|]).
  bind_step H as Hwrite.
  - apply write_labelled_inv in Hwrite as (Hc' & Hn' & [(_ & Hw' & Hall & _)|[(? & _)|(? & _)]]);
      [|done|done].
    apply report_num_clusters_inv in H as (-> & Hw'' & Hc'' & Hn'').
    nothing_written Hw'.
    split; [em|]. left. repeat split; [congruence|done|done].
  - apply write_labelled_inv in Hwrite as (Hc' & Hn' & [(? & _)|[(_ & Hfc0 & Hfs0 & _)|([= ->] & Hex)]]);
      [done| |].
    + destruct Hfc as [Hfc|Hfc]; congruence.
    + split; [em|]. right. auto.
Qed.

(** ** What a run that reaches the writing phase emits *)

Lemma remove_dups_fmap_inj {X Y} `{EqDecision X, EqDecision Y} (f : X → Y) (l : list X) :
  Inj (=) (=) f → length (remove_dups (f <$> l)) = length (remove_dups l).
Proof.
  intros Hinj. rewrite <- (length_fmap f (remove_dups l)).
  apply Permutation_length, NoDup_Permutation.
  - apply NoDup_remove_dups.
  - apply NoDup_fmap; [done|apply NoDup_remove_dups].
  - intros y. rewrite elem_of_remove_dups, !list_elem_of_fmap.
    by setoid_rewrite elem_of_remove_dups.
Qed.

(** Under the library contract the labels cover the features, so the
    writing phase cannot stop half-way. *)
Lemma write_outcome_complete layer y s r :
  length y = length (features layer) →
  write_outcome layer y s r →
  r = Ok tt ∧
  written s = labelled (dict_zip (f_id <$> features layer) y) <$> features layer ∧
  num_clusters_out s = Some (py_len (np_unique y)).
Proof.
  intros Hlen [(-> & Hw & _ & Hn)|(_ & Hex)]; [done|].
  apply Exists_exists in Hex as (f & Hf & Hnone).
  destruct (dict_zip_is_Some (f_id <$> features layer) y (f_id f)) as [l Hl].
  - rewrite length_fmap. lia.
  - by apply list_elem_of_fmap_2.
  - congruence.
Qed.

(** The labels of the algorithm by identifier come one per feature. *)
Lemma by_identifier_labels_length lib (pts : list point) (identifiers : list attr)
    metric method v D distances links t crit y :
  LibraryContract lib →
  length identifiers = length pts →
  pdist lib pts metric = inl v →
  squareform_vector v = inl D →
  same_shape D (identifier_mask identifiers) = true →
  squareform_matrix
    (zip_with (zip_with (λ d (b : bool), if b then PosInf else d))
              D (identifier_mask identifiers)) = inl distances →
  linkage lib distances method metric = inl links →
  fcluster lib links t crit = inl y →
  length y = length pts.
Proof.
  intros Hlib Hids Hv HD Hshape Hre Hlinks Hy.
  apply (pdist_length lib Hlib) in Hv.
  apply (linkage_rows lib Hlib) in Hlinks.
  apply (fcluster_labels lib Hlib) in Hy.
  destruct (decide (length pts = 0%nat)) as [H0|H0].
  { rewrite H0 in Hv. simpl in Hv. destruct v; [|done].
    injection HD as <-. destruct identifiers; [|simpl in Hids; lia]. done. }
  rewrite (squareform_vector_triangle (length pts)) in HD by (done || lia).
  injection HD as <-.
  pose proof (decompress_nxn (length pts) v ltac:(lia)) as Hnxn.
  apply (masked_nxn _ _ identifiers PosInf) in Hnxn; [|done].
  apply (squareform_matrix_length _ _ _ Hnxn) in Hre.
  rewrite Hre in Hlinks. apply triangle_inj in Hlinks; lia.
Qed.

(** A successful run wrote every feature of the layer, each with the
    label the library returned at its position, and reported the number
    of distinct values among these labels. *)
Lemma run_success lib cfg op layer s :
  LibraryContract lib → distinct_ids layer →
  run lib cfg op layer = (s, Ok tt) →
  ∃ y, library_returned lib op layer y ∧
       length y = length (features layer) ∧
       written s = zip_with with_label (features layer) y ∧
       num_clusters_out s = Some (py_len (np_unique y)).
Proof.
  intros Hlib Hids Hrun. destruct op as [p|p|p].
  - apply Hierarchical_inv in Hrun as [(e & [=] & _)|Hrun].
    destruct Hrun as (method & metric & crit & y & Hm & Hme & Hc & _ & _ & Hy & _ & Hout).
    pose proof (fclusterdata_labels lib Hlib _ _ _ _ _ _ Hy) as Hlen.
    rewrite length_fmap in Hlen.
    apply write_outcome_complete in Hout as (_ & Hw & Hn); [|done].
    exists y. split; [by exists method, metric, crit|]. split; [done|].
    by rewrite Hw, labelled_dict_zip.
  - apply KMeans_inv in Hrun as [(e & [=] & _)|Hrun].
    destruct Hrun as (mi & cs & y & Hmi & _ & Hy & [[Hout _]|[[=] _]]).
    pose proof (kmeans2_labels lib Hlib _ _ _ _ _ Hy) as (Hlen & _ & _).
    rewrite length_fmap in Hlen.
    apply write_outcome_complete in Hout as (_ & Hw & Hn); [|done].
    exists y. split; [by exists mi, cs|]. split; [done|].
    by rewrite Hw, labelled_dict_zip.
  - apply ByIdentifier_inv in Hrun as [(e & [=] & _)|Hrun].
    destruct Hrun as (method & metric & crit & identifiers & v & D & distances & links & y
                      & Hm & Hme & Hc & _ & _ & Hidl & Hv & HD & Hshape & Hre & Hlinks & Hy
                      & _ & Hout).
    assert (length y = length (features layer)) as Hlen.
    { rewrite <- (length_fmap f_geometry).
      eapply by_identifier_labels_length; try done. by rewrite length_fmap. }
    apply write_outcome_complete in Hout as (_ & Hw & Hn); [|done].
    exists y. split; [by exists method, metric, crit, distances, links|]. split; [done|].
    by rewrite Hw, labelled_dict_zip.
Qed.

(** * The claims *)

Lemma label_of_labelled labels f :
  label_of (labelled labels f) = Some (AInt (default 0 (labels !! f_id f))).
Proof. unfold label_of, labelled. simpl. by rewrite last_snoc. Qed.

(** C9.  Under the library contract, a run of any of the three operations
    that fails has emitted nothing (no feature, no centroid, no cluster
    count), and a run that succeeds has written every feature of the
    layer with an integer label and has set the cluster count. *)
Theorem no_partial_output lib cfg op layer s r :
  LibraryContract lib →
  run lib cfg op layer = (s, r) →
  match r with
  | Raise _ => emitted s = emitted no_outputs
  | Ok _ =>
      length (written s) = length (features layer) ∧
      Forall (λ o, ∃ l, label_of o = Some (AInt l)) (written s) ∧
      is_Some (num_clusters_out s)
  end.
Proof.
  intros Hlib Hrun.
  assert (∀ y, length y = length (features layer) → write_outcome layer y s r →
          match r with
          | Raise _ => emitted s = emitted no_outputs
          | Ok _ =>
              length (written s) = length (features layer) ∧
              Forall (λ o, ∃ l, label_of o = Some (AInt l)) (written s) ∧
              is_Some (num_clusters_out s)
          end) as Hwrite.
  { intros y Hlen Hout.
    apply write_outcome_complete in Hout as (-> & Hw & Hn); [|done].
    rewrite Hw, Hn, length_fmap. split; [done|]. split; [|eauto].
    apply Forall_fmap, Forall_forall. intros f _. simpl.
    rewrite label_of_labelled. eauto. }
  destruct op as [p|p|p].
  - apply Hierarchical_inv in Hrun as [(e & -> & Hem & _)|Hrun]; [done|].
    destruct Hrun as (method & metric & crit & y & _ & _ & _ & _ & _ & Hy & _ & Hout).
    apply (Hwrite y); [|done].
    rewrite (fclusterdata_labels lib Hlib _ _ _ _ _ _ Hy). apply length_fmap.
  - apply KMeans_inv in Hrun as [(e & -> & Hem & _)|Hrun]; [done|].
    destruct Hrun as (mi & cs & y & _ & _ & Hy & Hout).
    pose proof (kmeans2_labels lib Hlib _ _ _ _ _ Hy) as (Hlen & Hk & _).
    destruct Hout as [[Hout _]|[_ Hk0]]; [|lia].
    apply (Hwrite y); [|done]. by rewrite Hlen, length_fmap.
  - apply ByIdentifier_inv in Hrun as [(e & -> & Hem & _)|Hrun]; [done|].
    destruct Hrun as (method & metric & crit & identifiers & v & D & distances & links & y
                      & _ & _ & _ & _ & _ & Hidl & Hv & HD & Hshape & Hre & Hlinks & Hy
                      & _ & Hout).
    apply (Hwrite y); [|done].
    rewrite <- (length_fmap f_geometry).
    eapply by_identifier_labels_length; try done. by rewrite length_fmap.
Qed.

(** The reported count and the labels of a successful run. *)
Lemma success_counts lib cfg op layer s :
  LibraryContract lib → distinct_ids layer →
  run lib cfg op layer = (s, Ok tt) →
  ∃ y, library_returned lib op layer y ∧
       int_labels s = y ∧
       distinct_labels s = length (remove_dups y) ∧
       num_clusters_out s = Some (Z.of_nat (distinct_labels s)).
Proof.
  intros Hlib Hids Hrun.
  destruct (run_success lib cfg op layer s Hlib Hids Hrun) as (y & Hret & Hlen & Hw & Hn).
  destruct (int_labels_with_label _ _ _ Hw Hlen) as [Hlabels Hint].
  exists y. split; [done|]. split; [done|].
  assert (distinct_labels s = length (remove_dups y)) as Hd.
  { unfold distinct_labels. rewrite Hlabels.
    apply remove_dups_fmap_inj. by intros l1 l2 [= ->]. }
  split; [done|].
  rewrite Hn, Hd. unfold py_len. by rewrite np_unique_distinct.
Qed.

(** C10.  Under the library contract and with distinct feature ids, the
    cluster count that a successful run of any of the three operations
    reports is the number of distinct labels on the written features. *)
Theorem num_clusters_counts_distinct_labels lib cfg op layer s :
  LibraryContract lib → distinct_ids layer →
  run lib cfg op layer = (s, Ok tt) →
  num_clusters_out s = Some (Z.of_nat (distinct_labels s)).
Proof.
  intros Hlib Hids Hrun.
  by destruct (success_counts lib cfg op layer s Hlib Hids Hrun) as (y & _ & _ & _ & Hn).
Qed.

(** C3, as the code has it.  Under the library contract and with distinct
    feature ids, a successful k-means run reports the number of distinct
    labels that [kmeans2] returned, and this number is at most [k]. *)
Theorem kmeans_cluster_count_at_most_k lib cfg p layer s :
  LibraryContract lib → distinct_ids layer →
  run lib cfg (KMeans p) layer = (s, Ok tt) →
  num_clusters_out s = Some (Z.of_nat (distinct_labels s)) ∧
  Z.of_nat (distinct_labels s) ≤ py_int (K p).
Proof.
  intros Hlib Hids Hrun.
  destruct (success_counts lib cfg _ layer s Hlib Hids Hrun)
    as (y & (mi & cs & _ & Hy) & _ & Hd & Hn).
  split; [done|].
  pose proof (kmeans2_labels lib Hlib _ _ _ _ _ Hy) as (_ & Hk & Hrange).
  rewrite Hd.
  assert (remove_dups y ⊆+ seqZ 0 (py_int (K p))) as Hsub.
  { apply NoDup_submseteq; [apply NoDup_remove_dups|].
    intros l Hl. rewrite elem_of_remove_dups in Hl.
    rewrite Forall_forall in Hrange. apply Hrange in Hl.
    apply elem_of_seqZ. lia. }
  apply submseteq_length in Hsub. rewrite length_seqZ in Hsub. lia.
Qed.

(** C8, as the code has it.  A hierarchical run (either variant) with
    valid selections fails with [ValueError("Tolerance <= zero")] exactly
    when the tolerance is not positive, whatever the criterion, and it
    has then emitted nothing.  With a positive tolerance the run succeeds
    unless the point limit is exceeded, no feature is selected, a field or
    a label is missing, the mask does not fit, or the library raises: the
    operation has no check that involves the criterion. *)
Theorem tolerance_check_ignores_criterion lib cfg op layer s r tol :
  hierarchical_tolerance op = Some tol →
  valid_selections op →
  run lib cfg op layer = (s, r) →
  (r = Raise (ValueError "Tolerance <= zero") ↔ (tol ≤ 0)%Qc) ∧
  (r = Raise (ValueError "Tolerance <= zero") → emitted s = emitted no_outputs) ∧
  ((0 < tol)%Qc →
   r = Ok tt ∨ r = Raise (ValueError "Feature Count > point limit") ∨
   r = Raise ZeroDivisionError ∨ r = Raise KeyError ∨ r = Raise IndexError ∨
   ∃ routine msg, r = Raise (LibraryError routine msg)).
Proof.
  intros Htol Hvalid Hrun. destruct op as [p|p|p]; simplify_eq/=.
  - apply Hierarchical_inv in Hrun as [(e & -> & Hem & Hcase)|Hrun].
    + split; [|split; [done|]].
      * destruct Hcase as [[_ Hn]|[_ [[-> Hle]|[Hlt Hcase]]]]; [done|done|].
        assert (¬ (TOLERANCE p ≤ 0)%Qc) by by apply Qclt_not_le.
        destruct Hcase as [[-> _]|[_ [(-> & _)|[msg ->]]]]; split; done.
      * intros Hpos. assert (¬ (TOLERANCE p ≤ 0)%Qc) by by apply Qclt_not_le.
        destruct Hcase as [[_ Hn]|[_ [[-> Hle]|[Hlt Hcase]]]]; [done|done|].
        destruct Hcase as [[-> _]|[_ [(-> & _)|[msg ->]]]]; eauto 10.
    + destruct Hrun as (method & metric & crit & y & _ & _ & _ & Hlt & _ & _ & _ & Hout).
      assert (¬ (TOLERANCE p ≤ 0)%Qc) by by apply Qclt_not_le.
      destruct Hout as [(-> & _)|(-> & _)]; repeat split; try done; auto.
  - apply ByIdentifier_inv in Hrun as [(e & -> & Hem & Hcase)|Hrun].
    + split; [|split; [done|]].
      * destruct Hcase as [[_ Hn]|[_ [[-> Hle]|[Hlt Hcase]]]]; [done|done|].
        assert (¬ (TOLERANCE (BASE p) ≤ 0)%Qc) by by apply Qclt_not_le.
        destruct Hcase as [[-> _]|[_ [->|[->|[->|(routine & msg & ->)]]]]]; split; done.
      * intros Hpos.
        assert (¬ (TOLERANCE (BASE p) ≤ 0)%Qc) by by apply Qclt_not_le.
        destruct Hcase as [[_ Hn]|[_ [[-> Hle]|[Hlt Hcase]]]]; [done|done|].
        destruct Hcase as [[-> _]|[_ [->|[->|[->|(routine & msg & ->)]]]]]; eauto 10.
    + destruct Hrun as (method & metric & crit & identifiers & v & D & distances & links & y
                        & _ & _ & _ & Hlt & _ & _ & _ & _ & _ & _ & _ & _ & _ & Hout).
      assert (¬ (TOLERANCE (BASE p) ≤ 0)%Qc) by by apply Qclt_not_le.
      destruct Hout as [(-> & _)|(-> & _)]; repeat split; try done; auto.
Qed.

(** C4, as the code has it.  A k-means run with a valid selection fails
    with [ValueError("K is not an integer")], having emitted nothing,
    when [K] is not a whole number; when [K] is whole the run succeeds
    unless no feature is selected, a label is missing, the centroid loop
    divides by [k = 0], or [kmeans2] itself raises: the operation has no
    check of its own on [k < 2], [k > n] or [n < 2]. *)
Theorem kmeans_validates_only_whole_K lib cfg p layer s r :
  valid_selections (KMeans p) →
  run lib cfg (KMeans p) layer = (s, r) →
  (Z2Qc (py_int (K p)) ≠ K p →
   r = Raise (ValueError "K is not an integer") ∧ emitted s = emitted no_outputs) ∧
  (Z2Qc (py_int (K p)) = K p →
   r = Ok tt ∨ r = Raise ZeroDivisionError ∨ r = Raise KeyError ∨
   ∃ msg, r = Raise (LibraryError "kmeans2" msg)).
Proof.
  intros Hvalid Hrun.
  apply KMeans_inv in Hrun as [(e & -> & Hem & Hcase)|Hrun].
  - destruct Hcase as [[_ Hn]|[_ [[-> Hne]|[Heq Hcase]]]]; [done| |].
    + split; [done|]. intros Heq. done.
    + split; [done|]. intros _.
      destruct Hcase as [(-> & _)|[msg ->]]; eauto.
  - destruct Hrun as (mi & cs & y & _ & Heq & _ & Hout).
    split; [done|]. intros _.
    destruct Hout as [[[(-> & _)|(-> & _)] _]|[-> _]]; auto.
Qed.

(** * The reference library meets the contract *)

Section reference.

Import Reference.

Lemma condensed_length pts : length (condensed pts) = triangle (length pts).
Proof.
  induction pts as [|p rest IH]; simpl; [done|].
  by rewrite length_app, length_map, IH.
Qed.

Lemma squareform_vector_inv v D :
  squareform_vector v = inl D →
  length v = triangle (length D) ∧ (1 ≤ length D)%nat.
Proof.
  unfold squareform_vector.
  destruct (Nat.eqb_spec (length v) 0) as [H0|H0].
  - intros [= <-]. by rewrite H0.
  - remember (Nat.sqrt_up (2 * length v)) as d eqn:Hdd. clear Hdd.
    destruct (Nat.eqb_spec (d * (d - 1)) (2 * length v)) as [Hd|Hd]; [|done].
    intros [= <-].
    pose proof (triangle_double d) as Ht.
    assert (triangle d = length v) as Hv by lia.
    destruct (decompress_nxn d v ltac:(lia)) as [-> _].
    split; [done|]. destruct d; simpl in *; lia.
Qed.

Lemma elem_of_index_pairs n i j :
  (i, j) ∈ index_pairs n ↔ (i < j < n)%nat.
Proof.
  unfold index_pairs. rewrite list_elem_of_bind. split.
  - intros (i' & Hj & Hi). apply elem_of_seq in Hi.
    apply list_elem_of_bind in Hj as (j' & Hij & Hj).
    apply elem_of_seq in Hj. apply list_elem_of_singleton in Hij as [= -> ->]. lia.
  - intros Hij. exists i. split; [|apply elem_of_seq; lia].
    apply list_elem_of_bind. exists j. split; [by apply list_elem_of_singleton|].
    apply elem_of_seq. lia.
Qed.

Lemma best_pair_in_range D live :
  (2 ≤ length live)%nat →
  ∃ i j, best_pair D live = Some (i, j) ∧ (i < j < length live)%nat.
Proof.
  intros Hlen. unfold best_pair.
  assert (∀ l init,
            match foldl (λ best ij,
                           match best with
                           | None => Some ij
                           | Some b => if xreal_ltb (pair_dist D live ij) (pair_dist D live b)
                                       then Some ij else best
                           end) init l with
            | Some x => x ∈ l ∨ init = Some x
            | None => init = None ∧ l = []
            end) as Hfold.
  { induction l as [|ij l IH]; intros init; simpl.
    - destruct init; auto.
    - specialize (IH (match init with
                      | None => Some ij
                      | Some b => if xreal_ltb (pair_dist D live ij) (pair_dist D live b)
                                  then Some ij else init
                      end)).
      destruct (foldl _ _ l) as [x|].
      + destruct IH as [Hx|Hx]; [left; by right|].
        destruct init as [b|]; [|injection Hx as ->; left; by left].
        destruct (xreal_ltb _ _); [injection Hx as ->; left; by left|by right].
      + destruct IH as [Hnone _]. destruct init as [b|]; [|done].
        by destruct (xreal_ltb _ _). }
  specialize (Hfold (index_pairs (length live)) None).
  destruct (foldl _ _ _) as [[i j]|].
  - destruct Hfold as [Hin|[=]]. apply elem_of_index_pairs in Hin. eauto.
  - destruct Hfold as [_ Hnil].
    assert ((0%nat, 1%nat) ∈ index_pairs (length live)) as Hin
      by (apply elem_of_index_pairs; lia).
    rewrite Hnil in Hin. by apply elem_of_nil in Hin.
Qed.

Lemma merge_step_length D next_id live :
  (2 ≤ length live)%nat →
  ∃ row live', merge_step D next_id live = Some (row, live') ∧
               S (length live') = length live.
Proof.
  intros Hlen. unfold merge_step.
  destruct (best_pair_in_range D live Hlen) as (i & j & -> & Hij).
  destruct (lookup_lt_is_Some_2 live i) as [a ->]; [lia|].
  destruct (lookup_lt_is_Some_2 live j) as [b ->]; [lia|].
  eexists _, _. split; [done|].
  assert (length (delete j live) = (length live - 1)%nat) as Hj.
  { apply length_delete, lookup_lt_is_Some_2. lia. }
  assert (length (delete i (delete j live)) = (length live - 2)%nat) as Hi.
  { rewrite length_delete; [lia|]. apply lookup_lt_is_Some_2. lia. }
  rewrite length_app, Hi. simpl. lia.
Qed.

Lemma agglomerate_length D merges : ∀ next_id live,
  length live = S merges → length (agglomerate D merges next_id live) = merges.
Proof.
  induction merges as [|m IH]; intros next_id live Hlen; simpl; [done|].
  destruct (merge_step_length D next_id live ltac:(lia)) as (row & live' & -> & Hlen').
  simpl. rewrite IH; [done|lia].
Qed.

Lemma linkage_length y method metric links :
  Reference.linkage y method metric = inl links →
  length y = triangle (S (length links)).
Proof.
  unfold Reference.linkage. destruct method; try done.
  destruct (Nat.eqb_spec (length y) 0) as [H0|H0]; [done|].
  destruct (squareform_vector y) as [D|] eqn:HD; [|done].
  apply squareform_vector_inv in HD as [Hy Hn].
  intros [= <-]. rewrite agglomerate_length.
  - rewrite Hy. f_equal. lia.
  - rewrite length_map, length_seq. lia.
Qed.

Lemma label_walk_length depth n links MC cutoff : ∀ node inside st,
  length (label_walk depth n links MC cutoff node inside st).2 = length st.2.
Proof.
  induction depth as [|depth IH]; intros node inside st; [done|].
  cbn [label_walk].
  destruct (links !! (node - n)%nat) as [row|]; [|done].
  destruct (MC !! (node - n)%nat) as [mc|]; [|done].
  cbv zeta.
  set (inside' := inside || (negb inside && xreal_leb mc cutoff)).
  set (st0 := if negb inside && xreal_leb mc cutoff then (st.1 + 1, st.2) else st).
  assert (length st0.2 = length st.2) as H0.
  { unfold st0. by destruct (negb inside && xreal_leb mc cutoff). }
  set (st1 := if decide (n ≤ row_left row)%nat
              then label_walk depth n links MC cutoff (row_left row) inside' st0
              else st0).
  assert (length st1.2 = length st.2) as H1.
  { unfold st1. case_decide; by rewrite ?IH. }
  set (st2 := if decide (n ≤ row_right row)%nat
              then label_walk depth n links MC cutoff (row_right row) inside' st1
              else st1).
  assert (length st2.2 = length st.2) as H2.
  { unfold st2. case_decide; by rewrite ?IH. }
  clearbody st2. clear st1 H1 st0 H0.
  case_decide; case_decide; simpl; by rewrite ?length_insert.
Qed.

Lemma fcluster_length links t crit y :
  Reference.fcluster links t crit = inl y → length y = S (length links).
Proof.
  unfold Reference.fcluster.
  destruct crit; [|intros [=]..].
  destruct links as [|row links]; [intros [=]|].
  match goal with
  | |- context [label_walk ?d ?n ?l ?mc ?c ?nd ?i ?st] =>
      pose proof (label_walk_length d n l mc c nd i st) as Hw;
      set (w := label_walk d n l mc c nd i st) in *
  end.
  clearbody w. intros [= <-]. rewrite Hw. cbn [snd]. apply length_replicate.
Qed.

Lemma pdist_ref_length pts metric v :
  Reference.pdist pts metric = inl v → length v = triangle (length pts).
Proof.
  unfold Reference.pdist. destruct pts as [|p pts]; [done|].
  destruct metric; [done|]. intros [= <-]. apply (condensed_length (p :: pts)).
Qed.

Lemma fclusterdata_length pts t crit method metric y :
  Reference.fclusterdata pts t crit method metric = inl y → length y = length pts.
Proof.
  unfold Reference.fclusterdata.
  destruct (Reference.pdist pts metric) as [v|] eqn:Hv; [|done].
  destruct (Reference.linkage v method metric) as [links|] eqn:Hl; [|done].
  intros Hy. apply fcluster_length in Hy. apply linkage_length in Hl.
  assert (pts ≠ []) as Hne by (intros ->; done).
  apply pdist_ref_length in Hv. rewrite Hv in Hl.
  apply triangle_inj in Hl; [lia| |lia].
  destruct pts; [done|simpl; lia].
Qed.

Lemma nearest_from_lt p code : ∀ i best,
  (best.1 < i)%nat → ((nearest_from p code i best).1 < i + length code)%nat.
Proof.
  induction code as [|c code IH]; intros i best Hbest; simpl; [lia|].
  eapply Nat.lt_le_trans; [apply IH|lia].
  case_decide; simpl; lia.
Qed.

Lemma nearest_lt code p : code ≠ [] → (nearest code p < length code)%nat.
Proof.
  destruct code as [|c code]; [done|]. intros _. unfold nearest.
  pose proof (nearest_from_lt p code 1 (0%nat, sqdist p c)) as H.
  simpl in *. lia.
Qed.

Lemma vq_labels data code :
  code ≠ [] →
  length (vq data code) = length data ∧
  Forall (λ l, (l < length code)%nat) (vq data code).
Proof.
  intros Hcode. unfold vq. split; [apply length_map|].
  apply Forall_fmap, Forall_forall. intros p _. by apply nearest_lt.
Qed.

Lemma kmeans_loop_labels data niter : ∀ code label,
  code ≠ [] →
  ((0 < niter)%nat ∨
   (length label = length data ∧ Forall (λ l, (l < length code)%nat) label)) →
  length (kmeans_loop niter data code label).1 = length code ∧
  length (kmeans_loop niter data code label).2 = length data ∧
  Forall (λ l, (l < length code)%nat) (kmeans_loop niter data code label).2.
Proof.
  induction niter as [|niter IH]; intros code label Hcode Hlabel; simpl.
  - destruct Hlabel as [?|[? ?]]; [lia|done].
  - destruct (vq_labels data code Hcode) as [Hlen Hall].
    assert (length (imap (λ c old, default old (cluster_mean data (vq data code) c)) code)
            = length code) as Hnew by apply length_imap.
    destruct (IH (imap (λ c old, default old (cluster_mean data (vq data code) c)) code)
                 (vq data code)) as (H1 & H2 & H3).
    + intros Hnil. rewrite Hnil in Hnew. destruct code; simpl in *; done.
    + right. by rewrite Hnew.
    + rewrite Hnew in H1, H3. done.
Qed.

Lemma kmeans2_contract r pts k mi centroids y :
  Reference.kmeans2 r pts k mi = inl (centroids, y) →
  length y = length pts ∧ 0 < k ∧ Forall (λ l, 0 ≤ l < k) y.
Proof.
  unfold Reference.kmeans2.
  destruct (decide (pts = [])) as [|Hpts]; [done|].
  destruct (decide (k < 1)) as [|Hk]; [done|].
  set (init := match mi with
               | random => krandinit r pts (Z.to_nat k)
               | points => inl (omap (λ i, pts !! i)
                                     (take (Z.to_nat k) (permutation r (length pts))))
               end).
  clearbody init. destruct init as [code|]; [|done].
  destruct (decide (length code = Z.to_nat k)) as [Hcode|]; [|done].
  assert (code ≠ []) as Hne by (intros ->; simpl in *; lia).
  destruct (kmeans_loop_labels pts 10 code [] Hne ltac:(left; lia)) as (_ & H2 & H3).
  destruct (kmeans_loop 10 pts code []) as [code' label].
  intros [= <- <-]. simpl in *.
  rewrite length_fmap. split; [done|]. split; [lia|].
  apply Forall_fmap. eapply Forall_impl; [exact H3|].
  simpl. intros l Hl. lia.
Qed.

(** The reference library meets the contract, whatever the draws. *)
Lemma scipy_contract r : LibraryContract (Reference.scipy r).
Proof.
  split; simpl.
  - apply fclusterdata_length.
  - apply pdist_ref_length.
  - apply linkage_length.
  - apply fcluster_length.
  - apply kmeans2_contract.
Qed.

End reference.

(** * Concrete runs *)

(** Proves [run ... = (out.1, Ok tt)] for the concrete run [out] by
    evaluating its result. *)
Ltac by_evaluation out :=
  let H := fresh "H" in
  assert (out.2 = Ok tt) as H by (vm_compute; reflexivity);
  rewrite <- H; apply surjective_pairing.

Lemma distinct_ids_apart : distinct_ids layer_apart.
Proof. unfold distinct_ids. refine (bool_decide_unpack _ _). by vm_compute. Qed.

Lemma distinct_ids_coincident : distinct_ids layer_coincident.
Proof. unfold distinct_ids. refine (bool_decide_unpack _ _). by vm_compute. Qed.

Lemma no_partial_output_witness :
  let out := run scipy_draw (Config 2)
               (ByIdentifier (ByIdentifierParams
                  (HierarchicalParams (Z2Qc 2) "label" 0 1 0) "ident")) layer_apart in
  match out.2 with
  | Raise _ => emitted out.1 = emitted no_outputs
  | Ok _ =>
      length (written out.1) = length (features layer_apart) ∧
      Forall (λ o, ∃ l, label_of o = Some (AInt l)) (written out.1) ∧
      is_Some (num_clusters_out out.1)
  end.
Proof.
  intros out.
  apply (no_partial_output scipy_draw (Config 2)
           (ByIdentifier (ByIdentifierParams
              (HierarchicalParams (Z2Qc 2) "label" 0 1 0) "ident")) layer_apart
           out.1 out.2).
  - apply scipy_contract.
  - apply surjective_pairing.
Defined.

Lemma num_clusters_counts_distinct_labels_witness :
  let out := run scipy_draw (Config 100)
               (Hierarchical (HierarchicalParams (Z2Qc 2) "label" 0 1 0)) layer_apart in
  num_clusters_out out.1 = Some (Z.of_nat (distinct_labels out.1)).
Proof.
  intros out.
  apply (num_clusters_counts_distinct_labels scipy_draw (Config 100)
           (Hierarchical (HierarchicalParams (Z2Qc 2) "label" 0 1 0)) layer_apart out.1).
  - apply scipy_contract.
  - apply distinct_ids_apart.
  - by_evaluation out.
Defined.


(** C3, counterexample.  Three coincident points, [k = 2], initial
    centroids taken from the points: both centroids start at the same
    place, every point goes to centroid 0, cluster 1 stays empty, and the
    run succeeds with one distinct label. *)
Lemma kmeans_empty_cluster_survives :
  let p := KMeansParams (Z2Qc 2) 1 "label" in
  let out := run scipy_draw (Config 100) (KMeans p) layer_coincident in
  py_int (K p) = 2 ∧
  out.2 = Ok tt ∧
  int_labels out.1 = [0; 0; 0] ∧
  distinct_labels out.1 = 1%nat ∧
  num_clusters_out out.1 = Some 1.
Proof. vm_compute. repeat split; reflexivity. Qed.

Lemma kmeans_cluster_count_at_most_k_witness :
  let p := KMeansParams (Z2Qc 2) 1 "label" in
  let out := run scipy_draw (Config 100) (KMeans p) layer_coincident in
  num_clusters_out out.1 = Some (Z.of_nat (distinct_labels out.1)) ∧
  Z.of_nat (distinct_labels out.1) ≤ py_int (K p).
Proof.
  intros p out.
  apply (kmeans_cluster_count_at_most_k scipy_draw (Config 100) p layer_coincident out.1).
  - apply scipy_contract.
  - apply distinct_ids_coincident.
  - by_evaluation out.
Defined.

(** C4, counterexample.  [k = 5] on three points with the [random]
    initialisation: [k > n], and the run succeeds and writes the three
    features. *)
Lemma kmeans_accepts_k_above_n :
  let p := KMeansParams (Z2Qc 5) 0 "label" in
  let out := run scipy_draw (Config 100) (KMeans p) layer_apart in
  spec_kmeans_invalid (py_int (K p)) (length (features layer_apart)) ∧
  out.2 = Ok tt ∧
  length (written out.1) = 3%nat.
Proof.
  split; [right; left; by vm_compute|].
  vm_compute. split; reflexivity.
Qed.

Lemma kmeans_validates_only_whole_K_witness :
  let p := KMeansParams (Q2Qc (5 # 2)) 1 "label" in
  let out := run scipy_draw (Config 100) (KMeans p) layer_apart in
  (Z2Qc (py_int (K p)) ≠ K p →
   out.2 = Raise (ValueError "K is not an integer") ∧ emitted out.1 = emitted no_outputs) ∧
  (Z2Qc (py_int (K p)) = K p →
   out.2 = Ok tt ∨ out.2 = Raise ZeroDivisionError ∨ out.2 = Raise KeyError ∨
   ∃ msg, out.2 = Raise (LibraryError "kmeans2" msg)).
Proof.
  intros p out.
  apply (kmeans_validates_only_whole_K scipy_draw (Config 100) p layer_apart out.1 out.2).
  - simpl. lia.
  - apply surjective_pairing.
Defined.

(** C8, counterexample.  Criterion [monocrit] with tolerance 0: the
    specification's condition for the error does not hold, and the run
    fails with [ValueError("Tolerance <= zero")]. *)
Lemma nonpositive_tolerance_rejected_under_monocrit :
  let p := HierarchicalParams 0%Qc "label" 0 1 3 in
  let out := run scipy_draw (Config 100) (Hierarchical p) layer_apart in
  _criterions !! CRITERION p = Some monocrit ∧
  ¬ spec_threshold_error monocrit (TOLERANCE p) (length (features layer_apart)) ∧
  out.2 = Raise (ValueError "Tolerance <= zero").
Proof.
  split; [reflexivity|]. split; [intros []|]. vm_compute. reflexivity.
Qed.

Lemma tolerance_check_ignores_criterion_witness :
  let op := Hierarchical (HierarchicalParams (Z2Qc (-1)) "label" 0 1 2) in
  let out := run scipy_draw (Config 100) op layer_apart in
  (out.2 = Raise (ValueError "Tolerance <= zero") ↔ (Z2Qc (-1) ≤ 0)%Qc) ∧
  (out.2 = Raise (ValueError "Tolerance <= zero") → emitted out.1 = emitted no_outputs) ∧
  ((0 < Z2Qc (-1))%Qc →
   out.2 = Ok tt ∨ out.2 = Raise (ValueError "Feature Count > point limit") ∨
   out.2 = Raise ZeroDivisionError ∨ out.2 = Raise KeyError ∨ out.2 = Raise IndexError ∨
   ∃ routine msg, out.2 = Raise (LibraryError routine msg)).
Proof.
  intros op out.
  apply (tolerance_check_ignores_criterion scipy_draw (Config 100) op layer_apart
           out.1 out.2 (Z2Qc (-1))).
  - reflexivity.
  - simpl. lia.
  - apply surjective_pairing.
Defined.

(** The hierarchical operations enforce the point limit: with valid
    selections and a positive tolerance, a layer whose selected feature
    count exceeds the limit is rejected before anything is read. *)
Lemma point_limit_enforced lib cfg op layer s r tol :
  hierarchical_tolerance op = Some tol → (0 < tol)%Qc →
  valid_selections op →
  selectedFeatureCount layer > POINT_LIMIT cfg →
  run lib cfg op layer = (s, r) →
  r = Raise (ValueError "Feature Count > point limit") ∧
  emitted s = emitted no_outputs.
Proof.
  intros Htol Hpos Hvalid Hover Hrun.
  assert (¬ (tol ≤ 0)%Qc) as Hnle by by apply Qclt_not_le.
  destruct op as [p|p|p]; simplify_eq/=.
  - apply Hierarchical_inv in Hrun as [(e & -> & Hem & Hcase)|Hrun].
    + destruct Hcase as [[_ Hn]|[_ [[_ Hle]|[_ Hcase]]]]; [done|done|].
      destruct Hcase as [[-> _]|[Hle _]]; [done|lia].
    + destruct Hrun as (? & ? & ? & ? & _ & _ & _ & _ & Hle & _). lia.
  - apply ByIdentifier_inv in Hrun as [(e & -> & Hem & Hcase)|Hrun].
    + destruct Hcase as [[_ Hn]|[_ [[_ Hle]|[_ Hcase]]]]; [done|done|].
      destruct Hcase as [[-> _]|[Hle _]]; [done|lia].
    + destruct Hrun as (? & ? & ? & ? & ? & ? & ? & ? & ? & _ & _ & _ & _ & Hle & _). lia.
Qed.

(** The k-means operation never reads the point limit. *)
Lemma kmeans_never_reads_point_limit lib cfg cfg' p layer :
  run lib cfg (KMeans p) layer = run lib cfg' (KMeans p) layer.
Proof. reflexivity. Qed.

(** C7, at the failing input.  Point limit 2, three selected points:
    the hierarchical operation rejects the layer, the k-means operation
    clusters it and writes the three features. *)
Theorem kmeans_ignores_point_limit :
  let cfg := Config 2 in
  let out := run scipy_draw cfg (KMeans (KMeansParams (Z2Qc 2) 1 "label")) layer_apart in
  selectedFeatureCount layer_apart > POINT_LIMIT cfg ∧
  length (features layer_apart) = 3%nat ∧
  (run scipy_draw cfg (Hierarchical (HierarchicalParams (Z2Qc 2) "label" 0 1 0))
       layer_apart).2 = Raise (ValueError "Feature Count > point limit") ∧
  out.2 = Ok tt ∧
  length (written out.1) = 3%nat ∧
  num_clusters_out out.1 = Some 2.
Proof. vm_compute. repeat split; reflexivity. Qed.

(** Scenario A with the cityblock metric: two close pairs, two clusters. *)
Example scenario_A :
  let out := run scipy_draw (Config 100)
               (Hierarchical (HierarchicalParams (Z2Qc 2) "label" 0 1 0)) layer_pairs in
  out.2 = Ok tt ∧ int_labels out.1 = [1; 1; 2; 2] ∧ num_clusters_out out.1 = Some 2.
Proof. vm_compute. repeat split; reflexivity. Qed.

(** Scenario C with the cityblock metric, on a linkage that takes [+inf]
    as a distance: a tolerance that merges the three points without the
    constraint keeps the point of the other group apart with it. *)
Example scenario_C :
  let p := HierarchicalParams (Z2Qc 5) "label" 0 1 0 in
  let free := run scipy_draw (Config 100) (Hierarchical p) layer_line in
  let constrained :=
    run scipy_draw (Config 100) (ByIdentifier (ByIdentifierParams p "ident")) layer_line in
  int_labels free.1 = [1; 1; 1] ∧
  constrained.2 = Ok tt ∧ int_labels constrained.1 = [1; 1; 2].
Proof. vm_compute. repeat split; reflexivity. Qed.

(** * Further properties *)

(** ** Error messages *)

Section reports.

Context {A B : Type}.

Lemma reports_bind (m : M A) (k : A → M B) :
  reports_errors m → (∀ a, reports_errors (k a)) → reports_errors (bind m k).
Proof.
  intros Hm Hk s s' r H. bind_step H as Hstep.
  - destruct (Hm _ _ _ Hstep) as (evs1 & Hlog1 & Hq1). simpl in Hq1.
    destruct (Hk _ _ _ _ H) as (evs2 & Hlog2 & Hr2).
    exists (evs2 ++ evs1). split; [by rewrite Hlog2, Hlog1, app_assoc|].
    destruct r as [b|[]]; simpl in *; try (by apply Forall_app).
    destruct Hr2 as (m0 & rest & -> & Ha & Hq2).
    exists m0, (rest ++ evs1). split; [done|]. split; [done|]. by apply Forall_app.
  - destruct (Hm _ _ _ Hstep) as (evs1 & Hlog1 & Hr1).
    exists evs1. split; [done|]. by destruct e.
Qed.

Lemma reports_ret (a : A) : reports_errors (ret a).
Proof. intros s s' r [= <- <-]. exists []. split; [done|]. constructor. Qed.

Lemma reports_raise (e : exn) :
  (∀ msg, e ≠ ValueError msg) → reports_errors (raise e : M A).
Proof.
  intros He s s' r [= <- <-]. exists []. split; [done|].
  destruct e; try constructor. by destruct (He msg).
Qed.

Lemma reports_announced (m : message) (msg : string) :
  announces m (ValueError msg) →
  reports_errors (setInfo m true >>> (raise (ValueError msg) : M A)).
Proof.
  intros Ha s s' r H. bind_step H as Hinfo.
  injection Hinfo as <-. injection H as <- <-.
  exists [SetInfo m true]. split; [done|]. exists m, []. repeat split; [done|constructor].
Qed.

Lemma reports_call routine (x : lib_result A) : reports_errors (call routine x).
Proof.
  intros s s' r H. apply call_inv in H as [-> [(a & _ & ->)|(msg & _ & ->)]];
    exists []; (split; [done|constructor]).
Qed.

Lemma reports_py_index (l : list A) i : reports_errors (py_index l i).
Proof.
  intros s s' r H. apply py_index_inv in H as [-> [(a & _ & ->)|[_ ->]]];
    exists []; (split; [done|constructor]).
Qed.

Lemma reports_for_enumerate {S} (xs : list A) (body : Z → A → S → M S) :
  (∀ i x acc, reports_errors (body i x acc)) →
  ∀ i acc, reports_errors (for_enumerate i xs acc body).
Proof.
  intros Hbody. induction xs as [|x xs IH]; intros i acc; simpl.
  - intros s s' r [= <- <-]. exists []. split; [done|]. constructor.
  - intros s s' r H. bind_step H as Hstep.
    + destruct (Hbody _ _ _ _ _ _ Hstep) as (evs1 & Hlog1 & Hq1). simpl in Hq1.
      destruct (IH _ _ _ _ _ H) as (evs2 & Hlog2 & Hr2).
      exists (evs2 ++ evs1). split; [by rewrite Hlog2, Hlog1, app_assoc|].
      destruct r as [b|[]]; simpl in *; try (by apply Forall_app).
      destruct Hr2 as (m0 & rest & -> & Ha & Hq2).
      exists m0, (rest ++ evs1). split; [done|]. split; [done|]. by apply Forall_app.
    + destruct (Hbody _ _ _ _ _ _ Hstep) as (evs1 & Hlog1 & Hr1).
      exists evs1. split; [done|]. by destruct e.
Qed.

End reports.

Lemma reports_setPercentage p : reports_errors (setPercentage p).
Proof.
  intros s s' r [= <- <-]. exists [SetPercentage p]. split; [done|]. by repeat constructor.
Qed.

Lemma reports_setInfo m : reports_errors (setInfo m false).
Proof.
  intros s s' r [= <- <-]. exists [SetInfo m false]. split; [done|]. by repeat constructor.
Qed.

Lemma reports_addFeature f : reports_errors (addFeature f).
Proof. intros s s' r [= <- <-]. exists []. split; [done|]. constructor. Qed.

Lemma reports_addCentroid f : reports_errors (addCentroid f).
Proof. intros s s' r [= <- <-]. exists []. split; [done|]. constructor. Qed.

Lemma reports_setOutputValue n : reports_errors (setOutputValue n).
Proof. intros s s' r [= <- <-]. exists []. split; [done|]. constructor. Qed.

(** Proves [reports_errors m] by following the structure of [m]. *)
Ltac head_of t :=
  lazymatch t with
  | ?f _ => head_of f
  | _ => t
  end.

Ltac reports :=
  cbv beta;
  lazymatch goal with
  | |- reports_errors (bind (setInfo _ true) _) => apply reports_announced; reflexivity
  | |- reports_errors (bind _ _) => apply reports_bind; [reports | intros ?; reports]
  | |- reports_errors (ret _) => apply reports_ret
  | |- reports_errors (raise _) => apply reports_raise; discriminate
  | |- reports_errors (call _ _) => apply reports_call
  | |- reports_errors (py_index _ _) => apply reports_py_index
  | |- reports_errors (setPercentage _) => apply reports_setPercentage
  | |- reports_errors (setInfo _ false) => apply reports_setInfo
  | |- reports_errors (addFeature _) => apply reports_addFeature
  | |- reports_errors (addCentroid _) => apply reports_addCentroid
  | |- reports_errors (setOutputValue _) => apply reports_setOutputValue
  | |- reports_errors (for_enumerate _ _ _ _) =>
      apply reports_for_enumerate; intros ? ? ?; reports
  | |- reports_errors (if ?c then _ else _) => destruct c; reports
  | |- reports_errors (match ?x with _ => _ end) => destruct x; reports
  | |- reports_errors ?m => let h := head_of m in unfold h; reports
  end.

Lemma processAlgorithm_reports lib cfg op layer :
  reports_errors (processAlgorithm lib cfg op layer).
Proof. destruct op; reports. Qed.

(** X1.  Whatever the library does, the progress events of a run fit its
    result: a run that succeeds has told the user of no error; a run
    that ends in a [ValueError] of the plugin's own checks has its error
    message as the newest event, and no other error message; a run that
    ends in any other exception (division by a zero feature count,
    missing field or label, bad selection, library) has told the user of
    no error. *)
Theorem errors_are_announced lib cfg op layer :
  reported (progress_log (run lib cfg op layer).1) (run lib cfg op layer).2.
Proof.
  destruct (processAlgorithm_reports lib cfg op layer no_outputs
              (run lib cfg op layer).1 (run lib cfg op layer).2)
    as (evs & Hlog & Hrep); [apply surjective_pairing|].
  simpl in Hlog. rewrite app_nil_r in Hlog. by rewrite Hlog.
Qed.

(** ** The cluster count *)

Section counts.

Context {A B : Type}.

Lemma keeps_bind (m : M A) (k : A → M B) :
  keeps_count m → (∀ a, keeps_count (k a)) → keeps_count (bind m k).
Proof.
  intros Hm Hk s s' r H. bind_step H as Hstep.
  - rewrite (Hk _ _ _ _ H). by apply (Hm _ _ _ Hstep).
  - by apply (Hm _ _ _ Hstep).
Qed.

Lemma keeps_ret (a : A) : keeps_count (ret a).
Proof. by intros s s' r [= <- <-]. Qed.

Lemma keeps_raise (e : exn) : keeps_count (raise e : M A).
Proof. by intros s s' r [= <- <-]. Qed.

Lemma keeps_call routine (x : lib_result A) : keeps_count (call routine x).
Proof. intros s s' r H. by apply call_inv in H as [-> _]. Qed.

Lemma keeps_py_index (l : list A) i : keeps_count (py_index l i).
Proof. intros s s' r H. by apply py_index_inv in H as [-> _]. Qed.

End counts.

Lemma keeps_for_enumerate {A S} (xs : list A) (body : Z → A → S → M S) :
  (∀ i x acc, keeps_count (body i x acc)) →
  ∀ i acc, keeps_count (for_enumerate i xs acc body).
Proof.
  intros Hbody. induction xs as [|x xs IH]; intros i acc; simpl.
  - by intros s s' r [= <- <-].
  - apply keeps_bind; [apply Hbody|]. intros acc'. apply IH.
Qed.

Lemma keeps_setPercentage p : keeps_count (setPercentage p).
Proof. by intros s s' r [= <- <-]. Qed.

Lemma keeps_setInfo m b : keeps_count (setInfo m b).
Proof. by intros s s' r [= <- <-]. Qed.

Lemma keeps_addFeature f : keeps_count (addFeature f).
Proof. by intros s s' r [= <- <-]. Qed.

Lemma keeps_addCentroid f : keeps_count (addCentroid f).
Proof. by intros s s' r [= <- <-]. Qed.

Ltac keeps :=
  cbv beta;
  lazymatch goal with
  | |- keeps_count (bind _ _) => apply keeps_bind; [keeps | intros ?; keeps]
  | |- keeps_count (ret _) => apply keeps_ret
  | |- keeps_count (raise _) => apply keeps_raise
  | |- keeps_count (call _ _) => apply keeps_call
  | |- keeps_count (py_index _ _) => apply keeps_py_index
  | |- keeps_count (setPercentage _) => apply keeps_setPercentage
  | |- keeps_count (setInfo _ _) => apply keeps_setInfo
  | |- keeps_count (addFeature _) => apply keeps_addFeature
  | |- keeps_count (addCentroid _) => apply keeps_addCentroid
  | |- keeps_count (for_enumerate _ _ _ _) =>
      apply keeps_for_enumerate; intros ? ? ?; keeps
  | |- keeps_count (if ?c then _ else _) => destruct c; keeps
  | |- keeps_count (match ?x with _ => _ end) => destruct x; keeps
  | |- keeps_count ?m => let h := head_of m in unfold h; keeps
  end.

Lemma closes_bind {A} (m : M A) (k : A → M unit) :
  keeps_count m → (∀ a, closes_with_count (k a)) → closes_with_count (bind m k).
Proof.
  intros Hm Hk s s' r H Hnone. bind_step H as Hstep.
  - apply (Hk _ _ _ _ H). by rewrite (Hm _ _ _ Hstep).
  - by rewrite (Hm _ _ _ Hstep).
Qed.

Lemma closes_report y : closes_with_count (report_num_clusters y).
Proof. intros s s' r [= <- <-] _. simpl. eauto. Qed.

Ltac closes :=
  cbv beta;
  lazymatch goal with
  | |- closes_with_count (report_num_clusters _) => apply closes_report
  | |- closes_with_count (bind _ _) => apply closes_bind; [keeps | intros ?; closes]
  | |- closes_with_count (if ?c then _ else _) => destruct c; closes
  | |- closes_with_count (match ?x with _ => _ end) => destruct x; closes
  | |- closes_with_count ?m => let h := head_of m in unfold h; closes
  end.

Lemma processAlgorithm_closes lib cfg op layer :
  closes_with_count (processAlgorithm lib cfg op layer).
Proof. destruct op; closes. Qed.

(** X2.  Whatever the library does, a run sets the NUM_CLUSTERS output
    if and only if it succeeds; its last two progress events are then
    the message that tells this count and 100 percent. *)
Theorem count_set_iff_success lib cfg op layer :
  match (run lib cfg op layer).2 with
  | Ok _ =>
      ∃ n rest,
        num_clusters_out (run lib cfg op layer).1 = Some n ∧
        progress_log (run lib cfg op layer).1 =
          SetPercentage (Z2Qc 100) :: SetInfo (MsgClustersFormed n) false :: rest
  | Raise _ => num_clusters_out (run lib cfg op layer).1 = None
  end.
Proof.
  apply (processAlgorithm_closes lib cfg op layer no_outputs); [|done].
  apply surjective_pairing.
Qed.

(** ** The written features *)

Lemma labelled_preserves labels (fs : list feature) :
  out_geometry <$> (labelled labels <$> fs) = f_geometry <$> fs ∧
  Forall2 (λ f o, ∃ l, out_attributes o = f_attributes f ++ [AInt l])
          fs (labelled labels <$> fs).
Proof.
  split.
  - rewrite <- list_fmap_compose. by apply list_fmap_ext.
  - apply Forall2_fmap_r, Forall_Forall2_diag, Forall_forall.
    intros f _. unfold labelled. simpl. eauto.
Qed.

(** The success branch of the writing phase, for every operation. *)
Lemma success_written lib cfg op layer s :
  run lib cfg op layer = (s, Ok tt) →
  ∃ y, library_returned lib op layer y ∧
       written s = labelled (dict_zip (f_id <$> features layer) y) <$> features layer ∧
       Forall (λ f, is_Some (dict_zip (f_id <$> features layer) y !! f_id f))
              (features layer).
Proof.
  intros Hrun. destruct op as [p|p|p].
  - apply Hierarchical_inv in Hrun as [(e & [=] & _)|Hrun].
    destruct Hrun as (method & metric & crit & y & Hm & Hme & Hc & _ & _ & Hy & _ & Hout).
    destruct Hout as [(_ & Hw & Hall & _)|([=] & _)].
    exists y. split; [by exists method, metric, crit|]. done.
  - apply KMeans_inv in Hrun as [(e & [=] & _)|Hrun].
    destruct Hrun as (mi & cs & y & Hmi & _ & Hy & [[Hout _]|[[=] _]]).
    destruct Hout as [(_ & Hw & Hall & _)|([=] & _)].
    exists y. split; [by exists mi, cs|]. done.
  - apply ByIdentifier_inv in Hrun as [(e & [=] & _)|Hrun].
    destruct Hrun as (method & metric & crit & identifiers & v & D & distances & links & y
                      & Hm & Hme & Hc & _ & _ & _ & _ & _ & _ & _ & Hlinks & Hy
                      & _ & Hout).
    destruct Hout as [(_ & Hw & Hall & _)|([=] & _)].
    exists y. split; [by exists method, metric, crit, distances, links|]. done.
Qed.

(** X3.  Whatever the library returns, a run that succeeds has written
    the features of the layer in their order, each with its geometry and
    its attributes followed by one integer attribute. *)
Theorem written_features_preserve_input lib cfg op layer s :
  run lib cfg op layer = (s, Ok tt) →
  out_geometry <$> written s = f_geometry <$> features layer ∧
  Forall2 (λ f o, ∃ l, out_attributes o = f_attributes f ++ [AInt l])
          (features layer) (written s).
Proof.
  intros Hrun.
  destruct (success_written lib cfg op layer s Hrun) as (y & _ & -> & _).
  apply labelled_preserves.
Qed.

Lemma written_features_preserve_input_witness :
  let out := run scipy_draw (Config 100)
               (KMeans (KMeansParams (Z2Qc 2) 1 "label")) layer_apart in
  out_geometry <$> written out.1 = f_geometry <$> features layer_apart ∧
  Forall2 (λ f o, ∃ l, out_attributes o = f_attributes f ++ [AInt l])
          (features layer_apart) (written out.1).
Proof.
  intros out.
  apply (written_features_preserve_input scipy_draw (Config 100)
           (KMeans (KMeansParams (Z2Qc 2) 1 "label")) layer_apart out.1).
  by_evaluation out.
Defined.

(** ** Labels go by feature id *)





(** On the layer with a shared id: the library labels the points 2, 1, 1
    and the count of clusters is 2, while the first feature is written
    with the label of the third one. *)
Example shared_id_takes_last_label :
  let out := run scipy_draw (Config 100)
               (Hierarchical (HierarchicalParams (Z2Qc 2) "label" 0 1 0))
               layer_shared_id in
  out.2 = Ok tt ∧ int_labels out.1 = [1; 1; 1] ∧ num_clusters_out out.1 = Some 2.
Proof. vm_compute. repeat split; reflexivity. Qed.

(** ** The checks on the parameters *)

Lemma py_int_Z2Qc z : py_int (Z2Qc z) = z.
Proof.
  unfold py_int, Z2Qc.
  assert (Q2Qc (inject_Z z) == inject_Z z)%Q as Heq by apply Qred_correct.
  destruct (decide _); [rewrite Heq; apply Qfloor_Z|rewrite Heq; apply Qceiling_Z].
Qed.

Lemma whole_iff (x : Qc) : Z2Qc (py_int x) = x ↔ ∃ z, x = Z2Qc z.
Proof.
  split; [by eauto|]. intros [z ->]. by rewrite py_int_Z2Qc.
Qed.

(** X5.  With a valid initialisation selection, the k-means operation
    ends in [ValueError("K is not an integer")] exactly when no integer
    equals K: every whole K passes the check, zero and the negative ones
    included. *)
Theorem kmeans_rejects_exactly_fractional_K lib cfg p layer s r :
  valid_selections (KMeans p) →
  run lib cfg (KMeans p) layer = (s, r) →
  r = Raise (ValueError "K is not an integer") ↔ ∀ z, K p ≠ Z2Qc z.
Proof.
  intros Hvalid Hrun.
  assert ((∀ z, K p ≠ Z2Qc z) ↔ Z2Qc (py_int (K p)) ≠ K p) as ->.
  { rewrite whole_iff. split; [intros H [z Hz]; by apply (H z)|intros H z Hz; eauto]. }
  apply KMeans_inv in Hrun as [(e & -> & _ & Hcase)|Hrun].
  - destruct Hcase as [[_ Hn]|[_ [[-> Hk]|[Hk Hcase]]]]; [done|done|].
    split; [|done]. destruct Hcase as [[-> _]|[msg ->]]; done.
  - destruct Hrun as (mi & cs & y & _ & Hk & _ & Hcase).
    split; [|done]. intros ->.
    destruct Hcase as [[[(? & _)|(? & _)] _]|[? _]]; done.
Qed.

Lemma kmeans_rejects_exactly_fractional_K_witness :
  let p := KMeansParams (Z2Qc (-3)) 1 "label" in
  let out := run scipy_draw (Config 100) (KMeans p) layer_apart in
  out.2 = Raise (ValueError "K is not an integer") ↔ ∀ z, K p ≠ Z2Qc z.
Proof.
  intros p out.
  apply (kmeans_rejects_exactly_fractional_K scipy_draw (Config 100) p layer_apart
           out.1 out.2).
  - simpl. lia.
  - apply surjective_pairing.
Defined.

(** X6.  With valid selections, a hierarchical operation (either
    variant) ends in [ValueError("Feature Count > point limit")] exactly
    when the tolerance is positive and the selected feature count exceeds
    the limit: the tolerance is checked first. *)
Theorem point_limit_error_iff lib cfg op layer s r tol :
  hierarchical_tolerance op = Some tol →
  valid_selections op →
  run lib cfg op layer = (s, r) →
  r = Raise (ValueError "Feature Count > point limit") ↔
  (0 < tol)%Qc ∧ selectedFeatureCount layer > POINT_LIMIT cfg.
Proof.
  intros Htol Hvalid Hrun. split.
  - intros ->. destruct op as [p|p|p]; simplify_eq/=.
    + apply Hierarchical_inv in Hrun as [(e & [= <-] & _ & Hcase)|Hrun].
      * destruct Hcase as [[? _]|[_ [[? _]|[Hpos Hcase]]]]; [done|done|].
        destruct Hcase as [[_ Hover]|[_ [[? _]|[msg ?]]]]; done.
      * destruct Hrun as (? & ? & ? & ? & _ & _ & _ & _ & _ & _ & _ & Hout).
        destruct Hout as [(? & _)|(? & _)]; done.
    + apply ByIdentifier_inv in Hrun as [(e & [= <-] & _ & Hcase)|Hrun].
      * destruct Hcase as [[? _]|[_ [[? _]|[Hpos Hcase]]]]; [done|done|].
        destruct Hcase as [[_ Hover]|[_ [?|[?|[?|(? & ? & ?)]]]]]; done.
      * destruct Hrun as (? & ? & ? & ? & ? & ? & ? & ? & ? & _ & _ & _ & _ & _ & _
                          & _ & _ & _ & _ & _ & _ & _ & Hout).
        destruct Hout as [(? & _)|(? & _)]; done.
  - intros [Hpos Hover]. by eapply point_limit_enforced.
Qed.

Lemma point_limit_error_iff_witness :
  let op := Hierarchical (HierarchicalParams (Z2Qc 2) "label" 0 1 0) in
  let out := run scipy_draw (Config 2) op layer_apart in
  out.2 = Raise (ValueError "Feature Count > point limit") ↔
  (0 < Z2Qc 2)%Qc ∧ selectedFeatureCount layer_apart > POINT_LIMIT (Config 2).
Proof.
  intros op out.
  apply (point_limit_error_iff scipy_draw (Config 2) op layer_apart out.1 out.2 (Z2Qc 2)).
  - reflexivity.
  - simpl. lia.
  - apply surjective_pairing.
Defined.

(** ** Runs that are bound to fail *)

Section forward.

Context {A B : Type}.

Lemma fails_bind_now (m : M A) (k : A → M B) e :
  fails_with m e → fails_with (bind m k) e.
Proof.
  intros Hm s s' r H. bind_step H as Hstep.
  - by destruct (Hm _ _ _ Hstep) as [[=] _].
  - by destruct (Hm _ _ _ Hstep) as [[= ->] ?].
Qed.

Lemma fails_bind_later (m : M A) (k : A → M B) (P : A → Prop) e :
  returns_quietly m P → (∀ a, P a → fails_with (k a) e) → fails_with (bind m k) e.
Proof.
  intros Hm Hk s s' r H. bind_step H as Hstep.
  - destruct (Hm _ _ _ Hstep) as [Hem (a' & [= <-] & Ha)].
    destruct (Hk _ Ha _ _ _ H) as [-> Hem']. split; [done|congruence].
  - by destruct (Hm _ _ _ Hstep) as [_ (a' & [=] & _)].
Qed.

Lemma returns_bind (m : M A) (k : A → M B) (P : A → Prop) (Q : B → Prop) :
  returns_quietly m P → (∀ a, P a → returns_quietly (k a) Q) →
  returns_quietly (bind m k) Q.
Proof.
  intros Hm Hk s s' r H. bind_step H as Hstep.
  - destruct (Hm _ _ _ Hstep) as [Hem (a' & [= <-] & Ha)].
    destruct (Hk _ Ha _ _ _ H) as [Hem' Hr]. split; [congruence|done].
  - by destruct (Hm _ _ _ Hstep) as [_ (a' & [=] & _)].
Qed.

Lemma returns_ret (a : A) : returns_quietly (ret a) (λ x, x = a).
Proof. intros s s' r [= <- <-]. eauto. Qed.

Lemma returns_py_index (l : list A) i a :
  l !! i = Some a → returns_quietly (py_index l i) (λ x, x = a).
Proof. unfold py_index. intros -> s s' r [= <- <-]. eauto. Qed.

Lemma returns_call routine (x : lib_result A) a :
  x = inl a → returns_quietly (call routine x) (λ y, y = a).
Proof. intros -> s s' r [= <- <-]. eauto. Qed.

Lemma fails_call routine (x : lib_result A) msg :
  x = inr msg → fails_with (call routine x) (LibraryError routine msg).
Proof. by intros -> s s' r [= <- <-]. Qed.

End forward.

Lemma returns_setPercentage p : returns_quietly (setPercentage p) (λ _, True).
Proof. intros s s' r [= <- <-]. eauto. Qed.

Lemma returns_setInfo m b : returns_quietly (setInfo m b) (λ _, True).
Proof. intros s s' r [= <- <-]. eauto. Qed.

Lemma returns_check_tolerance tolerance :
  (0 < tolerance)%Qc → returns_quietly (check_tolerance tolerance) (λ _, True).
Proof.
  intros Hpos s s' r H.
  apply check_tolerance_inv in H as [Hem [[Hle _]|[_ ->]]]; [|by eauto].
  by apply Qclt_not_le in Hpos.
Qed.

Lemma returns_check_point_limit cfg layer :
  selectedFeatureCount layer ≤ POINT_LIMIT cfg →
  returns_quietly (check_point_limit cfg layer) (λ x, x = selectedFeatureCount layer).
Proof.
  intros Hle s s' r H.
  apply check_point_limit_inv in H as [Hem [[Hgt _]|[_ ->]]]; [lia|by eauto].
Qed.

Lemma returns_report base i span count :
  count ≠ 0 → returns_quietly (report base i span count) (λ _, True).
Proof.
  intros Hc s s' r H. apply report_inv in H as [Hem [[_ ->]|[? _]]]; [by eauto|done].
Qed.

Lemma fails_report base i span : fails_with (report base i span 0) ZeroDivisionError.
Proof.
  intros s s' r H. by apply report_inv in H as [Hem [[? _]|[_ ->]]].
Qed.

Lemma returns_extract_points span fc layer :
  fc ≠ 0 ∨ features layer = [] →
  returns_quietly (extract_points span fc layer)
    (λ x, x = (f_geometry <$> features layer, f_id <$> features layer)).
Proof.
  intros Hfc s s' r H.
  apply extract_points_inv in H as [Hem [[-> _]|(_ & ? & ?)]]; [by eauto|].
  by destruct Hfc.
Qed.

Lemma fails_extract_points span layer :
  features layer ≠ [] → fails_with (extract_points span 0 layer) ZeroDivisionError.
Proof.
  intros Hfs s s' r H.
  apply extract_points_inv in H as [Hem [[_ [?|?]]|(-> & _)]]; done.
Qed.

Lemma feature_getitem_identifier layer f name :
  feature_getitem layer f name =
  match identifier_of layer name f with
  | Some a => ret a
  | None => raise KeyError
  end.
Proof. unfold feature_getitem, identifier_of. by repeat case_match. Qed.

Lemma fails_extract_identified_zero layer name fs i acc :
  fs ≠ [] →
  fails_with
    (for_enumerate i fs acc
       (λ i f '(pts, feature_ids, identifiers),
          report 0 i 20 0 >>>
          let* ident := feature_getitem layer f name in
          ret (pts ++ [f_geometry f], feature_ids ++ [f_id f], identifiers ++ [ident])))
    ZeroDivisionError.
Proof.
  destruct fs as [|f fs]; [done|]. intros _. simpl.
  destruct acc as [[pts ids] idents].
  do 2 apply fails_bind_now. apply fails_report.
Qed.

Lemma fails_extract_identified_missing layer name fc fs :
  fc ≠ 0 → Exists (λ f, identifier_of layer name f = None) fs →
  ∀ i acc,
  fails_with
    (for_enumerate i fs acc
       (λ i f '(pts, feature_ids, identifiers),
          report 0 i 20 fc >>>
          let* ident := feature_getitem layer f name in
          ret (pts ++ [f_geometry f], feature_ids ++ [f_id f], identifiers ++ [ident])))
    KeyError.
Proof.
  intros Hfc. induction fs as [|f fs IH]; intros Hex i [[pts ids] idents].
  { by apply Exists_nil in Hex. }
  simpl. destruct (identifier_of layer name f) as [a|] eqn:Hf.
  - apply Exists_cons in Hex as [Hex|Hex]; [congruence|].
    apply (fails_bind_later _ _ (λ _, True)); [|intros acc' _; by apply IH].
    eapply returns_bind; [by apply returns_report|]. intros _ _.
    rewrite feature_getitem_identifier, Hf.
    eapply returns_bind; [apply returns_ret|]. intros ? ->.
    intros s s' r [= <- <-]. eauto.
  - apply fails_bind_now.
    eapply fails_bind_later; [by apply returns_report|]. intros _ _.
    apply fails_bind_now. rewrite feature_getitem_identifier, Hf.
    by intros s s' r [= <- <-].
Qed.

Lemma returns_extract_identified layer name fc fs :
  fc ≠ 0 ∨ fs = [] →
  Forall (λ f, is_Some (identifier_of layer name f)) fs →
  ∀ i pts ids idents,
  returns_quietly
    (for_enumerate i fs (pts, ids, idents)
       (λ i f '(pts, feature_ids, identifiers),
          report 0 i 20 fc >>>
          let* ident := feature_getitem layer f name in
          ret (pts ++ [f_geometry f], feature_ids ++ [f_id f], identifiers ++ [ident])))
    (λ x, x.1.1 = pts ++ (f_geometry <$> fs)).
Proof.
  intros Hfc Hall. induction Hall as [|f fs [a Hf] Hall IH]; intros i pts ids idents.
  { intros s s' r [= <- <-]. split; [done|]. eexists. split; [done|]. simpl.
    by rewrite app_nil_r. }
  destruct Hfc as [Hfc|?]; [|done]. simpl.
  eapply returns_bind.
  - eapply returns_bind; [by apply returns_report|]. intros _ _.
    rewrite feature_getitem_identifier, Hf.
    eapply returns_bind; [apply returns_ret|]. intros ? ->. apply returns_ret.
  - intros ? ->. intros s s' r H.
    destruct (IH (or_introl Hfc) _ _ _ _ _ _ _ H) as [Hem (x & -> & Hx)].
    split; [done|]. exists x. split; [done|].
    by rewrite Hx, <- app_assoc.
Qed.

Lemma valid_hierarchical_lookup (p : hierarchical_params) :
  (LINKAGE_METHOD p < 7)%nat ∧ (LINKAGE_METRIC p < 2)%nat ∧ (CRITERION p < 5)%nat →
  ∃ method metric crit,
    _linkage_methods !! LINKAGE_METHOD p = Some method ∧
    _linkage_metrics !! LINKAGE_METRIC p = Some metric ∧
    _criterions !! CRITERION p = Some crit.
Proof.
  intros (Hm & Hme & Hc).
  destruct (lookup_lt_is_Some_2 _linkage_methods (LINKAGE_METHOD p) Hm) as [method ?].
  destruct (lookup_lt_is_Some_2 _linkage_metrics (LINKAGE_METRIC p) Hme) as [metric ?].
  destruct (lookup_lt_is_Some_2 _criterions (CRITERION p) Hc) as [crit ?].
  by exists method, metric, crit.
Qed.

(** Solves [returns_quietly m ?P] for a step of an algorithm from the
    facts at hand. *)
Ltac quiet :=
  first
    [ eapply returns_py_index; eassumption
    | apply returns_setPercentage
    | apply returns_setInfo
    | apply returns_ret
    | apply returns_check_tolerance; assumption
    | apply returns_check_point_limit; assumption
    | apply returns_extract_points; assumption
    | eapply returns_call; eassumption ].

(** In [fails_with (bind m k) e], takes the step [m], which returns. *)
Ltac onward :=
  cbv beta zeta;
  eapply fails_bind_later;
  [ solve [quiet]
  | let H := fresh in intros ? H; cbv beta in H; subst; cbv beta iota ].

Lemma no_selection_fails lib cfg op layer :
  valid_selections op → passes_checks cfg op layer →
  selectedFeatureCount layer = 0 → features layer ≠ [] →
  fails_with (processAlgorithm lib cfg op layer) ZeroDivisionError.
Proof.
  intros Hvalid Hchecks Hfc Hfs. destruct op as [p|p|p]; simpl in *.
  - destruct (valid_hierarchical_lookup p Hvalid) as (method & metric & crit & ? & ? & ?).
    destruct Hchecks as [Hpos Hle].
    unfold HierarchicalClustering_processAlgorithm.
    do 7 onward. apply fails_bind_now. rewrite Hfc. by apply fails_extract_points.
  - destruct (lookup_lt_is_Some_2 _minits (MINIT p) Hvalid) as [mi ?].
    unfold KMeansClustering_processAlgorithm.
    do 2 onward. destruct (decide _) as [?|_]; [done|].
    do 2 onward. apply fails_bind_now. rewrite Hfc. by apply fails_extract_points.
  - destruct (valid_hierarchical_lookup (BASE p) Hvalid)
      as (method & metric & crit & ? & ? & ?).
    destruct Hchecks as [Hpos Hle].
    unfold HierarchicalClusteringByIdentifier_processAlgorithm.
    do 7 onward. apply fails_bind_now. rewrite Hfc.
    by apply fails_extract_identified_zero.
Qed.

(** X7.  The loops divide by [vectorLayer.selectedFeatureCount()]:
    with valid parameters, a layer that has features to read and a
    selected feature count of zero makes every operation end in
    [ZeroDivisionError] at the first feature, before the library is
    called and with nothing emitted. *)
Theorem no_selection_divides_by_zero lib cfg op layer s r :
  valid_selections op → passes_checks cfg op layer →
  selectedFeatureCount layer = 0 → features layer ≠ [] →
  run lib cfg op layer = (s, r) →
  r = Raise ZeroDivisionError ∧ emitted s = emitted no_outputs.
Proof.
  intros Hvalid Hchecks Hfc Hfs Hrun.
  by apply (no_selection_fails lib cfg op layer Hvalid Hchecks Hfc Hfs no_outputs).
Qed.

Lemma no_selection_divides_by_zero_witness :
  let op := KMeans (KMeansParams (Z2Qc 2) 1 "label") in
  let out := run scipy_draw (Config 100) op layer_unselected in
  out.2 = Raise ZeroDivisionError ∧ emitted out.1 = emitted no_outputs.
Proof.
  intros op out.
  apply (no_selection_divides_by_zero scipy_draw (Config 100) op layer_unselected
           out.1 out.2).
  - simpl. lia.
  - reflexivity.
  - reflexivity.
  - discriminate.
  - apply surjective_pairing.
Defined.

Lemma missing_identifier_fails lib cfg p layer :
  valid_selections (ByIdentifier p) → passes_checks cfg (ByIdentifier p) layer →
  selectedFeatureCount layer ≠ 0 →
  Exists (λ f, identifier_of layer (IDENTIFIER_FIELD p) f = None) (features layer) →
  fails_with (processAlgorithm lib cfg (ByIdentifier p) layer) KeyError.
Proof.
  intros Hvalid [Hpos Hle] Hfc Hex. simpl in *.
  destruct (valid_hierarchical_lookup (BASE p) Hvalid)
    as (method & metric & crit & ? & ? & ?).
  unfold HierarchicalClusteringByIdentifier_processAlgorithm.
  do 7 onward. apply fails_bind_now.
  by apply fails_extract_identified_missing.
Qed.

Lemma identifier_of_unknown_field layer name f :
  name ∉ field_names layer → identifier_of layer name f = None.
Proof.
  intros Hname. unfold identifier_of.
  destruct (list_find _ _) as [[i n]|] eqn:Hfind; [|done].
  apply list_find_Some in Hfind as (Hi & -> & _).
  destruct Hname. by eapply list_elem_of_lookup_2.
Qed.

(** X8.  The algorithm by identifier reads [f[identifier_field]] of
    every feature: with valid parameters and a selected count that is
    not zero, a feature without a value under the identifier field (as
    every feature is when the layer has no field of that name) makes the
    run end in [KeyError], before the library is called and with nothing
    emitted. *)
Theorem missing_identifier_is_KeyError lib cfg p layer s r :
  valid_selections (ByIdentifier p) → passes_checks cfg (ByIdentifier p) layer →
  selectedFeatureCount layer ≠ 0 →
  (((IDENTIFIER_FIELD p ∉ field_names layer) ∧ features layer ≠ []) ∨
   Exists (λ f, identifier_of layer (IDENTIFIER_FIELD p) f = None) (features layer)) →
  run lib cfg (ByIdentifier p) layer = (s, r) →
  r = Raise KeyError ∧ emitted s = emitted no_outputs.
Proof.
  intros Hvalid Hchecks Hfc Hmiss Hrun.
  apply (missing_identifier_fails lib cfg p layer Hvalid Hchecks Hfc); [|done].
  destruct Hmiss as [[Hname Hfs]|Hex]; [|done].
  destruct (features layer) as [|f fs]; [done|].
  apply Exists_cons_hd. by apply identifier_of_unknown_field.
Qed.

Lemma missing_identifier_is_KeyError_witness :
  let p := ByIdentifierParams (HierarchicalParams (Z2Qc 2) "label" 0 1 0) "owner" in
  let out := run scipy_draw (Config 100) (ByIdentifier p) layer_apart in
  out.2 = Raise KeyError ∧ emitted out.1 = emitted no_outputs.
Proof.
  intros p out.
  apply (missing_identifier_is_KeyError scipy_draw (Config 100) p layer_apart
           out.1 out.2).
  - simpl. lia.
  - split; [reflexivity|simpl; lia].
  - discriminate.
  - left. split; [|discriminate].
    refine (bool_decide_unpack _ _). by vm_compute.
  - apply surjective_pairing.
Defined.

Lemma library_refusal_fails lib cfg op layer routine msg :
  valid_selections op → passes_checks cfg op layer → extractable op layer →
  library_refuses lib op layer routine msg →
  fails_with (processAlgorithm lib cfg op layer) (LibraryError routine msg).
Proof.
  intros Hvalid Hchecks [Hfc Hids] Href. destruct op as [p|p|p]; simpl in *.
  - destruct Href as (method & metric & crit & ? & ? & ? & -> & Hcall).
    destruct Hchecks as [Hpos Hle].
    unfold HierarchicalClustering_processAlgorithm.
    do 9 onward. apply fails_bind_now. by apply fails_call.
  - destruct Href as (mi & ? & -> & Hcall).
    unfold KMeansClustering_processAlgorithm.
    do 2 onward. destruct (decide _) as [?|_]; [done|].
    do 4 onward. apply fails_bind_now. by apply fails_call.
  - destruct Href as (metric' & Hmetric & -> & Hcall).
    destruct (valid_hierarchical_lookup (BASE p) Hvalid)
      as (method & metric & crit & ? & ? & ?).
    assert (metric' = metric) as -> by congruence.
    destruct Hchecks as [Hpos Hle].
    unfold HierarchicalClusteringByIdentifier_processAlgorithm.
    do 7 onward.
    eapply fails_bind_later; [by apply returns_extract_identified|].
    intros [[pts ids] idents] Hpts. simpl in Hpts. subst pts. cbv beta iota.
    onward. apply fails_bind_now. unfold constrained_distances.
    apply fails_bind_now. by apply fails_call.
Qed.

(** X9.  The operations catch no exception of the library: with valid
    parameters and a layer whose features can be read, an exception that
    the first library call raises ([fclusterdata], [kmeans2], or [pdist]
    for the algorithm by identifier) ends the run unchanged, with nothing
    emitted. *)
Theorem library_error_propagates lib cfg op layer routine msg s r :
  valid_selections op → passes_checks cfg op layer → extractable op layer →
  library_refuses lib op layer routine msg →
  run lib cfg op layer = (s, r) →
  r = Raise (LibraryError routine msg) ∧ emitted s = emitted no_outputs.
Proof.
  intros Hvalid Hchecks Hext Href Hrun.
  by apply (library_refusal_fails lib cfg op layer routine msg Hvalid Hchecks Hext Href
              no_outputs).
Qed.

Lemma library_error_propagates_witness :
  let op := KMeans (KMeansParams (Z2Qc 0) 1 "label") in
  let out := run scipy_draw (Config 100) op layer_apart in
  out.2 = Raise (LibraryError "kmeans2" "kmeans2 for 0 clusters ?") ∧
  emitted out.1 = emitted no_outputs.
Proof.
  intros op out.
  apply (library_error_propagates scipy_draw (Config 100) op layer_apart
           "kmeans2" "kmeans2 for 0 clusters ?" out.1 out.2).
  - simpl. lia.
  - reflexivity.
  - split; [left; discriminate|done].
  - exists points. repeat split; by vm_compute.
  - apply surjective_pairing.
Defined.

(** ** The constrained distances in condensed form *)

Section constrained.

Implicit Types (v r : list xreal) (D : matrix) (identifiers : list attr).

Lemma entry_is_Some n D i j :
  is_nxn n D → (i < n)%nat → (j < n)%nat → is_Some (entry D i j).
Proof.
  intros [Hlen Hrows] Hi Hj. unfold entry.
  destruct (lookup_lt_is_Some_2 D i) as [row Hrow]; [lia|].
  rewrite Hrow. simpl. apply lookup_lt_is_Some_2.
  rewrite Forall_lookup in Hrows. rewrite (Hrows _ _ Hrow). done.
Qed.

Lemma masked_symmetric n D identifiers value :
  is_nxn n D → length identifiers = n → symmetric n D →
  symmetric n (zip_with (zip_with (λ d (b : bool), if b then value else d))
                        D (identifier_mask identifiers)).
Proof.
  intros Hnxn Hids Hsym i j Hi Hj.
  destruct (lookup_lt_is_Some_2 identifiers i) as [a Ha]; [lia|].
  destruct (lookup_lt_is_Some_2 identifiers j) as [b Hb]; [lia|].
  destruct (entry_is_Some n D i j Hnxn Hi Hj) as [d Hd].
  rewrite (masked_entry D identifiers value i j a b d) by done.
  rewrite (masked_entry D identifiers value j i b a d)
    by (done || by rewrite <- (Hsym i j Hi Hj)).
  destruct (decide (a = b)) as [->|Hne].
  - by rewrite decide_True.
  - by rewrite decide_False by (intros ->; by apply Hne).
Qed.

Lemma masked_zero_diagonal n D identifiers value :
  length identifiers = n → zero_diagonal n D →
  zero_diagonal n (zip_with (zip_with (λ d (b : bool), if b then value else d))
                            D (identifier_mask identifiers)).
Proof.
  intros Hids Hzero i Hi.
  destruct (lookup_lt_is_Some_2 identifiers i) as [a Ha]; [lia|].
  rewrite (masked_entry D identifiers value i i a a (Finite 0%Qc)); auto.
  by rewrite decide_True.
Qed.

Lemma tail_masked (g : xreal → bool → xreal) (hd : attr → bool) (tl : attr → list bool)
    r D identifiers :
  (length D ≤ length r)%nat →
  tail <$> zip_with (zip_with g) (zip_with cons r D)
                    (map (λ val, hd val :: tl val) identifiers)
  = zip_with (zip_with g) D (map tl identifiers).
Proof.
  revert r identifiers. induction D as [|row D IH]; intros [|x r] [|val identifiers] Hlen;
    simpl in *; try done; try lia.
  f_equal. apply IH. lia.
Qed.

Lemma length_pairs_of {X} (l : list X) : length (pairs_of l) = triangle (length l).
Proof.
  induction l as [|a l IH]; simpl; [done|].
  by rewrite length_app, length_map, IH.
Qed.

Lemma recompress_masked identifiers : ∀ v,
  length v = triangle (length identifiers) →
  recompress (zip_with (zip_with (λ d (b : bool), if b then PosInf else d))
                       (decompress (length identifiers) v)
                       (identifier_mask identifiers))
  = constrain v identifiers.
Proof.
  induction identifiers as [|a rest IH]; intros v Hv.
  { unfold constrain. simpl. by destruct v. }
  simpl in Hv. unfold constrain, identifier_mask. simpl.
  rewrite recompress_cons. simpl.
  destruct (decompress_nxn (length rest) (drop (length rest) v)) as [Hlen _].
  { rewrite length_drop. lia. }
  rewrite (tail_masked _ (λ val, bool_decide (a ≠ val))
             (λ val, map (λ x, bool_decide (x ≠ val)) rest)).
  2: { rewrite Hlen, length_take. lia. }
  change (map (λ val, map (λ x, bool_decide (x ≠ val)) rest) rest)
    with (identifier_mask rest).
  rewrite IH by (rewrite length_drop; lia).
  rewrite <- (take_drop (length rest) v) at 3.
  unfold constrain. rewrite zip_with_app by (rewrite length_take, length_map; lia).
  f_equal.
  rewrite zip_with_fmap_r. change (map ?f ?l) with (f <$> l). rewrite zip_with_fmap_r.
  apply zip_with_ext; [|done..]. intros d x. simpl.
  destruct (decide (a = x)) as [->|Hne].
  - by rewrite bool_decide_eq_false_2 by (intros H; by apply H).
  - by rewrite bool_decide_eq_true_2 by (intros ->; by apply Hne).
Qed.

End constrained.

(** Lines 561-566 on what [pdist] returns for as many points as there
    are identifiers. *)
Lemma constrained_distances_run lib pts identifiers metric v s :
  pdist lib pts metric = inl v → identifiers ≠ [] →
  length v = triangle (length identifiers) →
  constrained_distances lib pts identifiers metric s = (s, Ok (constrain v identifiers)).
Proof.
  intros Hv Hne Hlen.
  assert (1 ≤ length identifiers)%nat as Hn by (destruct identifiers; simpl; [done|lia]).
  pose proof (decompress_nxn (length identifiers) v ltac:(lia)) as Hnxn.
  destruct (decompress_entries (length identifiers) v Hlen) as [Hsym Hzero].
  unfold constrained_distances.
  erewrite bind_ok by (rewrite Hv; reflexivity).
  erewrite bind_ok
    by (rewrite (squareform_vector_triangle (length identifiers)) by done; reflexivity).
  erewrite bind_ok
    by (unfold mask_assign; rewrite (same_shape_mask (length identifiers)) by done;
        reflexivity).
  rewrite (squareform_matrix_valid (length identifiers));
    [|done|by apply masked_nxn|by apply masked_symmetric|by apply masked_zero_diagonal].
  by rewrite recompress_masked.
Qed.

Lemma pairs_of_elem {X} (l : list X) a b :
  (a, b) ∈ pairs_of l → a ∈ l ∧ b ∈ l.
Proof.
  induction l as [|x l IH]; simpl; [by intros ?%elem_of_nil|].
  rewrite elem_of_app, list_elem_of_fmap. intros [(y & [= -> ->] & Hy)|Hin].
  - split; [left|by right].
  - destruct (IH Hin). split; by right.
Qed.

Lemma pairs_of_NoDup {X} (l : list X) a b :
  NoDup l → (a, b) ∈ pairs_of l → a ≠ b.
Proof.
  induction 1 as [|x l Hx Hnd IH]; simpl; [by intros ?%elem_of_nil|].
  rewrite elem_of_app, list_elem_of_fmap. intros [(y & [= -> ->] & Hy)|Hin].
  - by intros ->.
  - by apply IH.
Qed.

(** X10.  Lines 561-566 in condensed form.  On the distances [v] that
    [pdist] returns for [n >= 1] points and [n] identifiers, the two
    [squareform] calls and the mask assignment succeed and return a
    condensed vector as long as [v], in which the distance of a pair of
    points is [+inf] when their identifiers differ and the one of [v]
    otherwise. *)
Theorem constrained_distances_condensed lib pts identifiers metric v s :
  pdist lib pts metric = inl v → identifiers ≠ [] →
  length v = triangle (length identifiers) →
  ∃ d, constrained_distances lib pts identifiers metric s = (s, Ok d) ∧
       length d = length v ∧
       ∀ k a b x, pairs_of identifiers !! k = Some (a, b) → v !! k = Some x →
                  d !! k = Some (if decide (a = b) then x else PosInf).
Proof.
  intros Hv Hne Hlen. exists (constrain v identifiers).
  split; [by apply constrained_distances_run|]. unfold constrain. split.
  - rewrite length_zip_with, length_pairs_of. lia.
  - intros k a b x Hab Hx. by rewrite lookup_zip_with, Hx, Hab.
Qed.

Lemma constrained_distances_condensed_witness :
  let v := [Finite (Z2Qc 5); Finite (Z2Qc 6); Finite (Z2Qc 1)] in
  let identifiers := [AStr "A"; AStr "A"; AStr "B"] in
  ∃ d, constrained_distances scipy_draw [P 0 0; P 5 0; P 5 1] identifiers cityblock
         no_outputs = (no_outputs, Ok d) ∧
       length d = length v ∧
       ∀ k a b x, pairs_of identifiers !! k = Some (a, b) → v !! k = Some x →
                  d !! k = Some (if decide (a = b) then x else PosInf).
Proof.
  intros v identifiers.
  apply (constrained_distances_condensed scipy_draw [P 0 0; P 5 0; P 5 1] identifiers
           cityblock v no_outputs).
  - by vm_compute.
  - discriminate.
  - reflexivity.
Defined.

(** X11.  The two extremes of the constraint.  When all points carry
    the same identifier the distances of [pdist] come back unchanged: the
    algorithm by identifier then clusters on the plain distances.  When
    the identifiers are pairwise different every distance is [+inf]. *)
Theorem constraint_extremes lib pts identifiers metric v s :
  pdist lib pts metric = inl v → identifiers ≠ [] →
  length v = triangle (length identifiers) →
  ((∀ a b, a ∈ identifiers → b ∈ identifiers → a = b) →
   constrained_distances lib pts identifiers metric s = (s, Ok v)) ∧
  (NoDup identifiers →
   constrained_distances lib pts identifiers metric s
   = (s, Ok (replicate (length v) PosInf))).
Proof.
  intros Hv Hne Hlen.
  rewrite (constrained_distances_run lib pts identifiers metric v s) by done.
  pose proof (length_pairs_of identifiers) as Hpairs.
  split; intros Hids; do 2 f_equal; apply list_eq; intros k; unfold constrain;
    rewrite lookup_zip_with.
  - destruct (v !! k) as [x|] eqn:Hx; [|done]. simpl.
    destruct (lookup_lt_is_Some_2 (pairs_of identifiers) k) as [[a b] Hab].
    { apply lookup_lt_Some in Hx. lia. }
    rewrite Hab. simpl.
    apply list_elem_of_lookup_2, pairs_of_elem in Hab as [Ha Hb].
    by rewrite decide_True by by apply Hids.
  - destruct (v !! k) as [x|] eqn:Hx; simpl.
    + destruct (lookup_lt_is_Some_2 (pairs_of identifiers) k) as [[a b] Hab].
      { apply lookup_lt_Some in Hx. lia. }
      rewrite Hab. simpl. apply lookup_lt_Some in Hx.
      rewrite lookup_replicate_2 by done.
      apply list_elem_of_lookup_2, pairs_of_NoDup in Hab; [|done].
      by rewrite decide_False.
    + symmetry. apply lookup_replicate_None. apply lookup_ge_None in Hx. lia.
Qed.

Lemma constraint_extremes_witness :
  let v := [Finite (Z2Qc 5); Finite (Z2Qc 6); Finite (Z2Qc 1)] in
  let identifiers := [AInt 1; AInt 2; AInt 3] in
  ((∀ a b, a ∈ identifiers → b ∈ identifiers → a = b) →
   constrained_distances scipy_draw [P 0 0; P 5 0; P 5 1] identifiers cityblock
     no_outputs = (no_outputs, Ok v)) ∧
  (NoDup identifiers →
   constrained_distances scipy_draw [P 0 0; P 5 0; P 5 1] identifiers cityblock
     no_outputs = (no_outputs, Ok (replicate (length v) PosInf))).
Proof.
  intros v identifiers.
  apply (constraint_extremes scipy_draw [P 0 0; P 5 0; P 5 1] identifiers
           cityblock v no_outputs).
  - by vm_compute.
  - discriminate.
  - reflexivity.
Defined.

(** ** The successful runs, step by step *)

Lemma extract_identified_exact layer name fc fs : ∀ i pts ids idents s s' x,
  for_enumerate i fs (pts, ids, idents)
    (λ i f '(pts, feature_ids, identifiers),
       report 0 i 20 fc >>>
       let* ident := feature_getitem layer f name in
       ret (pts ++ [f_geometry f], feature_ids ++ [f_id f], identifiers ++ [ident])) s
    = (s', Ok x) →
  ∃ found,
    x = (pts ++ (f_geometry <$> fs), ids ++ (f_id <$> fs), idents ++ found) ∧
    Forall2 (λ f a, identifier_of layer name f = Some a) fs found.
Proof.
  induction fs as [|f fs IH]; intros i pts ids idents s s' x H; simpl in H.
  - injection H as <- <-. exists []. rewrite !app_nil_r. split; [done|constructor].
  - bind_step H as Hbody. bind_step Hbody as Hrep. bind_step Hbody as Hget.
    rewrite feature_getitem_identifier in Hget.
    destruct (identifier_of layer name f) as [ident|] eqn:Hf; [|done].
    injection Hget as <- <-. injection Hbody as <- <-.
    apply IH in H as (found & -> & Hall).
    exists (ident :: found). rewrite !fmap_cons, <- !app_assoc. simpl.
    split; [done|by constructor].
Qed.

Lemma centroid_loop_exact k cs : ∀ i s s',
  for_enumerate i cs tt
    (λ i centroid _, report 90 i 10 k >>> addCentroid (OutFeature centroid [AInt i])) s
    = (s', Ok tt) →
  centroid_written s' =
    centroid_written s ++ imap (λ j c, OutFeature c [AInt (i + Z.of_nat j)]) cs ∧
  (cs = [] ∨ k ≠ 0).
Proof.
  induction cs as [|c cs IH]; intros i s s' H; simpl in H.
  - injection H as <-. rewrite app_nil_r. auto.
  - bind_step H as Hbody. bind_step Hbody as Hrep.
    apply report_inv in Hrep as [Hem [[Hk _]|[_ [=]]]]. injection Hbody as <-.
    apply IH in H as [H _]. split; [|by right].
    rewrite H. simpl. injection Hem as _ -> _.
    rewrite <- app_assoc. simpl. rewrite Z.add_0_r. do 2 f_equal.
    apply imap_ext. intros j c' _. simpl. do 3 f_equal. lia.
Qed.

(** A successful run of the algorithm by identifier, step by step. *)
Lemma ByIdentifier_success lib cfg p layer s :
  run lib cfg (ByIdentifier p) layer = (s, Ok tt) →
  ∃ method metric crit identifiers distances links y s0,
    _linkage_methods !! LINKAGE_METHOD (BASE p) = Some method ∧
    _linkage_metrics !! LINKAGE_METRIC (BASE p) = Some metric ∧
    _criterions !! CRITERION (BASE p) = Some crit ∧
    Forall2 (λ f a, identifier_of layer (IDENTIFIER_FIELD p) f = Some a)
            (features layer) identifiers ∧
    constrained_distances lib (f_geometry <$> features layer) identifiers metric s0
      = (s0, Ok distances) ∧
    linkage lib distances method metric = inl links ∧
    fcluster lib links (TOLERANCE (BASE p)) crit = inl y ∧
    written s = labelled (dict_zip (f_id <$> features layer) y) <$> features layer ∧
    num_clusters_out s = Some (py_len (np_unique y)).
Proof.
  unfold run, processAlgorithm, HierarchicalClusteringByIdentifier_processAlgorithm.
  intros H.
  bind_step H as Hmethod.
  apply py_index_inv in Hmethod as [-> [(method & Hmethod & [= ->])|[_ [=]]]].
  bind_step H as Hmetric.
  apply py_index_inv in Hmetric as [-> [(metric & Hmetric & [= ->])|[_ [=]]]].
  bind_step H as Hcrit.
  apply py_index_inv in Hcrit as [-> [(crit & Hcrit & [= ->])|[_ [=]]]].
  bind_step H as Hpct. apply setPercentage_inv in Hpct as [_ Hem0].
  bind_step H as Htol. apply check_tolerance_inv in Htol as [Hem1 _].
  bind_step H as Hlim.
  apply check_point_limit_inv in Hlim as [Hem2 [[_ [=]]|[Hlim [= ->]]]].
  bind_step H as Hinfo. apply setInfo_inv in Hinfo as [_ Hem3].
  bind_step H as Hext.
  pose proof (extract_identified_inv _ _ _ _ _ _ _ _ _ _ _ Hext) as [Hem4 _].
  apply extract_identified_exact in Hext as (identifiers & -> & Hids).
  simpl in H.
  bind_step H as Hinfo2. apply setInfo_inv in Hinfo2 as [_ Hem5].
  bind_step H as Hdist.
  pose proof (constrained_distances_inv _ _ _ _ _ _ _ Hdist) as [-> _].
  bind_step H as Hpct1. apply setPercentage_inv in Hpct1 as [_ Hem6].
  bind_step H as Hlink.
  apply call_inv in Hlink as [-> [(links & Hlinks & [= ->])|(? & _ & [=])]].
  bind_step H as Hcall.
  apply call_inv in Hcall as [-> [(y & Hy & [= ->])|(? & _ & [=])]].
  bind_step H as Hpct2. apply setPercentage_inv in Hpct2 as [_ Hem7].
  bind_step H as Hinfo3. apply setInfo_inv in Hinfo3 as [_ Hem8].
  bind_step H as Hwrite.
  apply write_labelled_inv in Hwrite as (_ & _ & [(_ & Hw' & _)|[(? & _)|(? & _)]]);
    [|done|done].
  apply report_num_clusters_inv in H as (_ & Hw'' & _ & Hn'').
  nothing_written Hw'.
  eexists method, metric, crit, identifiers, _, links, y, _.
  repeat (split; [done|]). split; [congruence|done].
Qed.

(** A successful run of the algorithm by identifier in terms of the
    library calls on the points of the layer. *)
Lemma by_identifier_pinned lib cfg p layer s :
  LibraryContract lib →
  run lib cfg (ByIdentifier p) layer = (s, Ok tt) →
  ∃ method metric crit identifiers v links y,
    _linkage_methods !! LINKAGE_METHOD (BASE p) = Some method ∧
    _linkage_metrics !! LINKAGE_METRIC (BASE p) = Some metric ∧
    _criterions !! CRITERION (BASE p) = Some crit ∧
    Forall2 (λ f a, identifier_of layer (IDENTIFIER_FIELD p) f = Some a)
            (features layer) identifiers ∧
    pdist lib (f_geometry <$> features layer) metric = inl v ∧
    linkage lib (constrain v identifiers) method metric = inl links ∧
    fcluster lib links (TOLERANCE (BASE p)) crit = inl y ∧
    length y = length (features layer) ∧
    written s = labelled (dict_zip (f_id <$> features layer) y) <$> features layer ∧
    num_clusters_out s = Some (py_len (np_unique y)).
Proof.
  intros Hlib Hrun.
  apply ByIdentifier_success in Hrun
    as (method & metric & crit & identifiers & distances & links & y & s0
        & Hm & Hme & Hc & Hids & Hdist & Hlinks & Hy & Hw & Hn).
  pose proof (constrained_distances_inv _ _ _ _ _ _ _ Hdist)
    as [_ [(v & D & d' & _ & Hv & HD & Hshape & _)|[[=]|(? & ? & [=])]]].
  pose proof (pdist_length lib Hlib _ _ _ Hv) as Hlen.
  rewrite length_fmap, (Forall2_length _ _ _ Hids) in Hlen.
  assert (identifiers ≠ []) as Hne.
  { intros ->. simpl in Hlen. destruct v; [|done]. by injection HD as <-. }
  rewrite (constrained_distances_run lib _ identifiers metric v s0) in Hdist by done.
  injection Hdist as <-.
  exists method, metric, crit, identifiers, v, links, y.
  repeat (split; [done|]). split; [|done].
  pose proof (linkage_rows lib Hlib _ _ _ _ Hlinks) as Hrows.
  pose proof (fcluster_labels lib Hlib _ _ _ _ Hy) as Hlabels.
  assert (length (constrain v identifiers) = triangle (length identifiers)) as Hcon.
  { unfold constrain. rewrite length_zip_with, length_pairs_of. lia. }
  rewrite Hcon in Hrows. apply triangle_inj in Hrows; [|destruct identifiers; simpl|lia].
  - rewrite (Forall2_length _ _ _ Hids). lia.
  - done.
  - lia.
Qed.

(** X12.  The pipeline of the algorithm by identifier.  For a library
    that meets the contract, a run that succeeds has read the identifier
    of every feature under the identifier field, called [pdist] on the
    points, [linkage] on these distances with [+inf] between points of
    different identifiers, and [fcluster] on the result, and has written
    the features under the labels of [fcluster]. *)
Theorem by_identifier_pipeline lib cfg p layer s :
  LibraryContract lib →
  run lib cfg (ByIdentifier p) layer = (s, Ok tt) →
  ∃ method metric crit identifiers v links y,
    _linkage_methods !! LINKAGE_METHOD (BASE p) = Some method ∧
    _linkage_metrics !! LINKAGE_METRIC (BASE p) = Some metric ∧
    _criterions !! CRITERION (BASE p) = Some crit ∧
    Forall2 (λ f a, identifier_of layer (IDENTIFIER_FIELD p) f = Some a)
            (features layer) identifiers ∧
    pdist lib (f_geometry <$> features layer) metric = inl v ∧
    linkage lib (constrain v identifiers) method metric = inl links ∧
    fcluster lib links (TOLERANCE (BASE p)) crit = inl y ∧
    written s = labelled (dict_zip (f_id <$> features layer) y) <$> features layer.
Proof.
  intros Hlib Hrun.
  destruct (by_identifier_pinned lib cfg p layer s Hlib Hrun)
    as (method & metric & crit & identifiers & v & links & y
        & ? & ? & ? & ? & ? & ? & ? & _ & ? & _).
  by exists method, metric, crit, identifiers, v, links, y.
Qed.

Lemma by_identifier_pipeline_witness :
  let p := ByIdentifierParams (HierarchicalParams (Z2Qc 2) "label" 0 1 0) "ident" in
  let out := run scipy_draw (Config 100) (ByIdentifier p) layer_apart in
  ∃ method metric crit identifiers v links y,
    _linkage_methods !! LINKAGE_METHOD (BASE p) = Some method ∧
    _linkage_metrics !! LINKAGE_METRIC (BASE p) = Some metric ∧
    _criterions !! CRITERION (BASE p) = Some crit ∧
    Forall2 (λ f a, identifier_of layer_apart (IDENTIFIER_FIELD p) f = Some a)
            (features layer_apart) identifiers ∧
    pdist scipy_draw (f_geometry <$> features layer_apart) metric = inl v ∧
    linkage scipy_draw (constrain v identifiers) method metric = inl links ∧
    fcluster scipy_draw links (TOLERANCE (BASE p)) crit = inl y ∧
    written out.1
    = labelled (dict_zip (f_id <$> features layer_apart) y) <$> features layer_apart.
Proof.
  intros p out.
  apply (by_identifier_pipeline scipy_draw (Config 100) p layer_apart out.1).
  - apply scipy_contract.
  - by_evaluation out.
Defined.

(** A successful run of the k-means algorithm, step by step. *)
Lemma KMeans_success lib cfg p layer s :
  run lib cfg (KMeans p) layer = (s, Ok tt) →
  ∃ mi centroids y,
    _minits !! MINIT p = Some mi ∧
    kmeans2 lib (f_geometry <$> features layer) (py_int (K p)) mi = inl (centroids, y) ∧
    centroid_written s = imap (λ i c, OutFeature c [AInt (Z.of_nat i)]) centroids ∧
    (centroids = [] ∨ py_int (K p) ≠ 0).
Proof.
  unfold run, processAlgorithm, KMeansClustering_processAlgorithm. intros H.
  bind_step H as Hminit.
  apply py_index_inv in Hminit as [-> [(mi & Hminit & [= ->])|[_ [=]]]].
  bind_step H as Hpct. apply setPercentage_inv in Hpct as [_ Hem0].
  destruct (decide (Z2Qc (py_int (K p)) ≠ K p)) as [Hk|Hk].
  { bind_step H as Hraise. bind_step Hraise as Hinfo. }
  bind_step H as Hret. injection Hret as <-.
  bind_step H as Hinfo. apply setInfo_inv in Hinfo as [_ Hem1].
  bind_step H as Hext.
  apply extract_points_inv in Hext as [Hem4 [[[= ->] Hfc]|([=] & _)]].
  bind_step H as Hinfo2. apply setInfo_inv in Hinfo2 as [_ Hem5].
  bind_step H as Hcall.
  apply call_inv in Hcall as [-> [([centroids y] & Hy & [= ->])|(? & _ & [=])]].
  bind_step H as Hpct2. apply setPercentage_inv in Hpct2 as [_ Hem6].
  bind_step H as Hinfo3. apply setInfo_inv in Hinfo3 as [_ Hem7].
  bind_step H as Hwrite.
  apply write_labelled_inv in Hwrite as (Hc' & _).
  bind_step H as Hinfo4. apply setInfo_inv in Hinfo4 as [_ Hem8].
  bind_step H as Hcent.
  apply centroid_loop_exact in Hcent as [Hcent Hk0].
  apply report_num_clusters_inv in H as (_ & _ & Hc'' & _).
  exists mi, centroids, y. repeat (split; [done|]). split; [|done].
  rewrite Hc'', Hcent.
  match goal with |- centroid_written ?s' ++ _ = _ =>
    assert (centroid_written s' = []) as -> by em end.
  simpl. apply imap_ext. intros j c _. simpl. do 3 f_equal.
Qed.

(** X13.  The centroid output of the k-means operation: a run that
    succeeds has written the centroids that [kmeans2] returned, in their
    order, each as a point feature whose only attribute is its position
    0, 1, ...; and unless [kmeans2] returned no centroid, [k] is not
    zero. *)
Theorem kmeans_centroids_numbered lib cfg p layer s :
  run lib cfg (KMeans p) layer = (s, Ok tt) →
  ∃ mi centroids y,
    _minits !! MINIT p = Some mi ∧
    kmeans2 lib (f_geometry <$> features layer) (py_int (K p)) mi = inl (centroids, y) ∧
    centroid_written s = imap (λ i c, OutFeature c [AInt (Z.of_nat i)]) centroids ∧
    (centroids = [] ∨ py_int (K p) ≠ 0).
Proof. apply KMeans_success. Qed.

Lemma kmeans_centroids_numbered_witness :
  let p := KMeansParams (Z2Qc 2) 1 "label" in
  let out := run scipy_draw (Config 100) (KMeans p) layer_apart in
  ∃ mi centroids y,
    _minits !! MINIT p = Some mi ∧
    kmeans2 scipy_draw (f_geometry <$> features layer_apart) (py_int (K p)) mi
      = inl (centroids, y) ∧
    centroid_written out.1 = imap (λ i c, OutFeature c [AInt (Z.of_nat i)]) centroids ∧
    (centroids = [] ∨ py_int (K p) ≠ 0).
Proof.
  intros p out.
  apply (kmeans_centroids_numbered scipy_draw (Config 100) p layer_apart out.1).
  by_evaluation out.
Defined.

(** ** The progress bar *)

Lemma Z2Qc_le a b : a ≤ b → (Z2Qc a ≤ Z2Qc b)%Qc.
Proof.
  intros H. unfold Z2Qc, Qcle. simpl. rewrite !Qred_correct. by rewrite <- Zle_Qle.
Qed.

Lemma Qcinv_nonneg (x : Qc) : (0 ≤ x)%Qc → (0 ≤ / x)%Qc.
Proof.
  intros Hx.
  assert (this (/ x)%Qc == / this x)%Q as Hinv by apply Qred_correct.
  unfold Qcle. rewrite Hinv. apply Qinv_le_0_compat. exact Hx.
Qed.

Lemma percent_at_mono base span count i j :
  0 ≤ span → 0 < count → i ≤ j →
  (percent_at base span count i ≤ percent_at base span count j)%Qc.
Proof.
  intros Hspan Hcount Hij. unfold percent_at.
  apply Qcplus_le_compat; [apply Qcle_refl|].
  unfold Qcdiv. apply Qcmult_le_compat_r.
  - apply Qcmult_le_compat_r; [by apply Z2Qc_le|].
    by apply (Z2Qc_le 0).
  - apply Qcinv_nonneg. apply (Z2Qc_le 0). lia.
Qed.

Lemma percent_at_first base span count :
  percent_at base span count 0 = Z2Qc base.
Proof. unfold percent_at. change (Z2Qc 0) with 0%Qc. unfold Qcdiv. ring. Qed.

Lemma percent_at_last base span count :
  count ≠ 0 → percent_at base span count count = (Z2Qc base + Z2Qc span)%Qc.
Proof.
  intros Hc. unfold percent_at. f_equal.
  rewrite (Qcmult_comm (Z2Qc count)). apply Qcdiv_mult_l. by rewrite Z2Qc_zero.
Qed.

Lemma ascending_le lo hi ps : ascending lo hi ps → (lo ≤ hi)%Qc.
Proof.
  revert lo. induction ps as [|p ps IH]; intros lo; simpl; [done|].
  intros [Hlo Hps]. eapply Qcle_trans; [done|by apply IH].
Qed.

Lemma ascending_from lo lo' hi ps :
  (lo' ≤ lo)%Qc → ascending lo hi ps → ascending lo' hi ps.
Proof.
  destruct ps as [|p ps]; simpl.
  - intros. by eapply Qcle_trans.
  - intros ? [? ?]. split; [by eapply Qcle_trans|done].
Qed.

Lemma ascending_upto lo hi hi' ps :
  (hi ≤ hi')%Qc → ascending lo hi ps → ascending lo hi' ps.
Proof.
  intros Hhi. revert lo. induction ps as [|p ps IH]; intros lo; simpl.
  - intros. by eapply Qcle_trans.
  - intros [? ?]. split; [done|by apply IH].
Qed.

Lemma ascending_app lo mid hi ps qs :
  ascending lo mid ps → ascending mid hi qs → ascending lo hi (ps ++ qs).
Proof.
  revert lo. induction ps as [|p ps IH]; intros lo; simpl.
  - intros. by eapply ascending_from.
  - intros [? ?] ?. split; [done|by apply IH].
Qed.

Section climbing.

Context {A B : Type}.

Lemma climbs_silent lo hi (m : M A) : (lo ≤ hi)%Qc → silent m → climbs lo hi m.
Proof.
  intros Hle Hm s s' r H. exists []. rewrite app_nil_r. split; [by eapply Hm|done].
Qed.

(** A step from [lo] to [mid], then the rest from [mid] to [hi]; [P]
    is what is known of the value that the step returns. *)
Lemma climbs_bind_post (P : A → Prop) lo mid hi (m : M A) (k : A → M B) :
  (mid ≤ hi)%Qc →
  (∀ s s' a, m s = (s', Ok a) → P a) →
  climbs lo mid m → (∀ a, P a → climbs mid hi (k a)) → climbs lo hi (bind m k).
Proof.
  intros Hle Hpost Hm Hk s s' r H. bind_step H as Hstep.
  - destruct (Hm _ _ _ Hstep) as (ps & Hps & Hasc).
    destruct (Hk _ (Hpost _ _ _ Hstep) _ _ _ H) as (qs & Hqs & Hasc').
    exists (ps ++ qs). split; [by rewrite Hqs, Hps, app_assoc|].
    by eapply ascending_app.
  - destruct (Hm _ _ _ Hstep) as (ps & Hps & Hasc).
    exists ps. split; [done|]. by eapply ascending_upto.
Qed.

Lemma climbs_bind lo mid hi (m : M A) (k : A → M B) :
  (mid ≤ hi)%Qc →
  climbs lo mid m → (∀ a, climbs mid hi (k a)) → climbs lo hi (bind m k).
Proof.
  intros Hle Hm Hk. apply (climbs_bind_post (λ _, True) lo mid hi); auto.
Qed.

Lemma silent_bind (m : M A) (k : A → M B) :
  silent m → (∀ a, silent (k a)) → silent (bind m k).
Proof.
  intros Hm Hk s s' r H. bind_step H as Hstep.
  - rewrite (Hk _ _ _ _ H). by apply (Hm _ _ _ Hstep).
  - by apply (Hm _ _ _ Hstep).
Qed.

Lemma silent_ret (a : A) : silent (ret a).
Proof. by intros s s' r [= <- <-]. Qed.

Lemma silent_raise (e : exn) : silent (raise e : M A).
Proof. by intros s s' r [= <- <-]. Qed.

Lemma silent_call routine (x : lib_result A) : silent (call routine x).
Proof. intros s s' r H. by apply call_inv in H as [-> _]. Qed.

Lemma silent_py_index (l : list A) i : silent (py_index l i).
Proof. intros s s' r H. by apply py_index_inv in H as [-> _]. Qed.

End climbing.

Lemma silent_setInfo m b : silent (setInfo m b).
Proof. by intros s s' r [= <- <-]. Qed.

Lemma silent_addFeature f : silent (addFeature f).
Proof. by intros s s' r [= <- <-]. Qed.

Lemma silent_addCentroid f : silent (addCentroid f).
Proof. by intros s s' r [= <- <-]. Qed.

Lemma silent_setOutputValue n : silent (setOutputValue n).
Proof. by intros s s' r [= <- <-]. Qed.

Lemma silent_for_enumerate {A S} (xs : list A) (body : Z → A → S → M S) :
  (∀ i x acc, silent (body i x acc)) →
  ∀ i acc, silent (for_enumerate i xs acc body).
Proof.
  intros Hbody. induction xs as [|x xs IH]; intros i acc; simpl.
  - apply silent_ret.
  - apply silent_bind; [apply Hbody|]. intros acc'. apply IH.
Qed.

(** Proves [silent m] by following the structure of [m]. *)
Ltac silence :=
  cbv beta zeta;
  lazymatch goal with
  | |- silent (bind _ _) => apply silent_bind; [silence | intros ?; silence]
  | |- silent (ret _) => apply silent_ret
  | |- silent (raise _) => apply silent_raise
  | |- silent (call _ _) => apply silent_call
  | |- silent (py_index _ _) => apply silent_py_index
  | |- silent (setInfo _ _) => apply silent_setInfo
  | |- silent (addFeature _) => apply silent_addFeature
  | |- silent (addCentroid _) => apply silent_addCentroid
  | |- silent (setOutputValue _) => apply silent_setOutputValue
  | |- silent (if ?c then _ else _) => destruct c; silence
  | |- silent (match ?x with _ => _ end) => destruct x; silence
  | |- silent ?m => let h := head_of m in unfold h; silence
  end.

Lemma climbs_setPercentage lo hi p :
  (lo ≤ p)%Qc → (p ≤ hi)%Qc → climbs lo hi (setPercentage p).
Proof.
  intros Hlo Hhi s s' r [= <- <-]. exists [p]. split; [|done].
  unfold percentages. simpl. by rewrite reverse_cons.
Qed.

Lemma climbs_report lo base i span count :
  (lo ≤ percent_at base span count i)%Qc →
  climbs lo (percent_at base span count i) (report base i span count).
Proof.
  intros Hlo s s' r H. unfold report, py_div in H.
  destruct (decide (Z2Qc count = 0%Qc)) as [H0|H0].
  - rewrite (bind_raise _ _ s s ZeroDivisionError) in H by done.
    injection H as <- <-. exists []. by rewrite app_nil_r.
  - erewrite bind_ok in H by done.
    apply (climbs_setPercentage lo _ _ Hlo (Qcle_refl _) s s' r H).
Qed.

(** A loop whose body reports [pct i] at index [i], for indices up to
    [last]. *)
Lemma climbs_for_enumerate {A S} (pct : Z → Qc) (last : Z) (hi : Qc)
    (xs : list A) (body : Z → A → S → M S) :
  (∀ i j, i ≤ j → (pct i ≤ pct j)%Qc) →
  (pct last ≤ hi)%Qc →
  (∀ i x acc lo, (lo ≤ pct i)%Qc → climbs lo (pct i) (body i x acc)) →
  ∀ i acc lo,
    i + Z.of_nat (length xs) ≤ last + 1 →
    (lo ≤ hi)%Qc → (lo ≤ pct i)%Qc →
    climbs lo hi (for_enumerate i xs acc body).
Proof.
  intros Hmono Hlast Hbody.
  induction xs as [|x xs IH]; intros i acc lo Hlen Hhi Hlo; simpl in *.
  - apply climbs_silent; [done|apply silent_ret].
  - assert (pct i ≤ hi)%Qc as Hi.
    { eapply Qcle_trans; [apply (Hmono i last); lia|done]. }
    apply (climbs_bind lo (pct i) hi); [done|by apply Hbody|].
    intros acc'. apply IH; [lia|done|apply Hmono; lia].
Qed.

(** The body of every loop: the report, then steps that report nothing. *)
Lemma climbs_reporting {A} lo base i span count (rest : M A) :
  (lo ≤ percent_at base span count i)%Qc → silent rest →
  climbs lo (percent_at base span count i) (report base i span count >>> rest).
Proof.
  intros Hlo Hrest.
  apply (climbs_bind lo (percent_at base span count i)); [apply Qcle_refl| |].
  - by apply climbs_report.
  - intros _. by apply climbs_silent; [apply Qcle_refl|].
Qed.

(** A loop over [xs] from index [i] that reports [base + i * span /
    count]: its percentages ascend from [base] to [base + span] when the
    indices stay within [0 .. count]. *)
Lemma climbs_reporting_loop {A S} base span count (xs : list A)
    (body : Z → A → S → M S) i acc lo hi :
  (∀ i x acc lo, (lo ≤ percent_at base span count i)%Qc →
     climbs lo (percent_at base span count i) (body i x acc)) →
  0 ≤ span → 0 ≤ i → i + Z.of_nat (length xs) ≤ count + 1 →
  (xs ≠ [] → 0 < count) →
  (lo ≤ Z2Qc base)%Qc → (Z2Qc base + Z2Qc span ≤ hi)%Qc →
  climbs lo hi (for_enumerate i xs acc body).
Proof.
  intros Hbody Hspan Hi Hlen Hcount Hlo Hhi.
  assert (Z2Qc base ≤ Z2Qc base + Z2Qc span)%Qc as Hbase.
  { rewrite <- (Qcplus_0_r (Z2Qc base)) at 1.
    apply Qcplus_le_compat; [apply Qcle_refl|by apply (Z2Qc_le 0)]. }
  assert (lo ≤ hi)%Qc as Hlohi.
  { eapply Qcle_trans; [done|]. by eapply Qcle_trans. }
  destruct xs as [|x xs].
  { apply climbs_silent; [done|apply silent_ret]. }
  specialize (Hcount ltac:(done)).
  apply (climbs_for_enumerate (percent_at base span count) count); try done.
  - intros j j' Hj. apply percent_at_mono; [done|lia|done].
  - rewrite percent_at_last by lia. done.
  - apply (Qcle_trans _ (Z2Qc base)); [done|].
    rewrite <- (percent_at_first base span count) at 1.
    apply percent_at_mono; [done|lia|done].
Qed.

Lemma climbs_extract_points span fc layer lo hi :
  0 ≤ span → Z.of_nat (length (features layer)) ≤ fc →
  (lo ≤ Z2Qc 0)%Qc → (Z2Qc 0 + Z2Qc span ≤ hi)%Qc →
  climbs lo hi (extract_points span fc layer).
Proof.
  intros Hspan Hfc Hlo Hhi. unfold extract_points.
  apply (climbs_reporting_loop 0 span fc); try done; try lia.
  - intros i f [pts ids] lo' Hlo'. apply climbs_reporting; [done|silence].
  - intros Hne. destruct (features layer); [done|simpl in *; lia].
Qed.

Lemma climbs_write_labelled base span fc layer labels lo hi :
  0 ≤ span → Z.of_nat (length (features layer)) ≤ fc →
  (lo ≤ Z2Qc base)%Qc → (Z2Qc base + Z2Qc span ≤ hi)%Qc →
  climbs lo hi (write_labelled base span fc layer labels).
Proof.
  intros Hspan Hfc Hlo Hhi. unfold write_labelled.
  apply (climbs_reporting_loop base span fc); try done; try lia.
  - intros i f [] lo' Hlo'. apply climbs_reporting; [done|silence].
  - intros Hne. destruct (features layer); [done|simpl in *; lia].
Qed.

Lemma climbs_report_num_clusters y lo :
  (lo ≤ Z2Qc 100)%Qc → climbs lo (Z2Qc 100) (report_num_clusters y).
Proof.
  intros Hlo. unfold report_num_clusters. cbv zeta.
  apply (climbs_bind lo lo); [done|apply climbs_silent; [apply Qcle_refl|silence]|].
  intros _.
  apply (climbs_bind lo lo); [done|apply climbs_silent; [apply Qcle_refl|silence]|].
  intros _. by apply climbs_setPercentage; [|apply Qcle_refl].
Qed.

(** Decides an inequality between two given numbers. *)
Ltac qc :=
  lazymatch goal with
  | |- (Z2Qc _ ≤ Z2Qc _)%Qc => by vm_compute
  | |- (Z2Qc _ + Z2Qc _ ≤ Z2Qc _)%Qc => by vm_compute
  end.

(** In [climbs lo hi (bind m k)]: the step [m] reports nothing. *)
Ltac hush :=
  cbv beta zeta;
  lazymatch goal with
  | |- climbs ?lo ?hi (bind _ _) =>
      apply (climbs_bind lo lo hi);
      [qc | apply climbs_silent; [qc | silence] | intros ?]
  end.

(** In [climbs lo hi (bind m k)]: the step [m] climbs to [mid]. *)
Ltac rise mid :=
  cbv beta zeta;
  lazymatch goal with
  | |- climbs ?lo ?hi (bind _ _) => apply (climbs_bind lo mid hi); [qc | | ]
  end.

Lemma check_point_limit_returns cfg layer s s' a :
  check_point_limit cfg layer s = (s', Ok a) → a = selectedFeatureCount layer.
Proof.
  intros H. by apply check_point_limit_inv in H as [_ [[_ [=]]|[_ [= ->]]]].
Qed.

Lemma processAlgorithm_climbs lib cfg op layer :
  Z.of_nat (length (features layer)) ≤ selectedFeatureCount layer →
  centroids_bounded lib →
  climbs (Z2Qc 0) (Z2Qc 100) (processAlgorithm lib cfg op layer).
Proof.
  intros Hfc Hcent. destruct op as [p|p|p]; simpl.
  - unfold HierarchicalClustering_processAlgorithm.
    do 3 hush.
    rise (Z2Qc 0); [apply climbs_setPercentage; qc|intros _].
    hush.
    apply (climbs_bind_post (λ x, x = selectedFeatureCount layer) (Z2Qc 0) (Z2Qc 0));
      [qc|apply check_point_limit_returns|apply climbs_silent; [qc|silence]|].
    intros ? ->.
    hush.
    rise (Z2Qc 30); [apply climbs_extract_points; [lia|done|qc|qc]|intros [pts ids]].
    do 2 hush.
    rise (Z2Qc 60); [apply climbs_setPercentage; qc|intros _].
    hush.
    rise (Z2Qc 90); [apply climbs_write_labelled; [lia|done|qc|qc]|intros _].
    apply climbs_report_num_clusters. qc.
  - unfold KMeansClustering_processAlgorithm.
    hush.
    rise (Z2Qc 0); [apply climbs_setPercentage; qc|intros _].
    do 2 hush.
    rise (Z2Qc 25); [apply climbs_extract_points; [lia|done|qc|qc]|intros [pts ids]].
    hush.
    cbv beta zeta.
    match goal with
    | |- climbs _ _ (bind (call _ ?x) _) =>
        apply (climbs_bind_post (λ a, x = inl a) (Z2Qc 25) (Z2Qc 25));
          [qc| |apply climbs_silent; [qc|silence]|]
    end.
    { intros s s' res H. by apply call_inv in H as [_ [(a' & Hx & [= ->])|(? & _ & [=])]]. }
    intros [centroids y] Hy.
    rise (Z2Qc 50); [apply climbs_setPercentage; qc|intros _].
    hush.
    rise (Z2Qc 75); [apply climbs_write_labelled; [lia|done|qc|qc]|intros _].
    hush.
    rise (Z2Qc 100); [|intros _; apply climbs_report_num_clusters; qc].
    apply Hcent in Hy.
    apply (climbs_reporting_loop 90 10 (py_int (K p))); try lia; try qc.
    + intros i c [] lo' Hlo'. apply climbs_reporting; [done|silence].
    + intros Hne. destruct centroids; [done|simpl in *; lia].
  - unfold HierarchicalClusteringByIdentifier_processAlgorithm.
    do 3 hush.
    rise (Z2Qc 0); [apply climbs_setPercentage; qc|intros _].
    hush.
    apply (climbs_bind_post (λ x, x = selectedFeatureCount layer) (Z2Qc 0) (Z2Qc 0));
      [qc|apply check_point_limit_returns|apply climbs_silent; [qc|silence]|].
    intros ? ->.
    hush.
    rise (Z2Qc 20).
    { apply (climbs_reporting_loop 0 20 (selectedFeatureCount layer)); try lia; try qc.
      - intros i f [[pts ids] idents] lo' Hlo'. apply climbs_reporting; [done|silence].
      - intros Hne. destruct (features layer); [done|simpl in *; lia]. }
    intros [[pts ids] idents].
    do 2 hush.
    rise (Z2Qc 40); [apply climbs_setPercentage; qc|intros _].
    do 2 hush.
    rise (Z2Qc 60); [apply climbs_setPercentage; qc|intros _].
    hush.
    rise (Z2Qc 90); [apply climbs_write_labelled; [lia|done|qc|qc]|intros _].
    apply climbs_report_num_clusters. qc.
Qed.

Lemma scipy_centroids_bounded r : centroids_bounded (Reference.scipy r).
Proof.
  intros pts k mi centroids y. simpl. unfold Reference.kmeans2.
  destruct (decide (pts = [])) as [|Hpts]; [done|].
  destruct (decide (k < 1)) as [|Hk]; [done|].
  set (init := match mi with
               | random => Reference.krandinit r pts (Z.to_nat k)
               | points => inl (omap (λ i, pts !! i)
                                     (take (Z.to_nat k)
                                           (Reference.permutation r (length pts))))
               end).
  clearbody init. destruct init as [code|]; [|done].
  destruct (decide (length code = Z.to_nat k)) as [Hcode|]; [|done].
  assert (code ≠ []) as Hne by (intros ->; simpl in *; lia).
  destruct (kmeans_loop_labels pts 10 code [] Hne ltac:(left; lia)) as (H1 & _ & _).
  destruct (Reference.kmeans_loop 10 pts code []) as [code' label].
  intros [= <- <-]. simpl in *. lia.
Qed.

(** X14.  The progress bar.  When the selected feature count is at
    least the number of features read, and [kmeans2] returns at most [k]
    centroids, the percentages that a run hands to
    [progress.setPercentage] never decrease and stay between 0 and 100,
    whatever the library returns and however the run ends. *)
Theorem progress_ascends lib cfg op layer :
  Z.of_nat (length (features layer)) ≤ selectedFeatureCount layer →
  centroids_bounded lib →
  ascending (Z2Qc 0) (Z2Qc 100) (percentages (run lib cfg op layer).1).
Proof.
  intros Hfc Hcent.
  destruct (processAlgorithm_climbs lib cfg op layer Hfc Hcent no_outputs
              (run lib cfg op layer).1 (run lib cfg op layer).2)
    as (ps & Hps & Hasc); [apply surjective_pairing|].
  by rewrite Hps.
Qed.

Lemma progress_ascends_witness :
  ascending (Z2Qc 0) (Z2Qc 100)
    (percentages (run scipy_draw (Config 100)
                    (KMeans (KMeansParams (Z2Qc 2) 1 "label")) layer_apart).1).
Proof.
  apply (progress_ascends scipy_draw (Config 100)
           (KMeans (KMeansParams (Z2Qc 2) 1 "label")) layer_apart).
  - simpl. lia.
  - apply scipy_centroids_bounded.
Defined.

(** ** Selections out of range *)

(** X15.  The selections are read before anything else: a selection
    that does not index its class-level list makes every operation end
    in [IndexError] with nothing emitted, whatever the other parameters
    and the layer. *)
Theorem invalid_selection_is_IndexError lib cfg op layer s r :
  ¬ valid_selections op →
  run lib cfg op layer = (s, r) →
  r = Raise IndexError ∧ emitted s = emitted no_outputs.
Proof.
  intros Hinvalid Hrun. destruct op as [p|p|p].
  - apply Hierarchical_inv in Hrun as [(e & -> & Hem & Hcase)|Hrun].
    + by destruct Hcase as [[-> _]|[? _]].
    + destruct Hrun as (? & ? & ? & ? & Hm & Hme & Hc & _).
      apply lookup_lt_Some in Hm, Hme, Hc. by destruct Hinvalid.
  - apply KMeans_inv in Hrun as [(e & -> & Hem & Hcase)|Hrun].
    + by destruct Hcase as [[-> _]|[? _]].
    + destruct Hrun as (? & ? & ? & Hmi & _).
      apply lookup_lt_Some in Hmi. by destruct Hinvalid.
  - apply ByIdentifier_inv in Hrun as [(e & -> & Hem & Hcase)|Hrun].
    + by destruct Hcase as [[-> _]|[? _]].
    + destruct Hrun as (? & ? & ? & ? & ? & ? & ? & ? & ? & Hm & Hme & Hc & _).
      apply lookup_lt_Some in Hm, Hme, Hc. by destruct Hinvalid.
Qed.

Lemma invalid_selection_is_IndexError_witness :
  let op := Hierarchical (HierarchicalParams (Z2Qc 2) "label" 7 1 0) in
  let out := run scipy_draw (Config 100) op layer_apart in
  out.2 = Raise IndexError ∧ emitted out.1 = emitted no_outputs.
Proof.
  intros op out.
  apply (invalid_selection_is_IndexError scipy_draw (Config 100) op layer_apart
           out.1 out.2).
  - simpl. lia.
  - apply surjective_pairing.
Defined.

(** * The labels of the hierarchical operations *)



